(** * Mosenergosbyt sensor platform: reconciliation cycle and indication services

    A shallow embedding of [custom_components/mosenergosbyt/sensor.py]:
    the updater [_entity_updater], the service helpers [_find_meter_entity]
    and [_get_real_indications], the two service handlers,
    [async_setup_entry], and the state of the entities: the updates of the
    account and meter sensors, their attributes and their unique ids.

    Python objects live in a store: every sensor is a cell of a per-class
    heap and is named by its index, so that object identity is index
    equality and an attribute assignment is an update of the cell.  Python
    dictionaries are insertion-ordered association lists.  Effects the host
    or the provider can observe are recorded in an event list, most recent
    first. *)

From Stdlib Require Import ZArith String List Bool Lia DecimalString DecimalNat.
From stdpp Require Import base list.
Import ListNotations.

Open Scope string_scope.

(** ** Exceptions and results *)

(** The exception classes that occur in the module.
    [IndicationsCountException] is caught before [MosenergosbytException]
    in the service handlers, and is a subclass of it. *)
Inductive PyExn : Type :=
| MosenergosbytException (msg : string)
| IndicationsCountException (msg : string)
| KeyError (key : string)
| ValueError (msg : string)
| AttributeError (msg : string)
| PlatformNotReady (msg : string).

(** [isinstance(e, MosenergosbytException)] *)
Definition is_MosenergosbytException (e : PyExn) : bool :=
  match e with
  | MosenergosbytException _ | IndicationsCountException _ => true
  | _ => false
  end.

(** [isinstance(e, IndicationsCountException)] *)
Definition is_IndicationsCountException (e : PyExn) : bool :=
  match e with
  | IndicationsCountException _ => true
  | _ => false
  end.

Inductive Result (A : Type) : Type :=
| Ok (a : A)
| Raise (e : PyExn).
Arguments Ok {A} a.
Arguments Raise {A} e.

(** ** Python dictionaries *)

Module PyDict.

(** A [dict] with [str] keys: the items in insertion order. *)
Definition dict (V : Type) : Type := list (string * V).

Definition keys {V} (d : dict V) : list string := map fst d.
Definition values {V} (d : dict V) : list V := map snd d.

(** [d.get(k)] *)
Fixpoint get {V} (d : dict V) (k : string) : option V :=
  match d with
  | [] => None
  | (k', v) :: rest => if String.eqb k' k then Some v else get rest k
  end.

(** [k in d] *)
Definition mem {V} (k : string) (d : dict V) : bool :=
  match get d k with Some _ => true | None => false end.

(** [d[k] = v]: an existing key keeps its position, a new one goes last. *)
Fixpoint set {V} (d : dict V) (k : string) (v : V) : dict V :=
  match d with
  | [] => [(k, v)]
  | (k', v') :: rest =>
      if String.eqb k' k then (k', v) :: rest else (k', v') :: set rest k v
  end.

(** [del d[k]] *)
Fixpoint del {V} (d : dict V) (k : string) : dict V :=
  match d with
  | [] => []
  | (k', v') :: rest =>
      if String.eqb k' k then del rest k else (k', v') :: del rest k
  end.

(** [d.update(other)] *)
Definition update {V} (d other : dict V) : dict V :=
  fold_left (fun acc kv => set acc (fst kv) (snd kv)) other d.

(** [a.keys() - b.keys()], enumerated in the order of [a]. *)
Definition keys_difference {V W} (a : dict V) (b : dict W) : list string :=
  List.filter (fun k => negb (mem k b)) (keys a).

End PyDict.
Import PyDict.

(** [x in l] for a list of strings *)
Definition str_in (x : string) (l : list string) : bool :=
  existsb (String.eqb x) l.

(** ** Provider objects *)

Record ChargeCalculation : Type := {
  period : string;
  charged : Z;
  indications : dict Z;
  comment : string;
}.

(** A meter of the provider library.  The two capabilities are optional
    methods: [hasattr(meter, 'save_indications')] is [Some].  A method
    takes the indications, [ignore_period_check] and
    [ignore_indications_check] and answers as the remote side does. *)
Record Meter : Type := {
  meter_code : string;
  last_indications : list (option Z);
  submitted_indications : list (option Z);
  save_indications : option (list Z -> bool -> bool -> Result string);
  get_charge_indications :
    option (list Z -> bool -> bool -> Result ChargeCalculation);
}.

(** What the [meter] attribute of a meter sensor can hold: a provider
    meter, or a one-character string when the meter mapping went through
    the allow-list comprehension (see [filter_meters]). *)
Inductive MeterObj : Type :=
| MeterV (m : Meter)
| StrV (s : string).

Record Invoice : Type := {
  invoice_id : string;
  total : Z;
}.

(** An account as delivered by [api.get_accounts()], together with what its
    two fetches answer during the cycle. *)
Record Account : Type := {
  account_code : string;
  get_meters : Result (dict Meter);
  get_last_invoice : Result (option Invoice);
}.

(** The API object of an entry and what its calls answer during the
    cycle. *)
Record API : Type := {
  is_logged_in : bool;
  logged_in_at : Z;
  login : Result unit;
  logout : Result unit;
  get_accounts : Result (dict Account);
}.

(** ** Sensors *)

(** [name_format] is [None] for the default format of the component.
    [entity_id] is given by the host when it adds the sensor; nothing here
    assigns it. *)
Record MESMeterSensor : Type := {
  meter : MeterObj;
  meter_name_format : option string;
  entity_id : option string;
}.

Record MESInvoiceSensor : Type := {
  invoice : Invoice;
  invoice_name_format : option string;
}.

Record MESAccountSensor : Type := {
  account : Account;
  account_name_format : option string;
  meter_entities : option (dict nat);
  invoice_entity : option nat;
}.

(** ** Observable effects *)

Inductive EntityRef : Type :=
| AccountRef (r : nat)
| MeterRef (r : nat)
| InvoiceRef (r : nat).

Record PushEvent : Type := {
  push_entity_id : option string;
  push_meter_code : string;
  push_indications : list Z;
  push_comment : string;
}.

Record CalculationEvent : Type := {
  calc_entity_id : option string;
  calc_meter_code : string;
  calc_indications : list Z;
  calc_result : ChargeCalculation;
}.

(** [create_notification]: [False], [True] or a mapping of overrides. *)
Inductive Notification : Type :=
| NotifyBool (b : bool)
| NotifyFields (fields : dict string).

(** Awaitables: the coroutines collected in [tasks] and the tasks handed to
    [hass.async_create_task]. *)
Inductive Task : Type :=
| AsyncUpdate (e : EntityRef)
| AsyncRemove (e : EntityRef)
| CreateNotification (meter_code : string) (content : Notification)
| RunUpdater (entry_id : string).

Inductive LogMsg : Type :=
| AuthenticationError (e : PyExn)
| ErrorFetchingAccounts (e : PyExn)
| ErrorRetrievingMeters (e : PyExn)
| ErrorFetchingInvoices (e : PyExn)
| NoMatchingMeter (attr : string)
| NoPushSupport (meter_code : string)
| NoCalculationSupport (meter_code : string)
| IndicationsError (e : PyExn)
| ApiReturnedError (e : PyExn)
| NothingDiscovered.

Inductive Event : Type :=
| LogError (m : LogMsg)
| LogWarning (m : LogMsg)
| ApiLogin
| ApiLogout
| ApiGetAccounts
| ApiGetMeters (account_code : string)
| ApiGetLastInvoice (account_code : string)
| ApiSaveIndications (meter_code : string) (values : list Z)
    (ignore_period_check ignore_indications_check : bool)
| ApiGetChargeIndications (meter_code : string) (values : list Z)
    (ignore_period_check ignore_indications_check : bool)
| ScheduleUpdate (e : EntityRef)
| CreateTask (t : Task)
| Wait (ts : list Task)
| AddEntities (es : list EntityRef)
| FirePushResult (ev : PushEvent)
| FireCalculationResult (ev : CalculationEvent)
| ServiceRegistered (name : string)
| TrackTimeInterval (entry_id : string).

(** ** The host *)

(** [hass]: the parts of [hass.data] the module uses, the registered
    services, the sensor objects and the effects so far.  A missing
    [hass.data[DATA_ENTITIES]] reads as the empty mapping, as
    [setdefault(DATA_ENTITIES, {})] and [get(DATA_ENTITIES, {})] make it. *)
Record Hass : Type := {
  data_api_objects : dict API;
  data_entities : dict (dict nat);
  data_updaters : dict unit;
  services : list string;
  account_sensors : list MESAccountSensor;
  meter_sensors : list MESMeterSensor;
  invoice_sensors : list MESInvoiceSensor;
  events : list Event;
}.

Definition emit (e : Event) (h : Hass) : Hass :=
  {| data_api_objects := data_api_objects h;
     data_entities := data_entities h;
     data_updaters := data_updaters h;
     services := services h;
     account_sensors := account_sensors h;
     meter_sensors := meter_sensors h;
     invoice_sensors := invoice_sensors h;
     events := e :: events h |}.

Definition with_data_entities (d : dict (dict nat)) (h : Hass) : Hass :=
  {| data_api_objects := data_api_objects h;
     data_entities := d;
     data_updaters := data_updaters h;
     services := services h;
     account_sensors := account_sensors h;
     meter_sensors := meter_sensors h;
     invoice_sensors := invoice_sensors h;
     events := events h |}.

Definition with_data_updaters (d : dict unit) (h : Hass) : Hass :=
  {| data_api_objects := data_api_objects h;
     data_entities := data_entities h;
     data_updaters := d;
     services := services h;
     account_sensors := account_sensors h;
     meter_sensors := meter_sensors h;
     invoice_sensors := invoice_sensors h;
     events := events h |}.

Definition with_services (l : list string) (h : Hass) : Hass :=
  {| data_api_objects := data_api_objects h;
     data_entities := data_entities h;
     data_updaters := data_updaters h;
     services := l;
     account_sensors := account_sensors h;
     meter_sensors := meter_sensors h;
     invoice_sensors := invoice_sensors h;
     events := events h |}.

Definition with_account_sensors (l : list MESAccountSensor) (h : Hass) : Hass :=
  {| data_api_objects := data_api_objects h;
     data_entities := data_entities h;
     data_updaters := data_updaters h;
     services := services h;
     account_sensors := l;
     meter_sensors := meter_sensors h;
     invoice_sensors := invoice_sensors h;
     events := events h |}.

Definition with_meter_sensors (l : list MESMeterSensor) (h : Hass) : Hass :=
  {| data_api_objects := data_api_objects h;
     data_entities := data_entities h;
     data_updaters := data_updaters h;
     services := services h;
     account_sensors := account_sensors h;
     meter_sensors := l;
     invoice_sensors := invoice_sensors h;
     events := events h |}.

Definition with_invoice_sensors (l : list MESInvoiceSensor) (h : Hass) : Hass :=
  {| data_api_objects := data_api_objects h;
     data_entities := data_entities h;
     data_updaters := data_updaters h;
     services := services h;
     account_sensors := account_sensors h;
     meter_sensors := meter_sensors h;
     invoice_sensors := l;
     events := events h |}.

(** Attribute assignments on a sensor object. *)
Definition set_account (a : Account) (s : MESAccountSensor) : MESAccountSensor :=
  {| account := a;
     account_name_format := account_name_format s;
     meter_entities := meter_entities s;
     invoice_entity := invoice_entity s |}.

Definition set_meter_entities (d : option (dict nat)) (s : MESAccountSensor)
  : MESAccountSensor :=
  {| account := account s;
     account_name_format := account_name_format s;
     meter_entities := d;
     invoice_entity := invoice_entity s |}.

Definition set_invoice_entity (r : option nat) (s : MESAccountSensor)
  : MESAccountSensor :=
  {| account := account s;
     account_name_format := account_name_format s;
     meter_entities := meter_entities s;
     invoice_entity := r |}.

Definition set_meter (m : MeterObj) (s : MESMeterSensor) : MESMeterSensor :=
  {| meter := m;
     meter_name_format := meter_name_format s;
     entity_id := entity_id s |}.

Definition set_invoice (i : Invoice) (s : MESInvoiceSensor) : MESInvoiceSensor :=
  {| invoice := i; invoice_name_format := invoice_name_format s |}.

(** ** Configuration *)

(** [user_cfg[CONF_ACCOUNTS][account_code]]: [True] or a list of meter
    codes. *)
Inductive AccountFilter : Type :=
| FilterTrue
| FilterCodes (codes : list string).

(** [user_cfg[CONF_INVOICES]]: a boolean or a list of account codes. *)
Inductive InvoiceFilter : Type :=
| InvoicesBool (b : bool)
| InvoicesCodes (codes : list string).

(** [user_cfg]; an optional key that is absent is [None]. *)
Record UserCfg : Type := {
  username : string;
  login_timeout : Z;
  accounts : option (dict AccountFilter);
  invoices : option InvoiceFilter;
  meter_name : option string;
  account_name : option string;
  invoice_name : option string;
}.

(** [CONF_ACCOUNTS in user_cfg and user_cfg[CONF_ACCOUNTS]], as a truth
    value: an empty mapping is false. *)
Definition use_meter_filter (cfg : UserCfg) : bool :=
  match accounts cfg with
  | Some (_ :: _) => true
  | _ => false
  end.

(** [CONF_INVOICES in user_cfg and user_cfg[CONF_INVOICES]], as a truth
    value: [False] and the empty list are false. *)
Definition use_invoice_filter (cfg : UserCfg) : bool :=
  match invoices cfg with
  | Some (InvoicesBool b) => b
  | Some (InvoicesCodes (_ :: _)) => true
  | _ => false
  end.

(** ** The updater *)

(** The local variables of one run of the updater next to the host;
    [tasks] is most recent first. *)
Record Loop : Type := {
  hass : Hass;
  new_accounts : dict nat;
  new_meters : dict nat;
  new_invoices : dict nat;
  tasks : list Task;
}.

Definition on_hass (f : Hass -> Hass) (L : Loop) : Loop :=
  {| hass := f (hass L);
     new_accounts := new_accounts L;
     new_meters := new_meters L;
     new_invoices := new_invoices L;
     tasks := tasks L |}.

Definition with_new_accounts (d : dict nat) (L : Loop) : Loop :=
  {| hass := hass L;
     new_accounts := d;
     new_meters := new_meters L;
     new_invoices := new_invoices L;
     tasks := tasks L |}.

Definition with_new_meters (d : dict nat) (L : Loop) : Loop :=
  {| hass := hass L;
     new_accounts := new_accounts L;
     new_meters := d;
     new_invoices := new_invoices L;
     tasks := tasks L |}.

Definition with_new_invoices (d : dict nat) (L : Loop) : Loop :=
  {| hass := hass L;
     new_accounts := new_accounts L;
     new_meters := new_meters L;
     new_invoices := d;
     tasks := tasks L |}.

(** [tasks.append(t)] *)
Definition append_task (t : Task) (L : Loop) : Loop :=
  {| hass := hass L;
     new_accounts := new_accounts L;
     new_meters := new_meters L;
     new_invoices := new_invoices L;
     tasks := t :: tasks L |}.

(** What the updater returns: [False] or the three counts. *)
Inductive UpdaterResult : Type :=
| UpdaterFalse
| UpdaterCounts (n_accounts n_meters n_invoices : nat).

(** Lines 87-98: the session is established or refreshed. *)
Definition ensure_session (cfg : UserCfg) (utcnow : Z) (api : API) (h : Hass)
  : Result unit * Hass :=
  if negb (is_logged_in api) then (login api, emit ApiLogin h)
  else if (logged_in_at api + login_timeout cfg <=? utcnow)%Z then
    match logout api with
    | Ok _ => (login api, emit ApiLogin (emit ApiLogout h))
    | Raise e => (Raise e, emit ApiLogout h)
    end
  else (Ok tt, h).

(** [k, v = key] for a [str] key: it must have exactly two characters
    (meter codes are ASCII, one byte a character). *)
Definition unpack_pair (key : string) : Result (string * string) :=
  match key with
  | String a (String b EmptyString) =>
      Ok (String a EmptyString, String b EmptyString)
  | EmptyString | String _ EmptyString =>
      Raise (ValueError "not enough values to unpack")
  | _ => Raise (ValueError "too many values to unpack")
  end.

(** Line 146: [{k: v for k, v in meters if k in account_filter}].
    Iterating the mapping [meters] yields its keys. *)
Fixpoint filter_meters (meter_keys : list string) (account_filter : list string)
    (acc : dict MeterObj) : Result (dict MeterObj) :=
  match meter_keys with
  | [] => Ok acc
  | key :: rest =>
      match unpack_pair key with
      | Raise e => Raise e
      | Ok (k, v) =>
          if str_in k account_filter
          then filter_meters rest account_filter (set acc k (StrV v))
          else filter_meters rest account_filter acc
      end
  end.

Definition as_objects (meters : dict Meter) : dict MeterObj :=
  map (fun kv => (fst kv, MeterV (snd kv))) meters.

(** Lines 142-146: the allow-list of the account is applied. *)
Definition apply_meter_filter (cfg : UserCfg) (account_code : string)
    (meters : dict Meter) : Result (dict MeterObj) :=
  if use_meter_filter cfg then
    match get (default [] (accounts cfg)) account_code with
    | None => Raise (KeyError account_code)
    | Some FilterTrue => Ok (as_objects meters)
    | Some (FilterCodes account_filter) =>
        filter_meters (keys meters) account_filter []
    end
  else Ok (as_objects meters).

(** [account_entity.meter_entities], and the mutations of that mapping. *)
Definition meter_entities_of (ae : nat) (h : Hass) : option (dict nat) :=
  account_sensors h !! ae ≫= meter_entities.

Definition alter_meter_entities (f : dict nat -> dict nat) (ae : nat) (h : Hass)
  : Hass :=
  with_account_sensors
    (alter (fun s => set_meter_entities (f <$> meter_entities s) s) ae
       (account_sensors h)) h.

(** Lines 155-157, one removed code. *)
Definition retire_meter (ae : nat) (L : Loop) (meter_code : string) : Loop :=
  match meter_entities_of ae (hass L) ≫= (fun d => get d meter_code) with
  | Some r =>
      on_hass (alter_meter_entities (fun d => del d meter_code) ae)
        (append_task (AsyncRemove (MeterRef r))
           (on_hass (emit (CreateTask (AsyncRemove (MeterRef r)))) L))
  | None => L
  end.

(** Lines 159-170, one fetched meter. *)
Definition upsert_meter (cfg : UserCfg) (ae : nat) (L : Loop)
    (item : string * MeterObj) : Loop :=
  let (meter_code, m) := item in
  match meter_entities_of ae (hass L) ≫= (fun d => get d meter_code) with
  | None =>
      let r := length (meter_sensors (hass L)) in
      let meter_entity :=
        {| meter := m; meter_name_format := meter_name cfg;
           entity_id := None |} in
      append_task (AsyncUpdate (MeterRef r))
        (with_new_meters (set (new_meters L) meter_code r)
           (on_hass
              (fun h =>
                 alter_meter_entities (fun d => set d meter_code r) ae
                   (with_meter_sensors (meter_sensors h ++ [meter_entity]) h))
              L))
  | Some r =>
      on_hass
        (fun h =>
           emit (ScheduleUpdate (MeterRef r))
             (with_meter_sensors (alter (set_meter m) r (meter_sensors h)) h))
        L
  end.

(** Lines 148-170: the registry of the account against the fetched meters. *)
Definition diff_meters (cfg : UserCfg) (ae : nat) (meters : dict MeterObj)
    (L : Loop) : Loop :=
  let L1 :=
    match meter_entities_of ae (hass L) with
    | None =>
        on_hass
          (fun h =>
             with_account_sensors
               (alter (set_meter_entities (Some [])) ae (account_sensors h)) h)
          L
    | Some meter_entities =>
        fold_left (retire_meter ae) (keys_difference meter_entities meters) L
    end in
  fold_left (upsert_meter cfg ae) meters L1.

(** Lines 138-174: the body of the first [try], then its [except]. *)
Definition process_meters (cfg : UserCfg) (ae : nat) (account_code : string)
    (acct : Account) (L : Loop) : Result unit * Loop :=
  let L1 := on_hass (emit (ApiGetMeters account_code)) L in
  let body :=
    match get_meters acct with
    | Raise e => (Raise e, L1)
    | Ok meters =>
        match apply_meter_filter cfg account_code meters with
        | Raise e => (Raise e, L1)
        | Ok meters' => (Ok tt, diff_meters cfg ae meters' L1)
        end
    end in
  match body with
  | (Raise e, L2) =>
      if is_MosenergosbytException e
      then (Ok tt, on_hass (emit (LogError (ErrorRetrievingMeters e))) L2)
      else (Raise e, L2)
  | ok => ok
  end.

(** Lines 177-184: [true] when the loop [continue]s past the invoice. *)
Definition skip_invoice (cfg : UserCfg) (account_code : string) : bool :=
  if use_invoice_filter cfg then
    match invoices cfg with
    | Some (InvoicesBool false) => true
    | Some (InvoicesBool true) => false
    | Some (InvoicesCodes invoice_filter) =>
        negb (str_in account_code invoice_filter)
    | None => false
    end
  else false.

(** Lines 190-200: a fetched invoice is stored. *)
Definition store_invoice (cfg : UserCfg) (ae : nat) (inv : Invoice) (L : Loop)
  : Loop :=
  match account_sensors (hass L) !! ae ≫= invoice_entity with
  | None =>
      let r := length (invoice_sensors (hass L)) in
      let invoice_entity :=
        {| invoice := inv; invoice_name_format := invoice_name cfg |} in
      append_task (AsyncUpdate (InvoiceRef r))
        (with_new_invoices (set (new_invoices L) (invoice_id inv) r)
           (on_hass
              (fun h =>
                 with_account_sensors
                   (alter (set_invoice_entity (Some r)) ae (account_sensors h))
                   (with_invoice_sensors
                      (invoice_sensors h ++ [invoice_entity]) h))
              L))
  | Some r =>
      match invoice_sensors (hass L) !! r with
      | Some s =>
          if String.eqb (invoice_id (invoice s)) (invoice_id inv) then L
          else
            on_hass
              (fun h =>
                 emit (ScheduleUpdate (AccountRef ae))
                   (with_invoice_sensors
                      (alter (set_invoice inv) r (invoice_sensors h)) h))
              L
      | None => L
      end
  end.

(** Lines 176-202: the invoice of the account. *)
Definition process_invoice (cfg : UserCfg) (ae : nat) (account_code : string)
    (acct : Account) (L : Loop) : Result unit * Loop :=
  if skip_invoice cfg account_code then (Ok tt, L)
  else
    let L1 := on_hass (emit (ApiGetLastInvoice account_code)) L in
    match get_last_invoice acct with
    | Ok (Some inv) => (Ok tt, store_invoice cfg ae inv L1)
    | Ok None => (Ok tt, L1)
    | Raise e =>
        if is_MosenergosbytException e
        then (Ok tt, on_hass (emit (LogError (ErrorFetchingInvoices e))) L1)
        else (Raise e, L1)
    end.

(** Lines 129-136: the account sensor is found or created; the result is
    the sensor. *)
Definition account_entity_for (cfg : UserCfg) (created_entities : dict nat)
    (account_code : string) (acct : Account) (L : Loop) : nat * Loop :=
  match get created_entities account_code with
  | None =>
      let r := length (account_sensors (hass L)) in
      let account_entity :=
        {| account := acct; account_name_format := account_name cfg;
           meter_entities := None; invoice_entity := None |} in
      (r, append_task (AsyncUpdate (AccountRef r))
            (with_new_accounts (set (new_accounts L) account_code r)
               (on_hass
                  (fun h =>
                     with_account_sensors
                       (account_sensors h ++ [account_entity]) h)
                  L)))
  | Some r =>
      (r, on_hass
            (fun h =>
               emit (ScheduleUpdate (AccountRef r))
                 (with_account_sensors
                    (alter (set_account acct) r (account_sensors h)) h))
            L)
  end.

(** Lines 127-202: one iteration of the loop over the accounts. *)
Definition process_account (cfg : UserCfg) (created_entities : dict nat)
    (L : Loop) (item : string * Account) : Result unit * Loop :=
  let (account_code, acct) := item in
  let (ae, L1) := account_entity_for cfg created_entities account_code acct L in
  match process_meters cfg ae account_code acct L1 with
  | (Raise e, L2) => (Raise e, L2)
  | (Ok _, L2) => process_invoice cfg ae account_code acct L2
  end.

(** Line 126: the loop; an exception leaves it. *)
Fixpoint for_accounts (cfg : UserCfg) (created_entities : dict nat)
    (items : dict Account) (L : Loop) : Result unit * Loop :=
  match items with
  | [] => (Ok tt, L)
  | item :: rest =>
      match process_account cfg created_entities L item with
      | (Raise e, L') => (Raise e, L')
      | (Ok _, L') => for_accounts cfg created_entities rest L'
      end
  end.

Definition is_empty {A} (l : list A) : bool :=
  match l with [] => true | _ => false end.

(** Lines 204-223: the barrier, the three batches, the merge, the counts. *)
Definition finish_update (entry_id : string) (created_entities : dict nat)
    (L : Loop) : UpdaterResult * Hass :=
  let h := hass L in
  let h1 := if is_empty (tasks L) then h else emit (Wait (tasks L)) h in
  let h2 :=
    if is_empty (new_accounts L) then h1
    else emit (AddEntities (AccountRef <$> values (new_accounts L))) h1 in
  let h3 :=
    if is_empty (new_meters L) then h2
    else emit (AddEntities (MeterRef <$> values (new_meters L))) h2 in
  let h4 :=
    if is_empty (new_invoices L) then h3
    else emit (AddEntities (InvoiceRef <$> values (new_invoices L))) h3 in
  let h5 :=
    with_data_entities
      (set (data_entities h4) entry_id
         (update created_entities (new_accounts L))) h4 in
  (UpdaterCounts (length (new_accounts L)) (length (new_meters L))
     (length (new_invoices L)), h5).

(** Lines 116-119: the registry of the entry, created on first use. *)
Definition created_entities_for (entry_id : string) (h : Hass)
  : dict nat * Hass :=
  match get (data_entities h) entry_id with
  | Some d => (d, h)
  | None => ([], with_data_entities (set (data_entities h) entry_id []) h)
  end.

(** Lines 116-223: the fetched accounts are reconciled with the registry. *)
Definition reconcile_accounts (entry_id : string) (cfg : UserCfg)
    (accts : dict Account) (h : Hass) : Result UpdaterResult * Hass :=
  let (created_entities, h1) := created_entities_for entry_id h in
  let L0 :=
    {| hass := h1; new_accounts := []; new_meters := [];
       new_invoices := []; tasks := [] |} in
  match for_accounts cfg created_entities accts L0 with
  | (Raise e, L) => (Raise e, hass L)
  | (Ok _, L) =>
      let (res, h') := finish_update entry_id created_entities L in
      (Ok res, h')
  end.

(** [_entity_updater(hass, entry_id, user_cfg, async_add_entities, now)];
    [utcnow] is what [datetime.utcnow()] answers. *)
Definition _entity_updater (entry_id : string) (cfg : UserCfg) (utcnow : Z)
    (h : Hass) : Result UpdaterResult * Hass :=
  match get (data_api_objects h) entry_id with
  | None => (Ok UpdaterFalse, h)
  | Some api =>
      match ensure_session cfg utcnow api h with
      | (Raise e, h1) =>
          if is_MosenergosbytException e
          then (Ok UpdaterFalse, emit (LogError (AuthenticationError e)) h1)
          else (Raise e, h1)
      | (Ok _, h1) =>
          let h2 := emit ApiGetAccounts h1 in
          match get_accounts api with
          | Raise e =>
              if is_MosenergosbytException e
              then (Ok UpdaterFalse,
                    emit (LogError (ErrorFetchingAccounts e)) h2)
              else (Raise e, h2)
          | Ok accts => reconcile_accounts entry_id cfg accts h2
          end
      end
  end.

(** ** The services *)

Definition ATTR_ENTITY_ID : string := "entity_id".
Definition ATTR_METER_CODE : string := "meter_code".
Definition SERVICE_PUSH_INDICATIONS : string := "push_indications".
Definition SERVICE_CALCULATE_INDICATIONS : string := "calculate_indications".

(** The schema accepts exactly one of the two identifiers. *)
Inductive MeterIdent : Type :=
| ByEntityId (v : string)
| ByMeterCode (v : string).

(** [call.data] after validation, with the indications given as a
    sequence. *)
Record ServiceCall : Type := {
  attr_ident : MeterIdent;
  attr_indications : list Z;
  attr_ignore_period : bool;
  attr_incremental : bool;
  attr_notification : Notification;
}.

(** The truth value of what a sensor holds in [meter]. *)
Definition meter_truthy (m : MeterObj) : bool :=
  match m with
  | MeterV _ => true
  | StrV s => negb (String.eqb s "")
  end.

Definition option_string_eqb (a b : option string) : bool :=
  match a, b with
  | Some x, Some y => String.eqb x y
  | None, None => true
  | _, _ => false
  end.

(** [meter.meter and meter.entity_id == entity_id] *)
Definition _check_entity_id (id : string) (s : MESMeterSensor) : Result bool :=
  if meter_truthy (meter s)
  then Ok (option_string_eqb (entity_id s) (Some id))
  else Ok false.

(** [meter.meter and meter.meter.meter_code == meter_code] *)
Definition _check_meter_code (code : string) (s : MESMeterSensor) : Result bool :=
  if meter_truthy (meter s) then
    match meter s with
    | MeterV m => Ok (String.eqb (meter_code m) code)
    | StrV _ => Raise (AttributeError "meter_code")
    end
  else Ok false.

Definition checker_of (ident : MeterIdent) : MESMeterSensor -> Result bool :=
  match ident with
  | ByEntityId v => _check_entity_id v
  | ByMeterCode v => _check_meter_code v
  end.

Definition attr_of (ident : MeterIdent) : string :=
  match ident with
  | ByEntityId _ => ATTR_ENTITY_ID
  | ByMeterCode _ => ATTR_METER_CODE
  end.

(** Line 248, over the values of one [meter_entities]. An index that names
    no sensor object is passed over: no Python state holds one. *)
Fixpoint find_in_meters (checker : MESMeterSensor -> Result bool) (h : Hass)
    (refs : list nat) : Result (option (nat * MESMeterSensor)) :=
  match refs with
  | [] => Ok None
  | r :: rest =>
      match meter_sensors h !! r with
      | None => find_in_meters checker h rest
      | Some s =>
          match checker s with
          | Raise e => Raise e
          | Ok true => Ok (Some (r, s))
          | Ok false => find_in_meters checker h rest
          end
      end
  end.

(** Line 247, over the account sensors of one entry. Reading [.values()] of
    a [meter_entities] that is still [None] raises. *)
Fixpoint find_in_accounts (checker : MESMeterSensor -> Result bool) (h : Hass)
    (refs : list nat) : Result (option (nat * MESMeterSensor)) :=
  match refs with
  | [] => Ok None
  | r :: rest =>
      match account_sensors h !! r with
      | None => find_in_accounts checker h rest
      | Some account_sensor =>
          match meter_entities account_sensor with
          | None => Raise (AttributeError "values")
          | Some d =>
              match find_in_meters checker h (values d) with
              | Raise e => Raise e
              | Ok (Some found) => Ok (Some found)
              | Ok None => find_in_accounts checker h rest
              end
          end
      end
  end.

(** Line 246, over the entries. *)
Fixpoint find_in_entries (checker : MESMeterSensor -> Result bool) (h : Hass)
    (entries : dict (dict nat))
  : Result (option (string * (nat * MESMeterSensor))) :=
  match entries with
  | [] => Ok None
  | (entry_id, account_sensors) :: rest =>
      match find_in_accounts checker h (values account_sensors) with
      | Raise e => Raise e
      | Ok (Some found) => Ok (Some (entry_id, found))
      | Ok None => find_in_entries checker h rest
      end
  end.

(** [_find_meter_entity(call_data)]: the entry and the sensor, or the name
    of the identifying attribute and [None]. *)
Definition _find_meter_entity (ident : MeterIdent) (h : Hass)
  : Result (string * option (nat * MESMeterSensor)) :=
  match find_in_entries (checker_of ident) h (data_entities h) with
  | Raise e => Raise e
  | Ok (Some (entry_id, found)) => Ok (entry_id, Some found)
  | Ok None => Ok (attr_of ident, None)
  end.

(** [x or y] on optional numbers: [None] and zero are false. *)
Definition py_or (x y : option Z) : option Z :=
  match x with
  | Some v => if (v =? 0)%Z then y else x
  | None => y
  end.

(** [zip(a, l, s)] *)
Fixpoint zip3 {A B C} (a : list A) (l : list B) (s : list C)
  : list (A * B * C) :=
  match a, l, s with
  | x :: a', y :: l', z :: s' => (x, y, z) :: zip3 a' l' s'
  | _, _, _ => []
  end.

(** [a + (s or l or 0)] *)
Definition real_indication (als : Z * option Z * option Z) : Z :=
  let '(a, l, s) := als in
  (a + default 0 (py_or (py_or s l) (Some 0)))%Z.

(** [_get_real_indications(meter_sensor, call_data)] *)
Definition _get_real_indications (meter_sensor : MESMeterSensor)
    (call_data : ServiceCall) : Result (list Z) :=
  if attr_incremental call_data then
    match meter meter_sensor with
    | MeterV m =>
        Ok (real_indication <$>
              zip3 (attr_indications call_data) (last_indications m)
                (submitted_indications m))
    | StrV _ => Raise (AttributeError "last_indications")
    end
  else Ok (attr_indications call_data).

Definition notification_truthy (n : Notification) : bool :=
  match n with
  | NotifyBool b => b
  | NotifyFields fields => negb (is_empty fields)
  end.

(** Lines 304-328 and 386-408: the notification is handed to the host as a
    task; the text of its fields is not modelled. *)
Definition notify (code : string) (call : ServiceCall) (h : Hass) : Hass :=
  if notification_truthy (attr_notification call)
  then emit (CreateTask (CreateNotification code (attr_notification call))) h
  else h.

(** The two [except] clauses of a service handler. *)
Definition service_except (e : PyExn) (h : Hass) : Result unit * Hass :=
  if is_IndicationsCountException e
  then (Ok tt, emit (LogError (IndicationsError e)) h)
  else if is_MosenergosbytException e
  then (Ok tt, emit (LogError (ApiReturnedError e)) h)
  else (Raise e, h).

(** [async_push_indications(call)] *)
Definition async_push_indications (call : ServiceCall) (h : Hass)
  : Result unit * Hass :=
  match _find_meter_entity (attr_ident call) h with
  | Raise e => (Raise e, h)
  | Ok (entry_id, None) => (Ok tt, emit (LogError (NoMatchingMeter entry_id)) h)
  | Ok (entry_id, Some (_, meter_sensor)) =>
      match meter meter_sensor with
      | StrV _ => (Raise (AttributeError "meter_code"), h)
      | MeterV m =>
          match save_indications m with
          | None => (Ok tt, emit (LogError (NoPushSupport (meter_code m))) h)
          | Some save =>
              let ignore_period := attr_ignore_period call in
              match _get_real_indications meter_sensor call with
              | Raise e => (Raise e, h)
              | Ok values =>
                  let h1 :=
                    emit (ApiSaveIndications (meter_code m) values
                            ignore_period false) h in
                  match save values ignore_period false with
                  | Raise e => service_except e h1
                  | Ok comment =>
                      let h2 :=
                        emit (FirePushResult
                                {| push_entity_id := entity_id meter_sensor;
                                   push_meter_code := meter_code m;
                                   push_indications := values;
                                   push_comment := comment |}) h1 in
                      let h3 := notify (meter_code m) call h2 in
                      (Ok tt,
                       if mem entry_id (data_updaters h3)
                       then emit (CreateTask (RunUpdater entry_id)) h3
                       else h3)
                  end
              end
          end
      end
  end.

(** [async_calculate_indications(call)] *)
Definition async_calculate_indications (call : ServiceCall) (h : Hass)
  : Result unit * Hass :=
  match _find_meter_entity (attr_ident call) h with
  | Raise e => (Raise e, h)
  | Ok (entry_id, None) => (Ok tt, emit (LogError (NoMatchingMeter entry_id)) h)
  | Ok (entry_id, Some (_, meter_sensor)) =>
      match meter meter_sensor with
      | StrV _ => (Raise (AttributeError "meter_code"), h)
      | MeterV m =>
          match get_charge_indications m with
          | None =>
              (Ok tt, emit (LogError (NoCalculationSupport (meter_code m))) h)
          | Some calculate =>
              let ignore_period := attr_ignore_period call in
              match _get_real_indications meter_sensor call with
              | Raise e => (Raise e, h)
              | Ok values =>
                  let h1 :=
                    emit (ApiGetChargeIndications (meter_code m) values
                            ignore_period false) h in
                  match calculate values ignore_period false with
                  | Raise e => service_except e h1
                  | Ok calculation =>
                      let h2 :=
                        emit (FireCalculationResult
                                {| calc_entity_id := entity_id meter_sensor;
                                   calc_meter_code := meter_code m;
                                   calc_indications := values;
                                   calc_result := calculation |}) h1 in
                      (Ok tt, notify (meter_code m) call h2)
                  end
              end
          end
      end
  end.

(** [async_register_services(hass)] *)
Definition async_register_services (h : Hass) : Hass :=
  if str_in SERVICE_PUSH_INDICATIONS (services h) then h
  else
    emit (ServiceRegistered SERVICE_CALCULATE_INDICATIONS)
      (emit (ServiceRegistered SERVICE_PUSH_INDICATIONS)
         (with_services
            (SERVICE_CALCULATE_INDICATIONS :: SERVICE_PUSH_INDICATIONS
               :: services h) h)).

(** ** Setup *)

(** Lines 451-475 of [async_setup_entry]: [user_cfg] is the configuration
    the first lines of the function resolve. *)
Definition async_setup_entry (entry_id : string) (cfg : UserCfg) (utcnow : Z)
    (h : Hass) : Result bool * Hass :=
  match _entity_updater entry_id cfg utcnow h with
  | (Raise e, h') =>
      if is_MosenergosbytException e
      then (Raise (PlatformNotReady entry_id), h')
      else (Raise e, h')
  | (Ok UpdaterFalse, h') => (Ok false, h')
  | (Ok (UpdaterCounts n_accounts n_meters n_invoices), h') =>
      if Nat.eqb (n_accounts + n_meters + n_invoices) 0
      then (Ok true, emit (LogWarning NothingDiscovered) h')
      else
        let h1 := async_register_services h' in
        let h2 :=
          emit (TrackTimeInterval entry_id)
            (with_data_updaters (set (data_updaters h1) entry_id tt) h1) in
        (Ok true, h2)
  end.

(** ** The entities *)

(** What a state or an attribute of an entity can hold: [None], a string or
    a number.  Numbers are integers here, as the indications are. *)
Inductive Value : Type :=
| VNone
| VStr (s : string)
| VNum (z : Z).

Definition STATE_OK : string := "ok".
Definition STATE_LOCKED : string := "locked".
Definition STATE_UNKNOWN : string := "unknown".
Definition ATTR_ATTRIBUTION : string := "attribution".
Definition ATTRIBUTION : string := "Data provided by Mosenergosbyt".

(** The fields [MESEntity.__init__] sets; a sensor class sets [_icon] when
    it is created and the other three in [async_update]. *)
Record MESEntity : Type := {
  _icon : option string;
  _state : Value;
  _unit : option string;
  _attributes : option (dict Value);
}.

(** [MESEntity.device_state_attributes]:
    [{**(self._attributes or {}), ATTR_ATTRIBUTION: ATTRIBUTION}] *)
Definition device_state_attributes (self : MESEntity) : dict Value :=
  set (default [] (_attributes self)) ATTR_ATTRIBUTION (VStr ATTRIBUTION).

(** The service type of an account: the member [ELECTRICITY] of the
    provider's enumeration, or another member, given by its name in lower
    case. *)
Inductive ServiceType : Type :=
| ELECTRICITY
| OtherService (name_lower : string).

(** [service_type.name.lower()] *)
Definition service_type_name_lower (t : ServiceType) : string :=
  match t with
  | ELECTRICITY => "electricity"
  | OtherService name_lower => name_lower
  end.

(** [service_type == ServiceType.ELECTRICITY] *)
Definition is_electricity (t : ServiceType) : bool :=
  match t with
  | ELECTRICITY => true
  | OtherService _ => false
  end.

(** What [MESAccountSensor] reads of its account besides the account code,
    and what the three fetches of [async_update] answer.  [service_id] is
    held as [str(service_id)]. *)
Record AccountInfo : Type := {
  service_id : string;
  address : Value;
  service_type : ServiceType;
  is_locked : bool;
  lock_reason : Value;
  get_last_payment : Result (dict Value);
  get_current_balance : Result Value;
  get_remaining_days : Result Value;
}.

(** What an update of an account sensor does besides assigning its fields,
    most recent first in a trace. *)
Inductive AccountCall : Type :=
| GetLastPayment
| GetCurrentBalance
| GetRemainingDays
| LogRetrievingFailed (e : PyExn).

(** [d[k]] *)
Definition subscript {V} (d : dict V) (k : string) : Result V :=
  match get d k with
  | Some v => Ok v
  | None => Raise (KeyError k)
  end.

(** The [except MosenergosbytException] of [MESAccountSensor.async_update]:
    the failure is logged and the update returns [False]; the fields of the
    sensor are as they were. *)
Definition account_update_failed (self : MESEntity) (calls : list AccountCall)
    (e : PyExn) : Result (option bool) * MESEntity * list AccountCall :=
  if is_MosenergosbytException e
  then (Ok (Some false), self, LogRetrievingFailed e :: calls)
  else (Raise e, self, calls).

(** [MESAccountSensor.async_update]: what it returns ([None] or [False]),
    the fields of the sensor afterwards and the trace of its calls. *)
Definition MESAccountSensor_async_update (account_code : string)
    (account : AccountInfo) (self : MESEntity)
  : Result (option bool) * MESEntity * list AccountCall :=
  let attributes :=
    [("account_code", VStr account_code);
     ("address", address account);
     ("service_type", VStr (service_type_name_lower (service_type account)))] in
  if negb (is_locked account) then
    match get_last_payment account with
    | Raise e => account_update_failed self [GetLastPayment] e
    | Ok last_payment =>
        match get_current_balance account with
        | Raise e =>
            account_update_failed self [GetCurrentBalance; GetLastPayment] e
        | Ok current_balance =>
            let fetched :=
              if is_electricity (service_type account)
              then (get_remaining_days account,
                    [GetRemainingDays; GetCurrentBalance; GetLastPayment])
              else (Ok VNone, [GetCurrentBalance; GetLastPayment]) in
            match fetched with
            | (Raise e, calls) => account_update_failed self calls e
            | (Ok remaining_days, calls) =>
                match subscript last_payment "date" with
                | Raise e => (Raise e, self, calls)
                | Ok date =>
                match subscript last_payment "amount" with
                | Raise e => (Raise e, self, calls)
                | Ok amount =>
                match subscript last_payment "status" with
                | Raise e => (Raise e, self, calls)
                | Ok status =>
                    let attributes1 :=
                      update attributes
                        [("last_payment_date", date);
                         ("last_payment_amount", amount);
                         ("last_payment_status", status);
                         ("service_type",
                          VStr (service_type_name_lower (service_type account)));
                         ("status", VStr STATE_OK)] in
                    let attributes2 :=
                      match remaining_days with
                      | VNone => attributes1
                      | _ => set attributes1 "remaining_days" remaining_days
                      end in
                    (Ok None,
                     {| _icon := _icon self;
                        _state := current_balance;
                        _unit := Some "руб.";
                        _attributes := Some attributes2 |},
                     calls)
                end end end
            end
        end
    end
  else
    (Ok None,
     {| _icon := _icon self;
        _state := VStr STATE_UNKNOWN;
        _unit := None;
        _attributes :=
          Some (update attributes
                  [("status", VStr STATE_LOCKED);
                   ("reason", lock_reason account)]) |},
     []).

(** The three [unique_id] properties. *)
Definition MESAccountSensor_unique_id (account : AccountInfo) : string :=
  "ls_" ++ service_id account.

Definition MESMeterSensor_unique_id (meter_code : string) : string :=
  "meter_" ++ meter_code.

Definition MESInvoiceSensor_unique_id (account_code : string) : string :=
  "invoice_" ++ account_code.

(** The three fetches of an account update. *)
Definition account_fetch (c : AccountCall) : bool :=
  match c with
  | GetLastPayment | GetCurrentBalance | GetRemainingDays => true
  | LogRetrievingFailed _ => false
  end.

(** What [MESMeterSensor.async_update] reads of an electricity meter
    besides its last and submitted indications.  The dates are held as
    their [isoformat()] text. *)
Record ElectricityInfo : Type := {
  install_date : string;
  period_start_date : string;
  period_end_date : string;
  today_indications : list (option Z);
}.

(** [isinstance(self.meter, MESElectricityMeter)], or another meter with
    its [last_indications_dict]. *)
Inductive MeterKind : Type :=
| MESElectricityMeter (info : ElectricityInfo)
| OtherMeter (last_indications_dict : option (dict (dict Value))).

Record MeterInfo : Type := {
  meter_account_code : string;
  remaining_submit_days : Value;
  current_status : Value;
  meter_kind : MeterKind;
}.

(** The keys [Invoice.ATTRS.VALUE], [NAME], [COST] and [UNIT] of the
    provider library. *)
Record InvoiceATTRS : Type := {
  ATTRS_VALUE : string;
  ATTRS_NAME : string;
  ATTRS_COST : string;
  ATTRS_UNIT : string;
}.

Definition value_of (o : option Z) : Value :=
  match o with
  | Some z => VNum z
  | None => VNone
  end.

(** ['%d' % i] for a natural number *)
Definition decimal (i : nat) : string :=
  NilZero.string_of_uint (Nat.to_uint i).

(** [enumerate(l, start=start)] *)
Fixpoint enumerate {A} (start : nat) (l : list A) : list (nat * A) :=
  match l with
  | [] => []
  | x :: rest => (start, x) :: enumerate (S start) rest
  end.

(** [for i, value in enumerate(values, start=1):
       attributes[prefix + '%d' % i] = value] *)
Definition set_tariff_values (prefix : string) (values : list (option Z))
    (attributes : dict Value) : dict Value :=
  fold_left
    (fun acc iv => set acc (prefix ++ decimal (fst iv)) (value_of (snd iv)))
    (enumerate 1 values) attributes.

(** Lines 641-644, for one key of [last_indications_dict]. *)
Definition set_indication (ATTRS : InvoiceATTRS) (key : string)
    (indication : dict Value) (attributes : dict Value)
  : Result (dict Value) :=
  match subscript indication (ATTRS_VALUE ATTRS) with
  | Raise e => Raise e
  | Ok value =>
      let attributes1 := set attributes ("last_value_" ++ key) value in
      fold_left
        (fun acc attribute =>
           match acc with
           | Raise e => Raise e
           | Ok attrs =>
               match subscript indication attribute with
               | Raise e => Raise e
               | Ok x => Ok (set attrs ("last_" ++ attribute ++ "_" ++ key) x)
               end
           end)
        [ATTRS_NAME ATTRS; ATTRS_COST ATTRS; ATTRS_UNIT ATTRS]
        (Ok attributes1)
  end.

(** Lines 640-644. *)
Fixpoint set_indications (ATTRS : InvoiceATTRS)
    (items : dict (dict Value)) (attributes : dict Value)
  : Result (dict Value) :=
  match items with
  | [] => Ok attributes
  | (key, indication) :: rest =>
      match set_indication ATTRS key indication attributes with
      | Raise e => Raise e
      | Ok attributes1 => set_indications ATTRS rest attributes1
      end
  end.

(** [STATE_OK if meter_status is None else meter_status] *)
Definition state_of_status (meter_status : Value) : Value :=
  match meter_status with
  | VNone => VStr STATE_OK
  | _ => meter_status
  end.

(** [MESMeterSensor.async_update]: what it raises, if anything, and the
    fields of the sensor afterwards. *)
Definition MESMeterSensor_async_update (ATTRS : InvoiceATTRS)
    (meter : MeterObj) (info : MeterInfo) (self : MESEntity)
  : Result unit * MESEntity :=
  match meter with
  | StrV _ => (Raise (AttributeError "meter_code"), self)
  | MeterV m =>
      let attributes :=
        [("meter_code", VStr (meter_code m));
         ("account_code", VStr (meter_account_code info));
         ("remaining_days", remaining_submit_days info)] in
      let meter_status := current_status info in
      let filled :=
        match meter_kind info with
        | MESElectricityMeter e =>
            let attributes1 :=
              set (set (set attributes "install_date" (VStr (install_date e)))
                     "submit_period_start" (VStr (period_start_date e)))
                "submit_period_end" (VStr (period_end_date e)) in
            Ok (set_tariff_values "today_value_t" (today_indications e)
                  (set_tariff_values "submitted_value_t"
                     (submitted_indications m)
                     (set_tariff_values "last_value_t" (last_indications m)
                        attributes1)))
        | OtherMeter None => Ok attributes
        | OtherMeter (Some last_indications_dict) =>
            set_indications ATTRS last_indications_dict attributes
        end in
      match filled with
      | Raise e => (Raise e, self)
      | Ok attributes2 =>
          (Ok tt,
           {| _icon := _icon self;
              _state := state_of_status meter_status;
              _unit := _unit self;
              _attributes := Some attributes2 |})
      end
  end.

(** ** The increment of an incremental submission, in words *)



(** ** Cycle-fatal failures, in words *)

(** What establishing the session answers: nothing to do, the login, or
    the logout and login of a refresh. *)
Definition session_outcome (cfg : UserCfg) (utcnow : Z) (api : API)
  : Result unit :=
  if negb (is_logged_in api) then login api
  else if (logged_in_at api + login_timeout cfg <=? utcnow)%Z then
    match logout api with
    | Ok _ => login api
    | Raise e => Raise e
    end
  else Ok tt.

(** Session establishment fails with a provider failure. *)
Definition session_fails (cfg : UserCfg) (utcnow : Z) (api : API) : bool :=
  match session_outcome cfg utcnow api with
  | Raise e => is_MosenergosbytException e
  | Ok _ => false
  end.

(** The session is established and the fetch of the account listing fails
    with a provider failure. *)
Definition listing_fails (cfg : UserCfg) (utcnow : Z) (api : API) : bool :=
  match session_outcome cfg utcnow api with
  | Raise _ => false
  | Ok _ =>
      match get_accounts api with
      | Raise e => is_MosenergosbytException e
      | Ok _ => false
      end
  end.

(** Processing the account raises nothing but provider failures: the
    allow-list step of lines 142-146 succeeds on the fetched meters. *)
Definition quiet (cfg : UserCfg) (item : string * Account) : bool :=
  let (account_code, acct) := item in
  match get_meters acct with
  | Raise e => is_MosenergosbytException e
  | Ok meters =>
      match apply_meter_filter cfg account_code meters with
      | Ok _ => true
      | Raise _ => false
      end
  end
  && match get_last_invoice acct with
     | Raise e => skip_invoice cfg account_code || is_MosenergosbytException e
     | Ok _ => true
     end.

(** The events of session establishment and of the listing fetch. *)
Definition session_event (e : Event) : bool :=
  match e with
  | ApiLogin | ApiLogout | ApiGetAccounts
  | LogError (AuthenticationError _) | LogError (ErrorFetchingAccounts _) => true
  | _ => false
  end.

(** What a processed account leaves in the event list: its meter fetch, the
    log entry of a failed meter fetch and, unless the invoice allow-list
    passes the account over, its invoice fetch and the log entry of a
    failed invoice fetch. *)
Definition account_traces (cfg : UserCfg) (item : string * Account)
    (evs : list Event) : Prop :=
  In (ApiGetMeters (fst item)) evs
  /\ (forall e, get_meters (snd item) = Raise e ->
                In (LogError (ErrorRetrievingMeters e)) evs)
  /\ (skip_invoice cfg (fst item) = false ->
      In (ApiGetLastInvoice (fst item)) evs
      /\ forall e, get_last_invoice (snd item) = Raise e ->
                   In (LogError (ErrorFetchingInvoices e)) evs).

(** The parts of the host no step of the loop touches, and the event list,
    which only grows. *)
Definition frame (h h' : Hass) : Prop :=
  data_api_objects h' = data_api_objects h
  /\ data_entities h' = data_entities h
  /\ data_updaters h' = data_updaters h
  /\ services h' = services h
  /\ (forall e, In e (events h) -> In e (events h')).

(** The tasks that retire a sensor. *)
Definition is_remove (t : Task) : bool :=
  match t with AsyncRemove _ => true | _ => false end.

(** ** Idempotence, in words *)

(** The account of the listing is settled in the registry [created] of the
    entry: it has a sensor there; if its meters are fetched and pass the
    allow-list, the sensor's meter map holds exactly their codes; if its
    invoice is tracked and fetched, the sensor holds an invoice sensor. *)
Definition settled (cfg : UserCfg) (created : dict nat) (h : Hass)
    (item : string * Account) : Prop :=
  exists r s,
    get created (fst item) = Some r
    /\ account_sensors h !! r = Some s
    /\ (forall meters meters',
          get_meters (snd item) = Ok meters ->
          apply_meter_filter cfg (fst item) meters = Ok meters' ->
          exists d, meter_entities s = Some d
                    /\ forall k, mem k d = mem k meters')
    /\ (skip_invoice cfg (fst item) = false ->
        forall inv, get_last_invoice (snd item) = Ok (Some inv) ->
                    exists i, invoice_entity s = Some i).



(** A step that works on the account sensor [ae] alone: every other
    account sensor is as it was, none is created, and the mapping of new
    account sensors is as it was. *)
Definition touches_only (ae : nat) (L L' : Loop) : Prop :=
  length (account_sensors (hass L')) = length (account_sensors (hass L))
  /\ new_accounts L' = new_accounts L
  /\ forall r, r <> ae ->
       account_sensors (hass L') !! r = account_sensors (hass L) !! r.

(** The registry of the entry inside a cycle: [created] as it was when the
    cycle began, and the account sensors the cycle has created so far.  All
    of them are distinct objects of the store, and the new ones belong to
    accounts of [seen] that had no sensor. *)
Definition registry_wf (created : dict nat) (seen : dict Account) (L : Loop)
  : Prop :=
  List.NoDup (values created)
  /\ (forall r, In r (values created) ->
                r < length (account_sensors (hass L)))
  /\ List.NoDup (keys (new_accounts L))
  /\ List.NoDup (values (new_accounts L))
  /\ (forall r, In r (values (new_accounts L)) ->
                r < length (account_sensors (hass L))
                /\ ~ In r (values created))
  /\ (forall k, In k (keys (new_accounts L)) ->
                get created k = None /\ In k (keys seen)).

(** The host with another table of API objects: what the provider answers
    may differ from one cycle to the next. *)
Definition with_data_api_objects (d : dict API) (h : Hass) : Hass :=
  {| data_api_objects := d;
     data_entities := data_entities h;
     data_updaters := data_updaters h;
     services := services h;
     account_sensors := account_sensors h;
     meter_sensors := meter_sensors h;
     invoice_sensors := invoice_sensors h;
     events := events h |}.

(** ** Meter resolution, in words *)

(** Every registered account sensor has its meter map, and the identifier
    matches none of the registered meter sensors. *)
Definition unmatched (ident : MeterIdent) (h : Hass) : Prop :=
  forall entry_id registry code r s,
    In (entry_id, registry) (data_entities h) ->
    In (code, r) registry ->
    account_sensors h !! r = Some s ->
    exists d,
      meter_entities s = Some d
      /\ forall mr ms,
           In mr (values d) -> meter_sensors h !! mr = Some ms ->
           checker_of ident ms = Ok false.

(** ** The trace of a cycle, in words *)

(** [l'] is [l] with events put in front of it, each of them accepted by
    [P]. *)
Inductive grows (P : Event -> bool) (l : list Event) : list Event -> Prop :=
| grows_refl : grows P l l
| grows_cons e l' : P e = true -> grows P l l' -> grows P l (e :: l').

(** The calls that open or close a session. *)
Definition session_call (e : Event) : bool :=
  match e with
  | ApiLogin | ApiLogout => true
  | _ => false
  end.

(** What the bookkeeping of the loop can leave in the event list: the
    forced state update of an account or meter sensor and the removal of a
    meter sensor. *)
Definition registry_event (e : Event) : bool :=
  match e with
  | ScheduleUpdate (AccountRef _) | ScheduleUpdate (MeterRef _)
  | CreateTask (AsyncRemove (MeterRef _)) => true
  | _ => false
  end.

(** What processing the account [account_code] (lines 127-202) can leave:
    bookkeeping, the meter fetch of the account, its invoice fetch unless
    the invoice allow-list passes the account over, and the log entries of
    their failures. *)
Definition account_event (cfg : UserCfg) (account_code : string) (e : Event)
  : bool :=
  registry_event e
  || match e with
     | ApiGetMeters code => String.eqb code account_code
     | ApiGetLastInvoice code =>
         String.eqb code account_code && negb (skip_invoice cfg code)
     | LogError (ErrorRetrievingMeters _)
     | LogError (ErrorFetchingInvoices _) => true
     | _ => false
     end.

(** What the loop over the accounts with the codes [codes] can leave. *)
Definition listed_event (cfg : UserCfg) (codes : list string) (e : Event)
  : bool :=
  existsb (fun code => account_event cfg code e) codes.

(** What the loop over the accounts (lines 126-202) can leave in the event
    list, whatever the listing: the two fetches of an account and the log
    entries of their failures, the forced state update of an account or
    meter sensor, and the removal of a meter sensor. *)
Definition loop_event (e : Event) : bool :=
  match e with
  | ApiGetMeters _ | ApiGetLastInvoice _
  | LogError (ErrorRetrievingMeters _) | LogError (ErrorFetchingInvoices _)
  | ScheduleUpdate (AccountRef _) | ScheduleUpdate (MeterRef _)
  | CreateTask (AsyncRemove (MeterRef _)) => true
  | _ => false
  end.

(** What the end of a cycle (lines 204-214) can leave: the barrier and the
    batches of new sensors. *)
Definition finish_event (e : Event) : bool :=
  match e with
  | Wait _ | AddEntities _ => true
  | _ => false
  end.

(** The sensor object named by [ref] is in the store of [h'] and was not
    in the store of [h]. *)
Definition created_between (h h' : Hass) (ref : EntityRef) : Prop :=
  match ref with
  | AccountRef r =>
      length (account_sensors h) <= r < length (account_sensors h')
  | MeterRef r =>
      length (meter_sensors h) <= r < length (meter_sensors h')
  | InvoiceRef r =>
      length (invoice_sensors h) <= r < length (invoice_sensors h')
  end.

(** One kind of sensor over a stretch of the loop: the store does not
    shrink, the mapping of new sensors gains at most as many entries as
    the store gains objects, and every sensor the mapping gains is an
    object the store gained. *)
Definition allocates (len len' : nat) (d d' : dict nat) : Prop :=
  len <= len'
  /\ length d' + len <= length d + len'
  /\ forall v, In v (values d') -> In v (values d) \/ len <= v < len'.

Definition advances (L L' : Loop) : Prop :=
  allocates (length (account_sensors (hass L)))
    (length (account_sensors (hass L'))) (new_accounts L) (new_accounts L')
  /\ allocates (length (meter_sensors (hass L)))
       (length (meter_sensors (hass L'))) (new_meters L) (new_meters L')
  /\ allocates (length (invoice_sensors (hass L)))
       (length (invoice_sensors (hass L'))) (new_invoices L) (new_invoices L').

(** What the end of a cycle puts in front of the event list (lines
    204-214), most recent first: the batches of new invoice, meter and
    account sensors handed to the host, and the barrier on the tasks. *)
Definition batches (L : Loop) : list Event :=
  ((if is_empty (new_invoices L) then []
    else [AddEntities (InvoiceRef <$> values (new_invoices L))])
   ++ (if is_empty (new_meters L) then []
       else [AddEntities (MeterRef <$> values (new_meters L))])
   ++ (if is_empty (new_accounts L) then []
       else [AddEntities (AccountRef <$> values (new_accounts L))])
   ++ (if is_empty (tasks L) then [] else [Wait (tasks L)]))%list.

(** The account of the listing has a sensor in the registry, and the
    sensor holds the account as fetched. *)
Definition refreshed_in (registry : dict nat) (h : Hass)
    (item : string * Account) : Prop :=
  exists r s,
    get registry (fst item) = Some r
    /\ account_sensors h !! r = Some s
    /\ account s = snd item.

(** Over a stretch of the loop no task is dropped, and every sensor the
    mappings of new sensors gain has its first update among the tasks. *)
Definition announces (L L' : Loop) : Prop :=
  (forall t, In t (tasks L) -> In t (tasks L'))
  /\ (forall v, In v (values (new_accounts L')) ->
        In v (values (new_accounts L))
        \/ In (AsyncUpdate (AccountRef v)) (tasks L'))
  /\ (forall v, In v (values (new_meters L')) ->
        In v (values (new_meters L))
        \/ In (AsyncUpdate (MeterRef v)) (tasks L'))
  /\ (forall v, In v (values (new_invoices L')) ->
        In v (values (new_invoices L))
        \/ In (AsyncUpdate (InvoiceRef v)) (tasks L')).

(** The batches of new sensors at the end of a cycle, most recent first. *)
Definition added_batches (L : Loop) : list Event :=
  ((if is_empty (new_invoices L) then []
    else [AddEntities (InvoiceRef <$> values (new_invoices L))])
   ++ (if is_empty (new_meters L) then []
       else [AddEntities (MeterRef <$> values (new_meters L))])
   ++ (if is_empty (new_accounts L) then []
       else [AddEntities (AccountRef <$> values (new_accounts L))]))%list.

(** A step of the loop that leaves the meter sensors alone: the store of
    meter sensors, the mapping of new meter sensors and the meter map of
    every account sensor are as they were, and no removal is requested. *)
Definition keeps_meters (L L' : Loop) : Prop :=
  meter_sensors (hass L') = meter_sensors (hass L)
  /\ new_meters L' = new_meters L
  /\ (forall r s, account_sensors (hass L) !! r = Some s ->
        exists s', account_sensors (hass L') !! r = Some s'
                   /\ meter_entities s' = meter_entities s)
  /\ (forall t, In t (tasks L') -> is_remove t = true -> In t (tasks L)).

(** ** Meter resolution and the handlers, in words *)

(** The meter sensor [s], object [r] of the store, is registered under the
    entry [entry_id]: it is in the meter map of an account sensor of the
    registry of that entry. *)
Definition registered_meter (h : Hass) (entry_id : string) (r : nat)
    (s : MESMeterSensor) : Prop :=
  exists registry account_code ar account_sensor d,
    In (entry_id, registry) (data_entities h)
    /\ In (account_code, ar) registry
    /\ account_sensors h !! ar = Some account_sensor
    /\ meter_entities account_sensor = Some d
    /\ In r (values d)
    /\ meter_sensors h !! r = Some s.

(** The identifier of a call names the meter sensor: the sensor holds a
    meter and has the entity id, or holds the meter with the code. *)
Definition identified_by (ident : MeterIdent) (s : MESMeterSensor) : Prop :=
  match ident with
  | ByEntityId id => meter_truthy (meter s) = true /\ entity_id s = Some id
  | ByMeterCode code => exists m, meter s = MeterV m /\ meter_code m = code
  end.

(** A handler leaves everything but the event list as it is. *)
Definition only_events (h h' : Hass) : Prop :=
  data_api_objects h' = data_api_objects h
  /\ data_entities h' = data_entities h
  /\ data_updaters h' = data_updaters h
  /\ services h' = services h
  /\ account_sensors h' = account_sensors h
  /\ meter_sensors h' = meter_sensors h
  /\ invoice_sensors h' = invoice_sensors h.

(** The push of [call] on the host [h] is accepted by the provider and
    [ev] is its result: the identifier resolves to a meter sensor of the
    entry [entry_id] whose meter can save indications, and saving the
    effective indications answers the comment. *)
Definition push_accepted (call : ServiceCall) (h : Hass) (entry_id : string)
    (ev : PushEvent) : Prop :=
  exists r ms m save,
    _find_meter_entity (attr_ident call) h = Ok (entry_id, Some (r, ms))
    /\ meter ms = MeterV m
    /\ save_indications m = Some save
    /\ _get_real_indications ms call = Ok (push_indications ev)
    /\ save (push_indications ev) (attr_ignore_period call) false
       = Ok (push_comment ev)
    /\ push_entity_id ev = entity_id ms
    /\ push_meter_code ev = meter_code m.

(** The calculation of [call] on the host [h] is answered by the provider
    and [ev] is its result. *)
Definition calculation_answered (call : ServiceCall) (h : Hass)
    (ev : CalculationEvent) : Prop :=
  exists entry_id r ms m calculate,
    _find_meter_entity (attr_ident call) h = Ok (entry_id, Some (r, ms))
    /\ meter ms = MeterV m
    /\ get_charge_indications m = Some calculate
    /\ _get_real_indications ms call = Ok (calc_indications ev)
    /\ calculate (calc_indications ev) (attr_ignore_period call) false
       = Ok (calc_result ev)
    /\ calc_entity_id ev = entity_id ms
    /\ calc_meter_code ev = meter_code m.

(** The calls of a handler to the provider. *)
Definition provider_call (e : Event) : bool :=
  match e with
  | ApiSaveIndications _ _ _ _ | ApiGetChargeIndications _ _ _ _ => true
  | _ => false
  end.

(** What the calculation handler can leave in the event list. *)
Definition calculation_event (e : Event) : bool :=
  match e with
  | LogError (NoMatchingMeter _) | LogError (NoCalculationSupport _)
  | LogError (IndicationsError _) | LogError (ApiReturnedError _)
  | ApiGetChargeIndications _ _ _ _
  | FireCalculationResult _
  | CreateTask (CreateNotification _ _) => true
  | _ => false
  end.

(** What the push handler can leave in the event list. *)
Definition push_event (e : Event) : bool :=
  match e with
  | LogError (NoMatchingMeter _) | LogError (NoPushSupport _)
  | LogError (IndicationsError _) | LogError (ApiReturnedError _)
  | ApiSaveIndications _ _ _ _
  | FirePushResult _
  | CreateTask (CreateNotification _ _) | CreateTask (RunUpdater _) => true
  | _ => false
  end.

(** ** Sample data *)

Module Sample.

Definition cfg : UserCfg :=
  {| username := "user"; login_timeout := 3600;
     accounts := None; invoices := None;
     meter_name := None; account_name := None; invoice_name := None |}.

(** [accounts: {A1: codes}] *)
Definition cfg_codes (codes : list string) : UserCfg :=
  {| username := "user"; login_timeout := 3600;
     accounts := Some [("A1", FilterCodes codes)]; invoices := None;
     meter_name := None; account_name := None; invoice_name := None |}.

(** [accounts: {A1: true}] *)
Definition cfg_all_meters : UserCfg :=
  {| username := "user"; login_timeout := 3600;
     accounts := Some [("A1", FilterTrue)]; invoices := None;
     meter_name := None; account_name := None; invoice_name := None |}.

(** [accounts: {A1: true, A2: [12345]}] *)
Definition cfg_second_codes : UserCfg :=
  {| username := "user"; login_timeout := 3600;
     accounts := Some [("A1", FilterTrue); ("A2", FilterCodes ["12345"])];
     invoices := None;
     meter_name := None; account_name := None; invoice_name := None |}.

(** [invoices: false] *)
Definition cfg_no_invoices : UserCfg :=
  {| username := "user"; login_timeout := 3600;
     accounts := None; invoices := Some (InvoicesBool false);
     meter_name := None; account_name := None; invoice_name := None |}.

(** [invoices: [A2]] *)
Definition cfg_invoices_A2 : UserCfg :=
  {| username := "user"; login_timeout := 3600;
     accounts := None; invoices := Some (InvoicesCodes ["A2"]);
     meter_name := None; account_name := None; invoice_name := None |}.

Definition electricity (code : string) (last submitted : list (option Z))
  : Meter :=
  {| meter_code := code;
     last_indications := last;
     submitted_indications := submitted;
     save_indications := Some (fun _ _ _ => Ok "accepted");
     get_charge_indications := None |}.

Definition sensor_of (m : Meter) : MESMeterSensor :=
  {| meter := MeterV m; meter_name_format := None; entity_id := None |}.

Definition call (ident : MeterIdent) (values : list Z) (incremental : bool)
  : ServiceCall :=
  {| attr_ident := ident; attr_indications := values;
     attr_ignore_period := false; attr_incremental := incremental;
     attr_notification := NotifyBool false |}.

Definition meterA := electricity "A" [Some 10%Z] [None].
Definition meterB := electricity "B" [Some 20%Z] [None].
Definition meterB' := electricity "B" [Some 25%Z] [None].
Definition meterC := electricity "C" [Some 30%Z] [None].
Definition meter12345 := electricity "12345" [Some 7%Z] [None].

Definition invoice1 : Invoice := {| invoice_id := "inv-1"; total := 1500 |}.

Definition provider_down : PyExn := MosenergosbytException "unavailable".

(** An account whose meter fetch fails and whose invoice fetch works. *)
Definition account_meters_down (code : string) : Account :=
  {| account_code := code;
     get_meters := Raise provider_down;
     get_last_invoice := Ok (Some invoice1) |}.

Definition account_with (code : string) (meters : dict Meter)
    (inv : option Invoice) : Account :=
  {| account_code := code;
     get_meters := Ok meters;
     get_last_invoice := Ok inv |}.

Definition api_with (listing : Result (dict Account)) : API :=
  {| is_logged_in := false; logged_in_at := 0;
     login := Ok tt; logout := Ok tt; get_accounts := listing |}.

Definition empty_hass : Hass :=
  {| data_api_objects := []; data_entities := []; data_updaters := [];
     services := []; account_sensors := []; meter_sensors := [];
     invoice_sensors := []; events := [] |}.

Definition hass_with_api (api : API) : Hass :=
  {| data_api_objects := [("entry", api)]; data_entities := [];
     data_updaters := []; services := []; account_sensors := [];
     meter_sensors := []; invoice_sensors := []; events := [] |}.

(** The sensor of account [A1], with sensors for the meters A and B. *)
Definition sensor_A1 : MESAccountSensor :=
  {| account := account_with "A1" [("A", meterA); ("B", meterB)] None;
     account_name_format := None;
     meter_entities := Some [("A", 0); ("B", 1)];
     invoice_entity := None |}.

Definition hass_AB : Hass :=
  {| data_api_objects := [];
     data_entities := [("entry", [("A1", 0)])];
     data_updaters := [];
     services := [];
     account_sensors := [sensor_A1];
     meter_sensors := [sensor_of meterA; sensor_of meterB];
     invoice_sensors := []; events := [] |}.

(** Account A1 when its fetch returns the meters B and C. *)
Definition account_A1_BC : Account :=
  account_with "A1" [("B", meterB'); ("C", meterC)] None.

(** A fetch that returns the meters B and C. *)
Definition fetched_BC : dict MeterObj :=
  as_objects [("B", meterB'); ("C", meterC)].

(** The meter fetch of A1 fails; A2 has the meter B. *)
Definition listing_A1_down : dict Account :=
  [("A1", account_meters_down "A1");
   ("A2", account_with "A2" [("B", meterB)] None)].

Definition hass_A1_down : Hass := hass_with_api (api_with (Ok listing_A1_down)).

(** Account A1 with the meter B and an invoice, on a fresh host. *)
Definition listing_B_invoice : dict Account :=
  [("A1", account_with "A1" [("B", meterB)] (Some invoice1))].

Definition hass_B_invoice : Hass :=
  hass_with_api (api_with (Ok listing_B_invoice)).

(** The host after setup when the only account, A1, has its meter fetch
    fail: the account sensor is registered, so are the services. *)
Definition hass_after_failed_fetch : Hass :=
  snd (async_setup_entry "entry" cfg 0
         (hass_with_api (api_with (Ok [("A1", account_meters_down "A1")])))).

Definition loop_of (h : Hass) : Loop :=
  {| hass := h; new_accounts := []; new_meters := []; new_invoices := [];
     tasks := [] |}.

End Sample.

(** ** Sample entities *)

Module SampleEntities.

Definition payment : dict Value :=
  [("date", VStr "2020-05-01"); ("amount", VNum 1200);
   ("status", VStr "accepted")].

(** An electricity account that is not locked. *)
Definition electricity_account : AccountInfo :=
  {| service_id := "77";
     address := VStr "Moscow";
     service_type := ELECTRICITY;
     is_locked := false;
     lock_reason := VNone;
     get_last_payment := Ok payment;
     get_current_balance := Ok (VNum 350);
     get_remaining_days := Ok (VNum 5) |}.

(** The same account when the fetch of the balance fails. *)
Definition balance_down : AccountInfo :=
  {| service_id := "77";
     address := VStr "Moscow";
     service_type := ELECTRICITY;
     is_locked := false;
     lock_reason := VNone;
     get_last_payment := Ok payment;
     get_current_balance := Raise (MosenergosbytException "unavailable");
     get_remaining_days := Ok (VNum 5) |}.

(** A sensor after [__init__]. *)
Definition created (icon : string) : MESEntity :=
  {| _icon := Some icon; _state := VNone; _unit := None;
     _attributes := None |}.

(** A sensor that has been updated before. *)
Definition shown : MESEntity :=
  {| _icon := Some "mdi:flash-circle"; _state := VNum 100;
     _unit := Some "руб.";
     _attributes := Some [("status", VStr STATE_OK)] |}.

Definition attrs : InvoiceATTRS :=
  {| ATTRS_VALUE := "value"; ATTRS_NAME := "name"; ATTRS_COST := "cost";
     ATTRS_UNIT := "unit" |}.

(** A meter with two tariffs. *)
Definition two_tariffs : Meter :=
  {| meter_code := "M1";
     last_indications := [Some 100%Z; Some 50%Z];
     submitted_indications := [Some 120%Z; None];
     save_indications := None;
     get_charge_indications := None |}.

Definition electricity_info : ElectricityInfo :=
  {| install_date := "2015-01-01";
     period_start_date := "2020-05-15";
     period_end_date := "2020-05-26";
     today_indications := [] |}.

Definition two_tariffs_info : MeterInfo :=
  {| meter_account_code := "A1";
     remaining_submit_days := VNum 3;
     current_status := VNone;
     meter_kind := MESElectricityMeter electricity_info |}.

End SampleEntities.

(** * Properties *)

Import Sample.

(** ** Dictionaries *)

Section DictFacts.
Context {V : Type}.
Implicit Types (d : dict V) (k : string) (v : V).

Lemma get_set_eq d k v : get (set d k v) k = Some v.
Proof.
  induction d as [|[k' v'] d IH]; simpl.
  - now rewrite String.eqb_refl.
  - destruct (String.eqb k' k) eqn:E; simpl; now rewrite E.
Qed.

Lemma get_set_ne d k k' v : k <> k' -> get (set d k v) k' = get d k'.
Proof.
  intros Hne. induction d as [|[k0 v0] d IH]; simpl.
  - destruct (String.eqb_spec k k'); congruence.
  - destruct (String.eqb_spec k0 k) as [->|]; simpl.
    + destruct (String.eqb_spec k k'); congruence.
    + now rewrite IH.
Qed.

Lemma get_del_eq d k : get (del d k) k = None.
Proof.
  induction d as [|[k' v'] d IH]; simpl; [done|].
  destruct (String.eqb k' k) eqn:E; simpl; [done|]. now rewrite E.
Qed.

Lemma get_del_ne d k k' : k <> k' -> get (del d k) k' = get d k'.
Proof.
  intros Hne. induction d as [|[k0 v0] d IH]; simpl; [done|].
  destruct (String.eqb_spec k0 k) as [->|]; simpl.
  - destruct (String.eqb_spec k k'); congruence.
  - now rewrite IH.
Qed.

Lemma get_Some_In d k v : get d k = Some v -> In (k, v) d.
Proof.
  induction d as [|[k' v'] d IH]; simpl; [done|].
  destruct (String.eqb_spec k' k) as [->|]; intros H.
  - left. congruence.
  - right. auto.
Qed.

Lemma get_None_keys d k : get d k = None <-> ~ In k (keys d).
Proof.
  induction d as [|[k' v'] d IH]; simpl.
  - tauto.
  - destruct (String.eqb_spec k' k) as [->|]; split; intros H.
    + discriminate.
    + exfalso. apply H. now left.
    + intros [?|?]; [congruence|]. now apply IH.
    + apply IH. tauto.
Qed.

Lemma mem_keys d k : mem k d = true <-> In k (keys d).
Proof.
  unfold mem. destruct (get d k) eqn:E.
  - split; [intros _|done].
    apply get_Some_In in E. apply (in_map fst) in E. exact E.
  - split; [done|]. intros H. now apply get_None_keys in E.
Qed.

Lemma get_In_NoDup d k v : NoDup (keys d) -> In (k, v) d -> get d k = Some v.
Proof.
  induction d as [|[k' v'] d IH]; simpl; [done|].
  intros Hnd [Heq|Hin].
  - inversion Heq; subst. now rewrite String.eqb_refl.
  - apply NoDup_cons in Hnd as [Hk Hd].
    destruct (String.eqb_spec k' k) as [->|].
    + exfalso. apply Hk. apply list_elem_of_In.
      apply (in_map fst) in Hin. exact Hin.
    + auto.
Qed.

End DictFacts.

Lemma str_in_In x l : str_in x l = true <-> In x l.
Proof.
  unfold str_in. rewrite existsb_exists. split.
  - intros (y & Hin & Heq). apply String.eqb_eq in Heq. now subst.
  - intros Hin. exists x. split; [done|]. apply String.eqb_refl.
Qed.

(** ** Effective indications *)


Lemma zip3_length {A B C} (a : list A) (l : list B) (s : list C) :
  length (zip3 a l s) = Nat.min (length a) (Nat.min (length l) (length s)).
Proof.
  revert l s. induction a as [|x a IH]; intros l s; simpl; [done|].
  destruct l as [|y l]; simpl; [done|].
  destruct s as [|z s]; simpl; [done|].
  now rewrite IH.
Qed.

Lemma zip3_take {A B C} (a : list A) (l : list B) (s : list C) :
  zip3 (take (length (zip3 a l s)) a) l s = zip3 a l s.
Proof.
  revert l s. induction a as [|x a IH]; intros l s; simpl; [done|].
  destruct l as [|y l]; simpl; [done|].
  destruct s as [|z s]; simpl; [done|].
  now rewrite IH.
Qed.




(** The two worked examples of the specification. *)
Example incremental_delta :
  _get_real_indications
    (sensor_of (electricity "M1" [Some 100%Z; Some 50%Z] [None; None]))
    (call (ByMeterCode "M1") [5%Z; 3%Z] false) = Ok [5%Z; 3%Z]
  /\ _get_real_indications
    (sensor_of (electricity "M1" [Some 100%Z; Some 50%Z] [None; None]))
    (call (ByMeterCode "M1") [5%Z; 3%Z] true) = Ok [105%Z; 53%Z].
Proof. split; reflexivity. Qed.

Example submitted_precedence :
  _get_real_indications (sensor_of (electricity "M1" [Some 100%Z] [Some 120%Z]))
    (call (ByMeterCode "M1") [2%Z] true) = Ok [122%Z].
Proof. reflexivity. Qed.

(** C9.  An incremental call on a provider meter yields as many values as
    the shortest of the three sequences has; the raw values beyond that
    are dropped: the call answers as it does for the raw values cut to
    that length, and raises nothing. *)
Theorem incremental_length_is_minimum (m : Meter) (nf eid : option string)
    (ident : MeterIdent) (raw_values : list Z) (ignore_period : bool)
    (notification : Notification) :
  let sensor :=
    {| meter := MeterV m; meter_name_format := nf; entity_id := eid |} in
  let call_with := fun values =>
    {| attr_ident := ident; attr_indications := values;
       attr_ignore_period := ignore_period; attr_incremental := true;
       attr_notification := notification |} in
  exists values,
    _get_real_indications sensor (call_with raw_values) = Ok values
    /\ length values =
       Nat.min (length raw_values)
         (Nat.min (length (last_indications m))
            (length (submitted_indications m)))
    /\ _get_real_indications sensor (call_with (take (length values) raw_values))
       = Ok values.
Proof.
  simpl. unfold _get_real_indications; simpl.
  eexists; split; [reflexivity|]. split.
  - now rewrite length_fmap, zip3_length.
  - rewrite length_fmap. now rewrite zip3_take.
Qed.

(** ** The allow-lists *)

(** With [true] for the account, or with no allow-list at all, every
    fetched meter is considered. *)
Lemma filter_true_keeps_all (cfg : UserCfg) (account_code : string)
    (meters : dict Meter) :
  use_meter_filter cfg = false
  \/ get (default [] (accounts cfg)) account_code = Some FilterTrue ->
  apply_meter_filter cfg account_code meters = Ok (as_objects meters).
Proof.
  unfold apply_meter_filter. intros [->|H]; [done|].
  rewrite H. now destruct (use_meter_filter cfg).
Qed.

(** A code that is not two characters long stops the comprehension. *)
Lemma filter_meters_long_code (key : string) (rest account_filter : list string)
    (acc : dict MeterObj) :
  (2 < String.length key)%nat ->
  exists msg, filter_meters (key :: rest) account_filter acc
              = Raise (ValueError msg).
Proof.
  intros Hlen. destruct key as [|a [|b [|c key]]]; simpl in Hlen; try lia.
  simpl. eauto.
Qed.

(** C4, at the failing input.  The allow-list of account A1 is the explicit
    list [[12345]] and the fetch returns the meter 12345: the meter set for
    the diff should be [{12345: meter}], and the comprehension raises
    [ValueError], which leaves the whole cycle.  With the two-character
    code M1 allowed, the fetched meter M1 is lost: the set is empty. *)
Theorem meter_filter_iterates_keys :
  apply_meter_filter (cfg_codes ["12345"]) "A1" [("12345", meter12345)]
  = Raise (ValueError "too many values to unpack")
  /\ fst (_entity_updater "entry" (cfg_codes ["12345"]) 0
            (hass_with_api
               (api_with
                  (Ok [("A1", account_with "A1" [("12345", meter12345)] None)]))))
     = Raise (ValueError "too many values to unpack")
  /\ apply_meter_filter (cfg_codes ["M1"]) "A1"
       [("M1", electricity "M1" [] [])] = Ok []
  /\ apply_meter_filter cfg_all_meters "A1" [("12345", meter12345)]
     = Ok [("12345", MeterV meter12345)].
Proof. repeat split; reflexivity. Qed.

(** The gate of line 177 is closed by an explicit [false], so the test of
    line 180 is never reached with it. *)
Lemma explicit_false_is_not_skipped (cfg : UserCfg) (account_code : string) :
  invoices cfg = Some (InvoicesBool false) ->
  skip_invoice cfg account_code = false.
Proof. intros H. unfold skip_invoice, use_invoice_filter. now rewrite H. Qed.

(** C5, at the failing input.  With [invoices: false] and one account that
    has an invoice, the invoice is fetched and an invoice sensor is
    created and handed to the host. *)
Theorem explicit_false_still_fetches_invoice :
  let run :=
    _entity_updater "entry" cfg_no_invoices 0
      (hass_with_api
         (api_with (Ok [("A1", account_with "A1" [] (Some invoice1))]))) in
  fst run = Ok (UpdaterCounts 1 0 1)
  /\ events (snd run)
     = [AddEntities [InvoiceRef 0]; AddEntities [AccountRef 0];
        Wait [AsyncUpdate (InvoiceRef 0); AsyncUpdate (AccountRef 0)];
        ApiGetLastInvoice "A1"; ApiGetMeters "A1"; ApiGetAccounts; ApiLogin]
  /\ invoice_sensors (snd run)
     = [{| invoice := invoice1; invoice_name_format := None |}].
Proof. repeat split; reflexivity. Qed.

(** ** Meter resolution *)

(** When the scan ends without a match, nothing is submitted or fired: the
    failure is logged and the handler returns. *)
Lemma push_without_match (call : ServiceCall) (h : Hass) (attr : string) :
  _find_meter_entity (attr_ident call) h = Ok (attr, None) ->
  async_push_indications call h
  = (Ok tt, emit (LogError (NoMatchingMeter attr)) h)
  /\ async_calculate_indications call h
     = (Ok tt, emit (LogError (NoMatchingMeter attr)) h).
Proof.
  intros H. unfold async_push_indications, async_calculate_indications.
  now rewrite H.
Qed.

Lemma find_in_meters_none checker h refs :
  (forall mr ms, In mr refs -> meter_sensors h !! mr = Some ms ->
                 checker ms = Ok false) ->
  find_in_meters checker h refs = Ok None.
Proof.
  induction refs as [|r refs IH]; intros H; simpl; [done|].
  destruct (meter_sensors h !! r) as [s|] eqn:Hs.
  - rewrite (H r s (or_introl eq_refl) Hs). apply IH. intros; eapply H; eauto.
    now right.
  - apply IH. intros; eapply H; eauto. now right.
Qed.

Lemma find_in_accounts_none checker h refs :
  (forall r s, In r refs -> account_sensors h !! r = Some s ->
     exists d,
       meter_entities s = Some d
       /\ forall mr ms, In mr (values d) -> meter_sensors h !! mr = Some ms ->
                        checker ms = Ok false) ->
  find_in_accounts checker h refs = Ok None.
Proof.
  induction refs as [|r refs IH]; intros H; simpl; [done|].
  assert (find_in_accounts checker h refs = Ok None) as Hrest.
  { apply IH. intros r' s' Hin. apply H. now right. }
  destruct (account_sensors h !! r) as [s|] eqn:Hs; [|done].
  destruct (H r s (or_introl eq_refl) Hs) as (d & -> & Hd).
  now rewrite (find_in_meters_none checker h (values d) Hd).
Qed.

Lemma find_in_entries_none checker h entries :
  (forall entry_id registry code r s,
     In (entry_id, registry) entries -> In (code, r) registry ->
     account_sensors h !! r = Some s ->
     exists d,
       meter_entities s = Some d
       /\ forall mr ms, In mr (values d) -> meter_sensors h !! mr = Some ms ->
                        checker ms = Ok false) ->
  find_in_entries checker h entries = Ok None.
Proof.
  induction entries as [|[entry_id registry] entries IH]; intros H; simpl; [done|].
  rewrite find_in_accounts_none.
  - apply IH. intros e reg code r s Hin. apply (H e reg code r s). now right.
  - intros r s Hin Hs. apply in_map_iff in Hin as ([code r'] & <- & Hin).
    apply (H entry_id registry code r' s); auto. now left.
Qed.

(** On a host whose account sensors all have their meter map, an
    identifier that matches no meter sensor ends both handlers with the
    meter-not-found error: nothing is submitted, calculated or fired. *)
Lemma unmatched_identifier_is_not_found (call : ServiceCall) (h : Hass) :
  unmatched (attr_ident call) h ->
  async_push_indications call h
  = (Ok tt, emit (LogError (NoMatchingMeter (attr_of (attr_ident call)))) h)
  /\ async_calculate_indications call h
     = (Ok tt, emit (LogError (NoMatchingMeter (attr_of (attr_ident call)))) h).
Proof.
  intros H. apply push_without_match. unfold _find_meter_entity.
  now rewrite (find_in_entries_none _ h (data_entities h) H).
Qed.

(** When the scan raises, the handlers end with that exception and leave
    the host as it is. *)
Lemma scan_failure_leaves_host (call : ServiceCall) (h : Hass) (e : PyExn) :
  _find_meter_entity (attr_ident call) h = Raise e ->
  async_push_indications call h = (Raise e, h)
  /\ async_calculate_indications call h = (Raise e, h).
Proof.
  intros H. unfold async_push_indications, async_calculate_indications.
  now rewrite H.
Qed.

(** C8, at the failing input.  Setup has run with one account, A1, whose
    meter fetch failed: its sensor is registered with [meter_entities]
    still [None], and the services are registered.  A push or a calculation
    for the unknown meter code M1 should end with the meter-not-found
    error, and the scan raises [AttributeError] instead.  Nothing is
    submitted, fired or logged.  On a host with no account sensor the same
    call does end with the meter-not-found error. *)
Theorem unset_meter_map_breaks_resolution :
  services hass_after_failed_fetch
  = [SERVICE_CALCULATE_INDICATIONS; SERVICE_PUSH_INDICATIONS]
  /\ data_entities hass_after_failed_fetch = [("entry", [("A1", 0)])]
  /\ meter_entities <$> account_sensors hass_after_failed_fetch = [None]
  /\ async_push_indications (call (ByMeterCode "M1") [1%Z] false)
       hass_after_failed_fetch
     = (Raise (AttributeError "values"), hass_after_failed_fetch)
  /\ async_calculate_indications (call (ByMeterCode "M1") [1%Z] false)
       hass_after_failed_fetch
     = (Raise (AttributeError "values"), hass_after_failed_fetch)
  /\ async_push_indications (call (ByMeterCode "M1") [1%Z] false) empty_hass
     = (Ok tt, emit (LogError (NoMatchingMeter ATTR_METER_CODE)) empty_hass).
Proof. repeat split; reflexivity. Qed.

(** ** Cycle-fatal failures *)

(** C7, as stated, fails: when no API object is registered for the entry
    the cycle returns the failed result although no session was being
    established and no listing was being fetched (no call is made, nothing
    is logged). *)
Lemma missing_api_returns_false :
  _entity_updater "entry" cfg 0 empty_hass = (Ok UpdaterFalse, empty_hass)
  /\ get (data_api_objects empty_hass) "entry" = None
  /\ events empty_hass = [].
Proof. repeat split; reflexivity. Qed.

(** C6, as stated, fails twice.  With [invoices: [A2]] the meter fetch of
    A1 fails and the loop continues past the invoice of A1: the invoice is
    not fetched.  With the allow-list [{A1: true, A2: [12345]}] the meter
    fetch of A1 fails and is logged, and the allow-list step of the later
    account A2 raises [ValueError]: the cycle returns no counts. *)
Lemma failed_fetch_then_no_invoice_or_no_counts :
  (let run :=
     _entity_updater "entry" cfg_invoices_A2 0
       (hass_with_api (api_with (Ok [("A1", account_meters_down "A1")]))) in
   fst run = Ok (UpdaterCounts 1 0 0)
   /\ events (snd run)
      = [AddEntities [AccountRef 0]; Wait [AsyncUpdate (AccountRef 0)];
         LogError (ErrorRetrievingMeters provider_down);
         ApiGetMeters "A1"; ApiGetAccounts; ApiLogin])
  /\ (let run :=
        _entity_updater "entry" cfg_second_codes 0
          (hass_with_api
             (api_with
                (Ok [("A1", account_meters_down "A1");
                     ("A2", account_with "A2" [("12345", meter12345)] None)])))
      in
      fst run = Raise (ValueError "too many values to unpack")
      /\ events (snd run)
         = [ApiGetMeters "A2"; ApiGetLastInvoice "A1";
            LogError (ErrorRetrievingMeters provider_down);
            ApiGetMeters "A1"; ApiGetAccounts; ApiLogin]).
Proof. repeat split; reflexivity. Qed.

(** ** Frames and outcomes of the loop *)

Lemma fold_left_preorder {A B} (R : A -> A -> Prop) (f : A -> B -> A)
    (l : list B) (a : A) :
  (forall x, R x x) -> (forall x y z, R x y -> R y z -> R x z) ->
  (forall x b, R x (f x b)) -> R a (fold_left f l a).
Proof.
  intros Hrefl Htrans Hstep. revert a.
  induction l as [|b l IH]; intros a; simpl; [apply Hrefl|].
  eapply Htrans; [apply Hstep|apply IH].
Qed.


Lemma frame_refl h : frame h h.
Proof. unfold frame; auto. Qed.

Lemma frame_trans h1 h2 h3 : frame h1 h2 -> frame h2 h3 -> frame h1 h3.
Proof.
  unfold frame. intros (?&?&?&?&?) (?&?&?&?&?).
  repeat split; try congruence. auto.
Qed.

Ltac frame_solve :=
  unfold frame; simpl; repeat split; auto; intros; simpl; auto.

Lemma frame_retire ae L code : frame (hass L) (hass (retire_meter ae L code)).
Proof. unfold retire_meter. case_match; [|apply frame_refl]. frame_solve. Qed.

Lemma frame_upsert cfg ae L item : frame (hass L) (hass (upsert_meter cfg ae L item)).
Proof. unfold upsert_meter. destruct item. case_match; frame_solve. Qed.

Lemma frame_diff cfg ae meters L : frame (hass L) (hass (diff_meters cfg ae meters L)).
Proof.
  unfold diff_meters.
  eapply frame_trans;
    [|apply (fold_left_preorder (fun a b => frame (hass a) (hass b)));
      eauto using frame_refl, frame_trans, frame_upsert].
  case_match; [|frame_solve].
  apply (fold_left_preorder (fun a b => frame (hass a) (hass b)));
    eauto using frame_refl, frame_trans, frame_retire.
Qed.

Lemma frame_process_meters cfg ae code acct L :
  frame (hass L) (hass (snd (process_meters cfg ae code acct L))).
Proof.
  unfold process_meters.
  destruct (get_meters acct) as [meters|e].
  - destruct (apply_meter_filter cfg code meters) as [meters'|e]; simpl.
    + eapply frame_trans; [|apply frame_diff]. frame_solve.
    + destruct (is_MosenergosbytException e); frame_solve.
  - destruct (is_MosenergosbytException e); frame_solve.
Qed.

Lemma frame_store_invoice cfg ae inv L :
  frame (hass L) (hass (store_invoice cfg ae inv L)).
Proof.
  unfold store_invoice. repeat case_match; try apply frame_refl; frame_solve.
Qed.

Lemma frame_process_invoice cfg ae code acct L :
  frame (hass L) (hass (snd (process_invoice cfg ae code acct L))).
Proof.
  unfold process_invoice. repeat case_match; simpl; try apply frame_refl;
    try (eapply frame_trans; [|apply frame_store_invoice]); frame_solve.
Qed.

Lemma frame_account_entity cfg created code acct L :
  frame (hass L) (hass (snd (account_entity_for cfg created code acct L))).
Proof. unfold account_entity_for. case_match; frame_solve. Qed.

Lemma frame_process_account cfg created L item :
  frame (hass L) (hass (snd (process_account cfg created L item))).
Proof.
  unfold process_account. destruct item as [code acct].
  pose proof (frame_account_entity cfg created code acct L) as H1.
  destruct (account_entity_for cfg created code acct L) as [ae L1]; simpl in H1.
  pose proof (frame_process_meters cfg ae code acct L1) as H2.
  destruct (process_meters cfg ae code acct L1) as [[[]|e] L2]; simpl in H2.
  - eapply frame_trans; [|apply frame_process_invoice].
    eapply frame_trans; eauto.
  - simpl. eapply frame_trans; eauto.
Qed.

Lemma frame_for_accounts cfg created items L :
  frame (hass L) (hass (snd (for_accounts cfg created items L))).
Proof.
  revert L. induction items as [|item items IH]; intros L; simpl.
  - apply frame_refl.
  - pose proof (frame_process_account cfg created L item) as H1.
    destruct (process_account cfg created L item) as [[[]|e] L1]; simpl in *.
    + eapply frame_trans; eauto.
    + exact H1.
Qed.

Lemma frame_finish entry created L :
  data_api_objects (snd (finish_update entry created L)) = data_api_objects (hass L)
  /\ data_updaters (snd (finish_update entry created L)) = data_updaters (hass L)
  /\ services (snd (finish_update entry created L)) = services (hass L)
  /\ account_sensors (snd (finish_update entry created L)) = account_sensors (hass L)
  /\ meter_sensors (snd (finish_update entry created L)) = meter_sensors (hass L)
  /\ invoice_sensors (snd (finish_update entry created L)) = invoice_sensors (hass L)
  /\ (forall e, In e (events (hass L)) ->
                In e (events (snd (finish_update entry created L)))).
Proof.
  unfold finish_update; simpl.
  destruct (is_empty (tasks L)), (is_empty (new_accounts L)),
    (is_empty (new_meters L)), (is_empty (new_invoices L)); simpl;
    repeat split; auto.
Qed.

Lemma ensure_session_outcome cfg utcnow api h :
  fst (ensure_session cfg utcnow api h) = session_outcome cfg utcnow api.
Proof.
  unfold ensure_session, session_outcome.
  repeat case_match; simpl; congruence.
Qed.

Lemma frame_ensure_session cfg utcnow api h :
  let h' := snd (ensure_session cfg utcnow api h) in
  frame h h' /\ account_sensors h' = account_sensors h
  /\ meter_sensors h' = meter_sensors h /\ invoice_sensors h' = invoice_sensors h.
Proof.
  unfold ensure_session. repeat case_match; simpl; frame_solve.
Qed.

(** the outcome of one account does not depend on the state *)
Lemma process_meters_outcome cfg ae code acct L :
  fst (process_meters cfg ae code acct L) =
  match get_meters acct with
  | Raise e => if is_MosenergosbytException e then Ok tt else Raise e
  | Ok meters =>
      match apply_meter_filter cfg code meters with
      | Raise e => if is_MosenergosbytException e then Ok tt else Raise e
      | Ok _ => Ok tt
      end
  end.
Proof.
  unfold process_meters. repeat case_match; simpl in *; congruence.
Qed.

Lemma process_invoice_outcome cfg ae code acct L :
  fst (process_invoice cfg ae code acct L) =
  if skip_invoice cfg code then Ok tt
  else match get_last_invoice acct with
       | Raise e => if is_MosenergosbytException e then Ok tt else Raise e
       | Ok _ => Ok tt
       end.
Proof.
  unfold process_invoice. repeat case_match; simpl in *; congruence.
Qed.



Lemma process_account_quiet cfg created L item :
  quiet cfg item = true -> fst (process_account cfg created L item) = Ok tt.
Proof.
  unfold process_account, quiet. destruct item as [code acct].
  intros [Hm Hi]%andb_prop.
  destruct (account_entity_for cfg created code acct L) as [ae L1].
  pose proof (process_meters_outcome cfg ae code acct L1) as H1.
  destruct (process_meters cfg ae code acct L1) as [r L2]. simpl in H1.
  assert (r = Ok tt) as ->.
  { rewrite H1. destruct (get_meters acct) as [meters|e]; [|now rewrite Hm].
    now destruct (apply_meter_filter cfg code meters). }
  rewrite process_invoice_outcome.
  destruct (skip_invoice cfg code); [done|].
  destruct (get_last_invoice acct) as [|e]; [done|]. simpl in Hi. now rewrite Hi.
Qed.

Lemma for_accounts_quiet cfg created items L :
  forallb (quiet cfg) items = true ->
  fst (for_accounts cfg created items L) = Ok tt.
Proof.
  revert L. induction items as [|item items IH]; intros L; simpl; [done|].
  intros [Hq Hrest]%andb_prop.
  pose proof (process_account_quiet cfg created L item Hq) as H.
  destruct (process_account cfg created L item) as [r L1]. simpl in H. subst r.
  now apply IH.
Qed.

Lemma for_accounts_no_provider_failure cfg created items L e :
  fst (for_accounts cfg created items L) = Raise e ->
  is_MosenergosbytException e = false.
Proof.
  revert L. induction items as [|item items IH]; intros L; simpl; [done|].
  destruct item as [code acct]. unfold process_account at 1.
  destruct (account_entity_for cfg created code acct L) as [ae L1].
  pose proof (process_meters_outcome cfg ae code acct L1) as H1.
  destruct (process_meters cfg ae code acct L1) as [r L2]. simpl in H1.
  destruct r as [[]|e'].
  - pose proof (process_invoice_outcome cfg ae code acct L2) as H2.
    destruct (process_invoice cfg ae code acct L2) as [r L3]. simpl in H2.
    destruct r as [[]|e']; [apply IH|]. simpl. intros [= <-].
    repeat case_match; congruence.
  - simpl. intros [= <-]. repeat case_match; congruence.
Qed.

Lemma process_meters_events cfg ae code acct L L2 :
  process_meters cfg ae code acct L = (Ok tt, L2) ->
  In (ApiGetMeters code) (events (hass L2))
  /\ forall e, get_meters acct = Raise e ->
               In (LogError (ErrorRetrievingMeters e)) (events (hass L2)).
Proof.
  unfold process_meters.
  destruct (get_meters acct) as [meters|e].
  - destruct (apply_meter_filter cfg code meters) as [meters'|e]; simpl.
    + intros [= <-]. split; [|done].
      apply (frame_diff cfg ae meters'). simpl. now left.
    + destruct (is_MosenergosbytException e); [|done].
      intros [= <-]. simpl. split; [auto|done].
  - destruct (is_MosenergosbytException e); [|done].
    intros [= <-]. simpl. split; [auto|]. intros e' [= <-]. now left.
Qed.

Lemma process_invoice_events cfg ae code acct L L3 :
  process_invoice cfg ae code acct L = (Ok tt, L3) ->
  skip_invoice cfg code = false ->
  In (ApiGetLastInvoice code) (events (hass L3))
  /\ forall e, get_last_invoice acct = Raise e ->
               In (LogError (ErrorFetchingInvoices e)) (events (hass L3)).
Proof.
  unfold process_invoice. intros H Hskip. rewrite Hskip in H.
  destruct (get_last_invoice acct) as [[inv|]|e].
  - injection H as <-. split; [|done].
    apply (frame_store_invoice cfg ae inv). simpl. now left.
  - injection H as <-. simpl. split; [auto|done].
  - destruct (is_MosenergosbytException e); [|done].
    injection H as <-. simpl. split; [auto|]. intros e' [= <-]. now left.
Qed.


Lemma account_traces_mono cfg item evs evs' :
  (forall e, In e evs -> In e evs') ->
  account_traces cfg item evs -> account_traces cfg item evs'.
Proof.
  unfold account_traces. intros Hsub (H1 & H2 & H3).
  split; [auto|]. split; [auto|]. intros Hskip.
  destruct (H3 Hskip) as [H4 H5]. auto.
Qed.

Lemma process_account_traces cfg created L item L' :
  process_account cfg created L item = (Ok tt, L') ->
  account_traces cfg item (events (hass L')).
Proof.
  unfold process_account. destruct item as [code acct].
  destruct (account_entity_for cfg created code acct L) as [ae L1].
  destruct (process_meters cfg ae code acct L1) as [[[]|e] L2] eqn:Hm; [|done].
  intros Hi. apply process_meters_events in Hm as [Hm1 Hm2].
  pose proof (frame_process_invoice cfg ae code acct L2) as Hf.
  rewrite Hi in Hf. destruct Hf as (_ & _ & _ & _ & Hsub).
  unfold account_traces; simpl. split; [auto|]. split; [auto|].
  intros Hskip. now apply (process_invoice_events cfg ae code acct L2).
Qed.

Lemma for_accounts_traces cfg created items L L' :
  for_accounts cfg created items L = (Ok tt, L') ->
  forall item, In item items -> account_traces cfg item (events (hass L')).
Proof.
  revert L. induction items as [|item items IH]; intros L; simpl; [done|].
  destruct (process_account cfg created L item) as [[[]|e] L1] eqn:Hp; [|done].
  intros Hrest it [<-|Hin].
  - apply process_account_traces in Hp.
    pose proof (frame_for_accounts cfg created items L1) as Hf.
    rewrite Hrest in Hf. destruct Hf as (_ & _ & _ & _ & Hsub).
    eapply account_traces_mono; eauto.
  - eapply IH; eauto.
Qed.


Lemma ensure_session_events cfg utcnow api h :
  exists new, events (snd (ensure_session cfg utcnow api h)) = (new ++ events h)%list
              /\ forallb session_event new = true.
Proof.
  unfold ensure_session. repeat case_match; simpl.
  - now exists [ApiLogin].
  - now exists [ApiLogin; ApiLogout].
  - now exists [ApiLogout].
  - now exists [].
Qed.


(** ** The cycle as a whole *)

Lemma frame_created_entities entry h :
  let h1 := snd (created_entities_for entry h) in
  data_api_objects h1 = data_api_objects h
  /\ data_updaters h1 = data_updaters h
  /\ services h1 = services h
  /\ account_sensors h1 = account_sensors h
  /\ meter_sensors h1 = meter_sensors h
  /\ invoice_sensors h1 = invoice_sensors h
  /\ events h1 = events h.
Proof. unfold created_entities_for. case_match; simpl; repeat split. Qed.

Lemma finish_update_counts entry created L :
  fst (finish_update entry created L)
  = UpdaterCounts (length (new_accounts L)) (length (new_meters L))
      (length (new_invoices L)).
Proof. reflexivity. Qed.

Opaque finish_update.

(** The reconciliation never returns the failed result, lets no provider
    failure out, and leaves the host registrations alone. *)
Lemma reconcile_accounts_frame entry cfg accts h :
  let r := reconcile_accounts entry cfg accts h in
  data_api_objects (snd r) = data_api_objects h
  /\ data_updaters (snd r) = data_updaters h
  /\ services (snd r) = services h
  /\ (forall e, In e (events h) -> In e (events (snd r)))
  /\ match fst r with
     | Ok UpdaterFalse => False
     | Ok (UpdaterCounts _ _ _) =>
         forall item, In item accts -> account_traces cfg item (events (snd r))
     | Raise e => is_MosenergosbytException e = false
     end.
Proof.
  unfold reconcile_accounts.
  pose proof (frame_created_entities entry h) as (Ha & Hu & Hs & _ & _ & _ & He).
  destruct (created_entities_for entry h) as [created h1]. simpl in *.
  set (L0 := {| hass := h1; new_accounts := []; new_meters := [];
                new_invoices := []; tasks := [] |}).
  pose proof (frame_for_accounts cfg created accts L0) as (Fa & _ & Fu & Fs & Fe).
  pose proof (for_accounts_no_provider_failure cfg created accts L0) as Hnp.
  pose proof (for_accounts_traces cfg created accts L0) as Htr.
  destruct (for_accounts cfg created accts L0) as [[[]|e] L]; simpl in *.
  - pose proof (frame_finish entry created L) as (Ga & Gu & Gs & _ & _ & _ & Ge).
    destruct (finish_update entry created L) as [res h'] eqn:Hfin. simpl in *.
    repeat split; try congruence.
    + intros ev Hev. apply Ge, Fe. now rewrite He.
    + assert (res = fst (finish_update entry created L)) as -> by now rewrite Hfin.
      rewrite finish_update_counts. intros item Hin.
      eapply account_traces_mono; [exact Ge|]. now apply (Htr L).
  - repeat split; try congruence.
    + intros ev Hev. apply Fe. now rewrite He.
    + now apply Hnp.
Qed.

Transparent finish_update.

(** C7, as amended.  The cycle returns the failed result exactly when no
    API object is registered for the entry, or establishing the session
    fails, or the fetch of the account listing fails.  It then has touched
    no sensor and no registry and has made no call but those of the
    session and the listing.  No provider failure leaves the cycle: an
    exception that does is of another class, and in a cycle that returns
    its counts every failed meter or invoice fetch is in the log. *)
Theorem cycle_fails_exactly_when (entry : string) (cfg : UserCfg) (utcnow : Z)
    (h : Hass) :
  let r := _entity_updater entry cfg utcnow h in
  (fst r = Ok UpdaterFalse <->
   match get (data_api_objects h) entry with
   | None => True
   | Some api =>
       session_fails cfg utcnow api = true \/ listing_fails cfg utcnow api = true
   end)
  /\ match fst r with
     | Ok UpdaterFalse =>
         data_entities (snd r) = data_entities h
         /\ account_sensors (snd r) = account_sensors h
         /\ meter_sensors (snd r) = meter_sensors h
         /\ invoice_sensors (snd r) = invoice_sensors h
         /\ exists new, events (snd r) = (new ++ events h)%list
                        /\ forallb session_event new = true
     | Ok (UpdaterCounts _ _ _) =>
         forall api accts item,
           get (data_api_objects h) entry = Some api ->
           get_accounts api = Ok accts ->
           In item accts ->
           account_traces cfg item (events (snd r))
     | Raise e => is_MosenergosbytException e = false
     end.
Proof.
  unfold _entity_updater, session_fails, listing_fails.
  destruct (get (data_api_objects h) entry) as [api|]; simpl.
  2:{ split; [tauto|]. repeat split. now exists []. }
  pose proof (ensure_session_outcome cfg utcnow api h) as Ho.
  pose proof (frame_ensure_session cfg utcnow api h) as ((_ & Hd & _) & Has & Hms & His).
  pose proof (ensure_session_events cfg utcnow api h) as (new & Hev & Hnew).
  destruct (ensure_session cfg utcnow api h) as [res h1]. simpl in *.
  rewrite <- Ho. destruct res as [[]|e].
  - destruct (get_accounts api) as [accts|e] eqn:Hga.
    + pose proof (reconcile_accounts_frame entry cfg accts (emit ApiGetAccounts h1))
        as (_ & _ & _ & _ & Hr).
      destruct (reconcile_accounts entry cfg accts (emit ApiGetAccounts h1))
        as [[[|na nm ni]|e] h']; simpl in *.
      * done.
      * split; [split; [done|intros [|]; done]|].
        intros api' accts' item [= <-] Hga'. rewrite Hga in Hga'.
        injection Hga' as <-. apply Hr.
      * split; [split; [done|intros [|]; done]|]. exact Hr.
    + destruct (is_MosenergosbytException e) eqn:E; simpl.
      * split; [tauto|]. repeat split; try congruence.
        exists (LogError (ErrorFetchingAccounts e) :: ApiGetAccounts :: new).
        simpl. now rewrite Hev.
      * split; [split; [done|intros [|]; done]|]. exact E.
  - destruct (is_MosenergosbytException e) eqn:E; simpl.
    + split; [tauto|]. repeat split; try congruence.
      exists (LogError (AuthenticationError e) :: new). simpl. now rewrite Hev.
    + split; [split; [done|intros [|]; done]|]. exact E.
Qed.

(** C6, as amended.  In a cycle that reaches the loop and in which
    processing an account raises nothing but provider failures (the
    allow-list step of no account raises), let the meter fetch of account
    [X] fail.  The failure is logged; the invoice of [X] is fetched unless
    the invoice allow-list passes [X] over; every later account has its
    meters fetched, and its invoice under the same proviso; and the cycle
    returns its counts. *)
Theorem failed_meter_fetch_is_isolated (entry : string) (cfg : UserCfg)
    (utcnow : Z) (h : Hass) (api : API) (before after : dict Account)
    (X : string) (acct : Account) (e : PyExn) :
  get (data_api_objects h) entry = Some api ->
  session_outcome cfg utcnow api = Ok tt ->
  get_accounts api = Ok (before ++ (X, acct) :: after)%list ->
  forallb (quiet cfg) (before ++ (X, acct) :: after)%list = true ->
  get_meters acct = Raise e ->
  (exists n_accounts n_meters n_invoices,
     fst (_entity_updater entry cfg utcnow h)
     = Ok (UpdaterCounts n_accounts n_meters n_invoices))
  /\ In (LogError (ErrorRetrievingMeters e))
       (events (snd (_entity_updater entry cfg utcnow h)))
  /\ (if skip_invoice cfg X then True
      else In (ApiGetLastInvoice X)
             (events (snd (_entity_updater entry cfg utcnow h))))
  /\ forall Y acctY,
       In (Y, acctY) after ->
       In (ApiGetMeters Y) (events (snd (_entity_updater entry cfg utcnow h)))
       /\ (if skip_invoice cfg Y then True
           else In (ApiGetLastInvoice Y)
                  (events (snd (_entity_updater entry cfg utcnow h)))).
Proof.
  intros Hapi Hs Hl Hq Hm.
  set (accts := (before ++ (X, acct) :: after)%list) in *.
  set (h2 := emit ApiGetAccounts (snd (ensure_session cfg utcnow api h))).
  assert (_entity_updater entry cfg utcnow h
          = reconcile_accounts entry cfg accts h2) as ->.
  { unfold _entity_updater, h2. rewrite Hapi.
    pose proof (ensure_session_outcome cfg utcnow api h) as Ho.
    destruct (ensure_session cfg utcnow api h) as [res h1]. simpl in *.
    rewrite Hs in Ho. subst res. now rewrite Hl. }
  assert (exists na nm ni,
            fst (reconcile_accounts entry cfg accts h2)
            = Ok (UpdaterCounts na nm ni)) as (na & nm & ni & Hr).
  { unfold reconcile_accounts.
    destruct (created_entities_for entry h2) as [created h3].
    pose proof (for_accounts_quiet cfg created accts
                  {| hass := h3; new_accounts := []; new_meters := [];
                     new_invoices := []; tasks := [] |} Hq) as Hok.
    destruct (for_accounts _ _ _ _) as [res L]. simpl in Hok. subst res.
    destruct (finish_update entry created L) as [res h'] eqn:Hfin.
    pose proof (finish_update_counts entry created L) as Hc.
    rewrite Hfin in Hc. simpl in *. rewrite Hc. eauto. }
  pose proof (reconcile_accounts_frame entry cfg accts h2) as (_ & _ & _ & _ & Ht).
  rewrite Hr in Ht.
  split; [eauto|].
  assert (In (X, acct) accts) as HX.
  { apply in_or_app. right. now left. }
  destruct (Ht _ HX) as (_ & Hlog & Hinv). simpl in *.
  split; [now apply Hlog|]. split.
  - destruct (skip_invoice cfg X); [done|]. now apply Hinv.
  - intros Y acctY HY.
    assert (In (Y, acctY) accts) as HY'.
    { apply in_or_app. right. now right. }
    destruct (Ht _ HY') as (Hget & _ & HinvY). simpl in *.
    split; [done|]. destruct (skip_invoice cfg Y); [done|]. now apply HinvY.
Qed.

Lemma failed_meter_fetch_is_isolated_witness :
  forallb (quiet cfg) listing_A1_down = true
  /\ ((exists n_accounts n_meters n_invoices,
         fst (_entity_updater "entry" cfg 0 hass_A1_down)
         = Ok (UpdaterCounts n_accounts n_meters n_invoices))
      /\ In (LogError (ErrorRetrievingMeters provider_down))
           (events (snd (_entity_updater "entry" cfg 0 hass_A1_down)))
      /\ (if skip_invoice cfg "A1" then True
          else In (ApiGetLastInvoice "A1")
                 (events (snd (_entity_updater "entry" cfg 0 hass_A1_down))))
      /\ forall Y acctY,
           In (Y, acctY) [("A2", account_with "A2" [("B", meterB)] None)] ->
           In (ApiGetMeters Y)
             (events (snd (_entity_updater "entry" cfg 0 hass_A1_down)))
           /\ (if skip_invoice cfg Y then True
               else In (ApiGetLastInvoice Y)
                      (events (snd (_entity_updater "entry" cfg 0 hass_A1_down))))).
Proof.
  split; [vm_compute; reflexivity|].
  apply (failed_meter_fetch_is_isolated "entry" cfg 0 hass_A1_down
           (api_with (Ok listing_A1_down)) []
           [("A2", account_with "A2" [("B", meterB)] None)]
           "A1" (account_meters_down "A1") provider_down);
    vm_compute; reflexivity.
Defined.

(** ** Setup *)

Lemma updater_keeps_registrations entry cfg utcnow h :
  services (snd (_entity_updater entry cfg utcnow h)) = services h
  /\ data_updaters (snd (_entity_updater entry cfg utcnow h)) = data_updaters h.
Proof.
  unfold _entity_updater.
  destruct (get (data_api_objects h) entry) as [api|]; [|done].
  pose proof (frame_ensure_session cfg utcnow api h) as ((_ & _ & Hu & Hs & _) & _).
  destruct (ensure_session cfg utcnow api h) as [[[]|e] h1]; simpl in *.
  - destruct (get_accounts api) as [accts|e].
    + pose proof (reconcile_accounts_frame entry cfg accts (emit ApiGetAccounts h1))
        as (_ & Gu & Gs & _).
      simpl in *. split; congruence.
    + destruct (is_MosenergosbytException e); simpl; split; congruence.
  - destruct (is_MosenergosbytException e); simpl; split; congruence.
Qed.


(** C10.  When the first cycle returns the counts (0, 0, 0), setup returns
    true; after the cycle it does nothing but log a warning, and the
    registered services and the updater table, which would hold the
    periodic trigger of the entry, are as they were before setup. *)
Theorem empty_first_cycle_registers_nothing (entry : string) (cfg : UserCfg)
    (utcnow : Z) (h h' : Hass) :
  _entity_updater entry cfg utcnow h = (Ok (UpdaterCounts 0 0 0), h') ->
  async_setup_entry entry cfg utcnow h
  = (Ok true, emit (LogWarning NothingDiscovered) h')
  /\ services (snd (async_setup_entry entry cfg utcnow h)) = services h
  /\ data_updaters (snd (async_setup_entry entry cfg utcnow h))
     = data_updaters h.
Proof.
  intros H. pose proof (updater_keeps_registrations entry cfg utcnow h) as [Hs Hu].
  unfold async_setup_entry. rewrite H in *. simpl in *. auto.
Qed.

Lemma empty_first_cycle_registers_nothing_witness :
  _entity_updater "entry" Sample.cfg 0 (hass_with_api (api_with (Ok [])))
  = (Ok (UpdaterCounts 0 0 0),
     snd (_entity_updater "entry" Sample.cfg 0
            (hass_with_api (api_with (Ok [])))))
  /\ (async_setup_entry "entry" Sample.cfg 0 (hass_with_api (api_with (Ok [])))
      = (Ok true,
         emit (LogWarning NothingDiscovered)
           (snd (_entity_updater "entry" Sample.cfg 0
                   (hass_with_api (api_with (Ok []))))))
      /\ services
           (snd (async_setup_entry "entry" Sample.cfg 0
                   (hass_with_api (api_with (Ok [])))))
         = services (hass_with_api (api_with (Ok [])))
      /\ data_updaters
           (snd (async_setup_entry "entry" Sample.cfg 0
                   (hass_with_api (api_with (Ok [])))))
         = data_updaters (hass_with_api (api_with (Ok [])))).
Proof.
  split; [vm_compute; reflexivity|].
  apply (empty_first_cycle_registers_nothing "entry" Sample.cfg 0
           (hass_with_api (api_with (Ok [])))
           (snd (_entity_updater "entry" Sample.cfg 0
                   (hass_with_api (api_with (Ok []))))));
    vm_compute; reflexivity.
Defined.

(** When the first cycle finds something, both services are registered and
    the periodic trigger is installed for the entry. *)
Example first_cycle_with_entities_registers :
  fst (async_setup_entry "entry" Sample.cfg 0 hass_A1_down) = Ok true
  /\ services (snd (async_setup_entry "entry" Sample.cfg 0 hass_A1_down))
     = [SERVICE_CALCULATE_INDICATIONS; SERVICE_PUSH_INDICATIONS]
  /\ data_updaters (snd (async_setup_entry "entry" Sample.cfg 0 hass_A1_down))
     = [("entry", tt)].
Proof. repeat split; reflexivity. Qed.

(** ** The meter diff *)

Section MoreDictFacts.
Context {V : Type}.
Implicit Types (d : dict V) (k : string) (v : V).

Lemma values_set_new d k v :
  get d k = None -> values (set d k v) = (values d ++ [v])%list.
Proof.
  induction d as [|[k' v'] d IH]; simpl; [done|].
  destruct (String.eqb k' k); [done|]. intros H. simpl. now rewrite IH.
Qed.

Lemma keys_set_new d k v :
  get d k = None -> keys (set d k v) = (keys d ++ [k])%list.
Proof.
  induction d as [|[k' v'] d IH]; simpl; [done|].
  destruct (String.eqb k' k); [done|]. intros H. simpl. now rewrite IH.
Qed.


Lemma length_set_old d k v v' :
  get d k = Some v' -> length (set d k v) = length d.
Proof.
  induction d as [|[k0 v0] d IH]; simpl; [done|].
  destruct (String.eqb k0 k); [done|]. intros H. simpl. now rewrite IH.
Qed.



Lemma get_Some_values d k v : get d k = Some v -> In v (values d).
Proof.
  intros H. apply get_Some_In in H. now apply (in_map snd) in H.
Qed.

Lemma get_inj d k1 k2 v :
  List.NoDup (values d) -> get d k1 = Some v -> get d k2 = Some v -> k1 = k2.
Proof.
  induction d as [|[k' v'] d IH]; simpl; [done|].
  intros Hnd. inversion Hnd as [|? ? Hnotin Hnd']; subst.
  destruct (String.eqb_spec k' k1) as [E1|], (String.eqb_spec k' k2) as [E2|];
    intros H1 H2; auto; [congruence| |].
  - injection H1 as ->. exfalso. apply Hnotin. eapply get_Some_values; eauto.
  - injection H2 as ->. exfalso. apply Hnotin. eapply get_Some_values; eauto.
Qed.

Lemma get_fold_del d ks k :
  get (fold_left del ks d) k = if str_in k ks then None else get d k.
Proof.
  revert d. induction ks as [|k0 ks IH]; intros d; simpl; [done|].
  rewrite IH. destruct (String.eqb_spec k k0) as [->|Hne]; simpl.
  - destruct (str_in k0 ks); [done|]. apply get_del_eq.
  - destruct (str_in k ks); [done|]. apply get_del_ne. congruence.
Qed.



End MoreDictFacts.

Lemma str_in_keys_difference {V W} (a : dict V) (b : dict W) k :
  str_in k (keys_difference a b) = mem k a && negb (mem k b).
Proof.
  apply eq_true_iff_eq. rewrite str_in_In. unfold keys_difference.
  rewrite filter_In, andb_true_iff, <- mem_keys. tauto.
Qed.

(** The registry of an account sensor under the mutations of the diff. *)
Lemma meter_entities_of_alter f ae h :
  meter_entities_of ae (alter_meter_entities f ae h)
  = f <$> meter_entities_of ae h.
Proof.
  unfold meter_entities_of, alter_meter_entities. simpl.
  rewrite list_lookup_alter_eq.
  destruct (account_sensors h !! ae) as [s|]; simpl; [|done].
  now destruct (meter_entities s).
Qed.

Lemma retire_meter_some ae L code d r :
  meter_entities_of ae (hass L) = Some d -> get d code = Some r ->
  let L' := retire_meter ae L code in
  meter_entities_of ae (hass L') = Some (del d code)
  /\ meter_sensors (hass L') = meter_sensors (hass L)
  /\ new_meters L' = new_meters L
  /\ tasks L' = AsyncRemove (MeterRef r) :: tasks L
  /\ events (hass L') = CreateTask (AsyncRemove (MeterRef r)) :: events (hass L).
Proof.
  intros Hd Hr. unfold retire_meter. rewrite Hd. simpl. rewrite Hr. simpl.
  repeat split.
  change (meter_entities_of ae
            (alter_meter_entities (fun d => del d code) ae
               (emit (CreateTask (AsyncRemove (MeterRef r))) (hass L)))
          = Some (del d code)).
  rewrite meter_entities_of_alter.
  change (meter_entities_of ae (emit _ (hass L))) with (meter_entities_of ae (hass L)).
  now rewrite Hd.
Qed.

Lemma retire_meter_none ae L code d :
  meter_entities_of ae (hass L) = Some d -> get d code = None ->
  retire_meter ae L code = L.
Proof. intros Hd Hr. unfold retire_meter. rewrite Hd. simpl. now rewrite Hr. Qed.

Lemma retire_fold ae ks : forall L d,
  meter_entities_of ae (hass L) = Some d ->
  exists added,
    meter_entities_of ae (hass (fold_left (retire_meter ae) ks L))
    = Some (fold_left del ks d)
    /\ meter_sensors (hass (fold_left (retire_meter ae) ks L))
       = meter_sensors (hass L)
    /\ new_meters (fold_left (retire_meter ae) ks L) = new_meters L
    /\ tasks (fold_left (retire_meter ae) ks L) = (added ++ tasks L)%list
    /\ forallb is_remove added = true
    /\ (forall code r, In code ks -> get d code = Some r ->
          In (AsyncRemove (MeterRef r)) added
          /\ In (CreateTask (AsyncRemove (MeterRef r)))
               (events (hass (fold_left (retire_meter ae) ks L)))).
Proof.
  induction ks as [|k ks IH]; intros L d Hd; simpl.
  { exists []. split_and!; auto; done. }
  destruct (get d k) as [r|] eqn:Hk.
  - destruct (retire_meter_some ae L k d r Hd Hk) as (H1 & H2 & H3 & H4 & H5).
    destruct (IH _ _ H1) as (added & I1 & I2 & I3 & I4 & I4' & I5).
    pose proof (fold_left_preorder (fun a b => frame (hass a) (hass b))
                  (retire_meter ae) ks (retire_meter ae L k)
                  (fun x => frame_refl _)
                  (fun x y z => frame_trans _ _ _)
                  (fun x b => frame_retire ae x b)) as (_ & _ & _ & _ & Fe).
    exists (added ++ [AsyncRemove (MeterRef r)])%list.
    split_and!; try congruence.
    + rewrite I4, H4. now rewrite <- app_assoc.
    + rewrite forallb_app, I4'. done.
    + intros code r0 Hin Hr0.
      assert (code <> k -> In code ks) as Hne by (destruct Hin; congruence).
      destruct (String.eqb_spec k code) as [->|Hne'].
      * assert (r0 = r) as -> by congruence. split.
        -- apply in_or_app. right. now left.
        -- apply Fe. rewrite H5. now left.
      * destruct (I5 code r0) as [J1 J2]; [auto|now rewrite get_del_ne|].
        split; [|done]. apply in_or_app. now left.
  - rewrite (retire_meter_none ae L k d Hd Hk).
    destruct (IH _ _ Hd) as (added & I1 & I2 & I3 & I4 & I4' & I5).
    assert (del d k = d) as Hdel.
    { clear -Hk. induction d as [|[k' v'] d IH]; simpl in *; [done|].
      destruct (String.eqb k' k); [done|]. now rewrite IH. }
    rewrite Hdel. exists added. split_and!; auto.
    intros code r [<-|Hin] Hr; [congruence|]. apply (I5 code); auto.
Qed.

Lemma upsert_meter_old cfg ae L code m d r :
  meter_entities_of ae (hass L) = Some d -> get d code = Some r ->
  let L' := upsert_meter cfg ae L (code, m) in
  meter_entities_of ae (hass L') = Some d
  /\ meter_sensors (hass L') = alter (set_meter m) r (meter_sensors (hass L))
  /\ new_meters L' = new_meters L
  /\ tasks L' = tasks L
  /\ events (hass L') = ScheduleUpdate (MeterRef r) :: events (hass L)
  /\ account_sensors (hass L') = account_sensors (hass L).
Proof.
  intros Hd Hr. unfold upsert_meter. rewrite Hd. simpl. rewrite Hr. simpl.
  split_and!; try done.
Qed.

Lemma upsert_meter_new cfg ae L code m d :
  meter_entities_of ae (hass L) = Some d -> get d code = None ->
  let L' := upsert_meter cfg ae L (code, m) in
  let r := length (meter_sensors (hass L)) in
  meter_entities_of ae (hass L') = Some (set d code r)
  /\ meter_sensors (hass L')
     = (meter_sensors (hass L)
          ++ [{| meter := m; meter_name_format := meter_name cfg;
                 entity_id := None |}])%list
  /\ new_meters L' = set (new_meters L) code r
  /\ tasks L' = AsyncUpdate (MeterRef r) :: tasks L
  /\ events (hass L') = events (hass L).
Proof.
  intros Hd Hr. unfold upsert_meter. rewrite Hd. simpl. rewrite Hr. simpl.
  split_and!; try done.
  match goal with
  | |- meter_entities_of ae (alter_meter_entities ?f ae ?h) = _ =>
      rewrite (meter_entities_of_alter f ae h);
      change (meter_entities_of ae h) with (meter_entities_of ae (hass L))
  end.
  now rewrite Hd.
Qed.


Opaque upsert_meter.


Transparent upsert_meter.



Lemma get_as_objects (meters : dict Meter) k :
  get (as_objects meters) k = MeterV <$> get meters k.
Proof.
  induction meters as [|[k' m] meters IH]; simpl; [done|].
  now destruct (String.eqb k' k).
Qed.

Lemma keys_set_NoDup {V} (d : dict V) k v :
  List.NoDup (keys d) -> List.NoDup (keys (set d k v)).
Proof.
  intros Hnd. destruct (get d k) as [v'|] eqn:Hk.
  - assert (keys (set d k v) = keys d) as ->; [|done].
    clear Hnd. induction d as [|[k0 v0] d IH]; simpl in *; [done|].
    destruct (String.eqb k0 k); [done|]. simpl. now rewrite IH.
  - rewrite keys_set_new by done. apply List.NoDup_app; auto.
    + repeat constructor. simpl. tauto.
    + intros a Ha [<-|[]]. now apply get_None_keys in Hk.
Qed.





(** The worked example of the specification: the registry holds A and B,
    the fetch returns B and C.  A is retired, B keeps its sensor (object 1)
    with the fetched meter in it, C gets the new sensor (object 2). *)
Example diff_AB_against_BC :
  meter_entities_of 0 (hass (diff_meters cfg 0 fetched_BC (loop_of hass_AB)))
  = Some [("B", 1); ("C", 2)]
  /\ tasks (diff_meters cfg 0 fetched_BC (loop_of hass_AB))
     = [AsyncUpdate (MeterRef 2); AsyncRemove (MeterRef 0)]
  /\ events (hass (diff_meters cfg 0 fetched_BC (loop_of hass_AB)))
     = [ScheduleUpdate (MeterRef 1); CreateTask (AsyncRemove (MeterRef 0))]
  /\ new_meters (diff_meters cfg 0 fetched_BC (loop_of hass_AB)) = [("C", 2)]
  /\ meter <$> meter_sensors (hass (diff_meters cfg 0 fetched_BC (loop_of hass_AB)))
     = [MeterV meterA; MeterV meterB'; MeterV meterC].
Proof. repeat split; reflexivity. Qed.

(** ** The second cycle *)






Opaque upsert_meter.


Transparent upsert_meter.












(** ** The first cycle *)

Lemma touches_only_refl ae L : touches_only ae L L.
Proof. unfold touches_only. auto. Qed.

Lemma touches_only_trans ae L1 L2 L3 :
  touches_only ae L1 L2 -> touches_only ae L2 L3 -> touches_only ae L1 L3.
Proof.
  unfold touches_only. intros (A1 & A2 & A3) (B1 & B2 & B3).
  split_and!; try congruence. intros r Hr. rewrite B3, A3; auto.
Qed.

Lemma touches_only_emit ae e L : touches_only ae L (on_hass (emit e) L).
Proof. unfold touches_only. simpl. auto. Qed.

Lemma touches_only_alter ae (f : MESAccountSensor -> MESAccountSensor) L L' :
  account_sensors (hass L') = alter f ae (account_sensors (hass L)) ->
  new_accounts L' = new_accounts L ->
  touches_only ae L L'.
Proof.
  intros H1 H2. unfold touches_only. rewrite H1, length_alter.
  split_and!; auto. intros r Hr. now apply list_lookup_alter_ne.
Qed.

Lemma touches_only_same ae L L' :
  account_sensors (hass L') = account_sensors (hass L) ->
  new_accounts L' = new_accounts L ->
  touches_only ae L L'.
Proof. intros H1 H2. unfold touches_only. rewrite H1. auto. Qed.

Lemma touches_only_retire ae L code :
  touches_only ae L (retire_meter ae L code).
Proof.
  unfold retire_meter. case_match; [|apply touches_only_refl].
  eapply touches_only_alter; reflexivity.
Qed.

Lemma touches_only_upsert cfg ae L item :
  touches_only ae L (upsert_meter cfg ae L item).
Proof.
  unfold upsert_meter. destruct item as [code m]. case_match.
  - apply touches_only_same; reflexivity.
  - eapply touches_only_alter; reflexivity.
Qed.

Lemma touches_only_diff cfg ae meters L :
  touches_only ae L (diff_meters cfg ae meters L).
Proof.
  unfold diff_meters.
  eapply touches_only_trans;
    [|apply (fold_left_preorder (touches_only ae));
      eauto using touches_only_refl, touches_only_trans, touches_only_upsert].
  case_match.
  - apply (fold_left_preorder (touches_only ae));
      eauto using touches_only_refl, touches_only_trans, touches_only_retire.
  - eapply touches_only_alter; reflexivity.
Qed.

Lemma touches_only_process_meters cfg ae code acct L :
  touches_only ae L (snd (process_meters cfg ae code acct L)).
Proof.
  unfold process_meters.
  destruct (get_meters acct) as [meters|e].
  - destruct (apply_meter_filter cfg code meters) as [meters'|e]; simpl.
    + eapply touches_only_trans; [apply touches_only_emit|].
      apply touches_only_diff.
    + destruct (is_MosenergosbytException e); simpl;
        unfold touches_only; simpl; auto.
  - destruct (is_MosenergosbytException e); simpl;
      unfold touches_only; simpl; auto.
Qed.

Lemma touches_only_store_invoice cfg ae inv L :
  touches_only ae L (store_invoice cfg ae inv L).
Proof.
  unfold store_invoice. repeat case_match; try apply touches_only_refl.
  - apply touches_only_same; reflexivity.
  - eapply touches_only_alter; reflexivity.
Qed.

Lemma touches_only_process_invoice cfg ae code acct L :
  touches_only ae L (snd (process_invoice cfg ae code acct L)).
Proof.
  unfold process_invoice.
  destruct (skip_invoice cfg code); [apply touches_only_refl|].
  destruct (get_last_invoice acct) as [[inv|]|e]; simpl.
  - eapply touches_only_trans; [|apply touches_only_store_invoice].
    apply touches_only_emit.
  - apply touches_only_emit.
  - destruct (is_MosenergosbytException e); simpl;
      unfold touches_only; simpl; auto.
Qed.

(** The keys of the registry after the diff are the fetched codes. *)
Lemma mem_set {V} (d : dict V) k0 v k :
  mem k (set d k0 v) = mem k d || String.eqb k0 k.
Proof.
  unfold mem. destruct (String.eqb_spec k0 k) as [->|Hne].
  - rewrite get_set_eq. now destruct (get d k).
  - rewrite get_set_ne by done. now destruct (get d k).
Qed.

Lemma mem_cons {V} (d : dict V) k0 v k :
  mem k ((k0, v) :: d) = String.eqb k0 k || mem k d.
Proof. unfold mem. simpl. now destruct (String.eqb k0 k). Qed.

Opaque upsert_meter.

Lemma upsert_fold_keys cfg ae items : forall L d,
  meter_entities_of ae (hass L) = Some d ->
  exists d',
    meter_entities_of ae (hass (fold_left (upsert_meter cfg ae) items L))
    = Some d'
    /\ forall k, mem k d' = mem k d || mem k items.
Proof.
  induction items as [|[k0 m] items IH]; intros L d Hd; simpl.
  { exists d. split; [done|]. intros k. now rewrite orb_false_r. }
  destruct (get d k0) as [r|] eqn:Hr.
  - destruct (upsert_meter_old cfg ae L k0 m d r Hd Hr) as (H1 & _).
    destruct (IH _ _ H1) as (d' & I1 & I2). exists d'. split; [done|].
    intros k. rewrite I2, mem_cons.
    destruct (String.eqb_spec k0 k) as [<-|]; [|done].
    assert (mem k0 d = true) as -> by (unfold mem; now rewrite Hr). done.
  - destruct (upsert_meter_new cfg ae L k0 m d Hd Hr) as (H1 & _).
    destruct (IH _ _ H1) as (d' & I1 & I2). exists d'. split; [done|].
    intros k. rewrite I2, mem_set, mem_cons.
    now rewrite orb_assoc.
Qed.

Transparent upsert_meter.

Lemma diff_meters_keys cfg ae meters L s :
  account_sensors (hass L) !! ae = Some s ->
  exists d',
    meter_entities_of ae (hass (diff_meters cfg ae meters L)) = Some d'
    /\ forall k, mem k d' = mem k meters.
Proof.
  intros Hs. unfold diff_meters.
  destruct (meter_entities_of ae (hass L)) as [d|] eqn:Hd.
  - destruct (retire_fold ae (keys_difference d meters) L d Hd)
      as (added & H1 & _).
    destruct (upsert_fold_keys cfg ae meters _ _ H1) as (d' & I1 & I2).
    exists d'. split; [done|]. intros k. rewrite I2.
    unfold mem at 1. rewrite get_fold_del, str_in_keys_difference.
    unfold mem. destruct (get d k), (get meters k); done.
  - destruct (upsert_fold_keys cfg ae meters
                (on_hass
                   (fun h =>
                      with_account_sensors
                        (alter (set_meter_entities (Some [])) ae
                           (account_sensors h)) h) L) [])
      as (d' & I1 & I2).
    { unfold meter_entities_of. simpl. now rewrite list_lookup_alter_eq, Hs. }
    exists d'. split; [done|]. intros k. now rewrite I2.
Qed.

Lemma get_update {V} (n : dict V) : forall (c : dict V) k,
  List.NoDup (keys n) ->
  get (update c n) k
  = match get n k with Some v => Some v | None => get c k end.
Proof.
  unfold update. induction n as [|[k0 v0] n IH]; intros c k Hnd; simpl; [done|].
  inversion Hnd as [|? ? Hk0 Hnd']; subst. rewrite IH by done.
  destruct (String.eqb_spec k0 k) as [<-|Hne].
  - apply get_None_keys in Hk0. rewrite Hk0. apply get_set_eq.
  - destruct (get n k); [done|]. now apply get_set_ne.
Qed.

Lemma account_entity_for_spec cfg created code acct L :
  (get created code = Some (fst (account_entity_for cfg created code acct L))
   /\ account_sensors (hass (snd (account_entity_for cfg created code acct L)))
      = alter (set_account acct)
          (fst (account_entity_for cfg created code acct L))
          (account_sensors (hass L))
   /\ new_accounts (snd (account_entity_for cfg created code acct L))
      = new_accounts L)
  \/ (get created code = None
      /\ fst (account_entity_for cfg created code acct L)
         = length (account_sensors (hass L))
      /\ account_sensors (hass (snd (account_entity_for cfg created code acct L)))
         = (account_sensors (hass L)
              ++ [{| account := acct; account_name_format := account_name cfg;
                     meter_entities := None; invoice_entity := None |}])%list
      /\ new_accounts (snd (account_entity_for cfg created code acct L))
         = set (new_accounts L) code (length (account_sensors (hass L)))).
Proof.
  unfold account_entity_for. destruct (get created code) as [r|]; simpl.
  - left. auto.
  - right. auto.
Qed.

Lemma process_meters_establishes cfg ae code acct L L2 s :
  account_sensors (hass L) !! ae = Some s ->
  process_meters cfg ae code acct L = (Ok tt, L2) ->
  forall meters meters',
    get_meters acct = Ok meters ->
    apply_meter_filter cfg code meters = Ok meters' ->
    exists d, meter_entities_of ae (hass L2) = Some d
              /\ forall k, mem k d = mem k meters'.
Proof.
  intros Hs Hp meters meters' Hm Hf. unfold process_meters in Hp.
  rewrite Hm, Hf in Hp. injection Hp as <-.
  apply (diff_meters_keys cfg ae meters' _ s). simpl. exact Hs.
Qed.

Lemma store_invoice_keeps_meters cfg ae inv L :
  meter_entities_of ae (hass (store_invoice cfg ae inv L))
  = meter_entities_of ae (hass L).
Proof.
  unfold store_invoice, meter_entities_of. repeat case_match; simpl; try done.
  rewrite list_lookup_alter_eq. now destruct (account_sensors (hass L) !! ae).
Qed.

Lemma process_invoice_keeps_meters cfg ae code acct L :
  meter_entities_of ae (hass (snd (process_invoice cfg ae code acct L)))
  = meter_entities_of ae (hass L).
Proof.
  unfold process_invoice.
  destruct (skip_invoice cfg code); [done|].
  destruct (get_last_invoice acct) as [[inv|]|e]; simpl; [|done|].
  - now rewrite store_invoice_keeps_meters.
  - now destruct (is_MosenergosbytException e).
Qed.

Lemma store_invoice_sets cfg ae inv L s :
  account_sensors (hass L) !! ae = Some s ->
  exists i, account_sensors (hass (store_invoice cfg ae inv L)) !! ae
            ≫= invoice_entity = Some i.
Proof.
  intros Hs. unfold store_invoice.
  destruct (account_sensors (hass L) !! ae ≫= invoice_entity) as [i|] eqn:Hi.
  - exists i. repeat case_match; simpl; done.
  - eexists. simpl. rewrite list_lookup_alter_eq, Hs. reflexivity.
Qed.

Lemma process_invoice_establishes cfg ae code acct L s inv :
  account_sensors (hass L) !! ae = Some s ->
  skip_invoice cfg code = false ->
  get_last_invoice acct = Ok (Some inv) ->
  exists i, account_sensors (hass (snd (process_invoice cfg ae code acct L))) !! ae
            ≫= invoice_entity = Some i.
Proof.
  intros Hs Hskip Hinv. unfold process_invoice. rewrite Hskip, Hinv. simpl.
  apply (store_invoice_sets cfg ae inv _ s). simpl. exact Hs.
Qed.

(** After its iteration an account is settled at its sensor. *)
Lemma process_account_establishes cfg created L code acct L' :
  process_account cfg created L (code, acct) = (Ok tt, L') ->
  (forall r, get created code = Some r ->
             r < length (account_sensors (hass L))) ->
  exists s,
    account_sensors (hass L')
      !! fst (account_entity_for cfg created code acct L) = Some s
    /\ touches_only (fst (account_entity_for cfg created code acct L))
         (snd (account_entity_for cfg created code acct L)) L'
    /\ (forall meters meters',
          get_meters acct = Ok meters ->
          apply_meter_filter cfg code meters = Ok meters' ->
          exists d, meter_entities s = Some d
                    /\ forall k, mem k d = mem k meters')
    /\ (skip_invoice cfg code = false ->
        forall inv, get_last_invoice acct = Ok (Some inv) ->
                    exists i, invoice_entity s = Some i).
Proof.
  unfold process_account. intros Hp Hvalid.
  pose proof (account_entity_for_spec cfg created code acct L) as Hspec.
  destruct (account_entity_for cfg created code acct L) as [r L1]. simpl in *.
  assert (exists s1, account_sensors (hass L1) !! r = Some s1) as [s1 Hs1].
  { destruct Hspec as [(Hg & -> & _)|(_ & -> & -> & _)].
    - rewrite list_lookup_alter_eq.
      destruct (lookup_lt_is_Some_2 (account_sensors (hass L)) r (Hvalid r Hg))
        as [s0 ->]. eauto.
    - rewrite lookup_app_r by lia. rewrite Nat.sub_diag. eauto. }
  pose proof (touches_only_process_meters cfg r code acct L1) as T1.
  pose proof (process_meters_establishes cfg r code acct L1) as M.
  destruct (process_meters cfg r code acct L1) as [[[]|e] L2] eqn:Hpm; [|done].
  simpl in T1. specialize (M L2 s1 Hs1 eq_refl).
  pose proof (touches_only_process_invoice cfg r code acct L2) as T2.
  pose proof (process_invoice_keeps_meters cfg r code acct L2) as K.
  assert (exists s2, account_sensors (hass L2) !! r = Some s2) as [s2 Hs2].
  { apply lookup_lt_is_Some_2. destruct T1 as (-> & _).
    apply lookup_lt_is_Some_1. eauto. }
  pose proof (process_invoice_establishes cfg r code acct L2 s2) as I.
  rewrite Hp in T2, K, I. simpl in *.
  assert (exists s, account_sensors (hass L') !! r = Some s) as [s Hs].
  { apply lookup_lt_is_Some_2. destruct T2 as (-> & _).
    apply lookup_lt_is_Some_1. eauto. }
  exists s. split_and!.
  - done.
  - eapply touches_only_trans; eauto.
  - intros meters meters' Hm Hf. destruct (M meters meters' Hm Hf) as (d & Hd & Hk).
    exists d. split; [|done]. rewrite <- K in Hd.
    unfold meter_entities_of in Hd. rewrite Hs in Hd. exact Hd.
  - intros Hskip inv Hinv. destruct (I inv Hs2 Hskip Hinv) as [i Hi].
    exists i. rewrite Hs in Hi. exact Hi.
Qed.

Lemma process_account_invariant cfg created seen L code acct L' :
  registry_wf created seen L ->
  ~ In code (keys seen) ->
  (forall item, In item seen ->
     settled cfg (update created (new_accounts L)) (hass L) item) ->
  process_account cfg created L (code, acct) = (Ok tt, L') ->
  registry_wf created ((code, acct) :: seen) L'
  /\ forall item, In item ((code, acct) :: seen) ->
       settled cfg (update created (new_accounts L')) (hass L') item.
Proof.
  intros (W1 & W2 & W3 & W4 & W5 & W6) Hfresh Hseen Hp.
  pose proof (process_account_establishes cfg created L code acct L' Hp) as E.
  pose proof (account_entity_for_spec cfg created code acct L) as S.
  destruct (account_entity_for cfg created code acct L) as [r L1].
  simpl in E, S.
  destruct E as (s & Hs & (T1 & T2 & T3) & Hm & Hi).
  { intros r0 Hr. apply W2. eapply get_Some_values; eauto. }
  assert (get (new_accounts L) code = None) as Hnew.
  { apply get_None_keys. intros Hin. apply Hfresh. now apply W6. }
  assert (forall item, In item seen -> fst item <> code) as Hother.
  { intros item Hin Heq. apply Hfresh. rewrite <- Heq.
    now apply (in_map fst) in Hin. }
  destruct S as [(Hg & E1 & E2)|(Hg & E0 & E1 & E2)].
  - (* the account had a sensor *)
    assert (length (account_sensors (hass L')) = length (account_sensors (hass L)))
      as Hlen by now rewrite T1, E1, length_alter.
    assert (new_accounts L' = new_accounts L) as Hn by now rewrite T2, E2.
    rewrite Hn. split.
    + unfold registry_wf. rewrite Hn, Hlen. split_and!; auto.
      intros k Hk. destruct (W6 k Hk). split; [done|]. now right.
    + intros item [<-|Hin].
      * exists r, s. simpl. rewrite get_update, Hnew by done. auto.
      * destruct (Hseen item Hin) as (r' & s' & Hr' & Hs' & Hm' & Hi').
        assert (r' <> r) as Hne.
        { intros Heq. rewrite get_update in Hr' by done.
          destruct (get (new_accounts L) (fst item)) as [v|] eqn:Hv.
          - injection Hr' as Hr'. apply (W5 r).
            + rewrite <- Heq, <- Hr'. eapply get_Some_values; eauto.
            + eapply get_Some_values; eauto.
          - apply (Hother item Hin).
            apply (get_inj created _ _ r W1); [|exact Hg].
            rewrite <- Heq. exact Hr'. }
        exists r', s'. split_and!; auto.
        rewrite T3, E1, list_lookup_alter_ne; auto.
  - (* the account is new *)
    assert (length (account_sensors (hass L'))
            = S (length (account_sensors (hass L)))) as Hlen.
    { rewrite T1, E1, length_app. simpl. lia. }
    assert (~ In code (keys (new_accounts L))) as Hk by now apply get_None_keys.
    assert (~ In r (values (new_accounts L))) as Hv.
    { intros Hin. apply W5 in Hin as [Hlt _]. rewrite E0 in Hlt. lia. }
    assert (~ In r (values created)) as Hc.
    { intros Hin. apply W2 in Hin. rewrite E0 in Hin. lia. }
    assert (List.NoDup (keys (new_accounts L'))) as W3'.
    { rewrite T2, E2, keys_set_new by done. apply List.NoDup_app; auto.
      - repeat constructor. simpl. tauto.
      - intros a Ha [<-|[]]. done. }
    split.
    + unfold registry_wf. rewrite Hlen. split_and!.
      * done.
      * intros r0 Hr0. apply W2 in Hr0. lia.
      * done.
      * rewrite T2, E2, values_set_new by done. apply List.NoDup_app; auto.
        -- repeat constructor. simpl. tauto.
        -- intros a Ha [<-|[]]. rewrite <- E0 in Ha. done.
      * intros r0. rewrite T2, E2, values_set_new by done.
        intros [Hin|[<-|[]]]%in_app_or.
        -- destruct (W5 r0 Hin). split; [lia|done].
        -- split; [lia|]. now rewrite <- E0.
      * intros k. rewrite T2, E2, keys_set_new by done.
        intros [Hin|[<-|[]]]%in_app_or.
        -- destruct (W6 k Hin). split; [done|]. now right.
        -- split; [done|]. now left.
    + intros item [<-|Hin].
      * exists r, s. simpl. rewrite get_update by done.
        rewrite T2, E2, <- E0, get_set_eq. auto.
      * destruct (Hseen item Hin) as (r' & s' & Hr' & Hs' & Hm' & Hi').
        exists r', s'. split_and!; auto.
        -- rewrite get_update in Hr' |- * by done.
           rewrite T2, E2, get_set_ne; [done|].
           intros Heq. now apply (Hother item Hin).
        -- assert (r' < length (account_sensors (hass L))) as Hlt
             by (eapply lookup_lt_Some; eauto).
           rewrite T3, E1, lookup_app_l; [done|done|]. rewrite E0. lia.
Qed.

Opaque process_account.


Transparent process_account.


Lemma finish_update_data_entities entry created L :
  data_entities (snd (finish_update entry created L))
  = set (data_entities (hass L)) entry (update created (new_accounts L)).
Proof.
  unfold finish_update; simpl.
  now destruct (is_empty (tasks L)), (is_empty (new_accounts L)),
    (is_empty (new_meters L)), (is_empty (new_invoices L)).
Qed.

Lemma created_entities_for_spec entry h :
  fst (created_entities_for entry h) = default [] (get (data_entities h) entry)
  /\ get (data_entities (snd (created_entities_for entry h))) entry
     = Some (fst (created_entities_for entry h))
  /\ (forall d, get (data_entities h) entry = Some d ->
                snd (created_entities_for entry h) = h).
Proof.
  unfold created_entities_for.
  destruct (get (data_entities h) entry) as [d|] eqn:Hd; simpl.
  - split_and!; auto.
  - split_and!; [done| |done]. apply get_set_eq.
Qed.

Opaque finish_update for_accounts.


Transparent finish_update for_accounts.


Lemma updater_counts_reached entry cfg utcnow h api accts n1 n2 n3 h1 :
  get (data_api_objects h) entry = Some api ->
  get_accounts api = Ok accts ->
  _entity_updater entry cfg utcnow h = (Ok (UpdaterCounts n1 n2 n3), h1) ->
  reconcile_accounts entry cfg accts
    (emit ApiGetAccounts (snd (ensure_session cfg utcnow api h)))
  = (Ok (UpdaterCounts n1 n2 n3), h1).
Proof.
  intros Hapi Hl. unfold _entity_updater. rewrite Hapi.
  destruct (ensure_session cfg utcnow api h) as [[[]|e] h0]; simpl.
  - now rewrite Hl.
  - now destruct (is_MosenergosbytException e).
Qed.



(** Two cycles in a row on a fresh host whose provider reports account A1
    with the meter B and an invoice: the first creates three sensors, the
    second none, and the registry and the sensors of A1 are the same. *)
Example two_cycles :
  fst (_entity_updater "entry" cfg 0 hass_B_invoice) = Ok (UpdaterCounts 1 1 1)
  /\ fst (_entity_updater "entry" cfg 60
            (snd (_entity_updater "entry" cfg 0 hass_B_invoice)))
     = Ok (UpdaterCounts 0 0 0)
  /\ data_entities (snd (_entity_updater "entry" cfg 60
                           (snd (_entity_updater "entry" cfg 0 hass_B_invoice))))
     = [("entry", [("A1", 0)])]
  /\ (fun s => (meter_entities s, invoice_entity s))
     <$> account_sensors
           (snd (_entity_updater "entry" cfg 60
                   (snd (_entity_updater "entry" cfg 0 hass_B_invoice))))
     = [(Some [("B", 0)], Some 0)].
Proof. repeat split; reflexivity. Qed.

(** ** The trace of a cycle *)

Lemma grows_trans P l1 l2 l3 : grows P l1 l2 -> grows P l2 l3 -> grows P l1 l3.
Proof. intros H12 H23. induction H23; [done|]. now constructor. Qed.

Lemma grows_weaken (P Q : Event -> bool) l l' :
  (forall e, P e = true -> Q e = true) -> grows P l l' -> grows Q l l'.
Proof. intros HPQ H. induction H; constructor; auto. Qed.

Lemma grows_prefix P l l' :
  grows P l l' <-> exists new, l' = (new ++ l)%list /\ forallb P new = true.
Proof.
  split.
  - induction 1 as [|e l' He _ (new & -> & Hnew)].
    + now exists [].
    + exists (e :: new). simpl. now rewrite He.
  - intros (new & -> & Hnew). induction new as [|e new IH]; simpl in *.
    + constructor.
    + apply andb_prop in Hnew as [He Hnew]. constructor; auto.
Qed.

Ltac grows_solve :=
  simpl; repeat first [apply grows_refl | apply grows_cons; [reflexivity|]].

Lemma grows_retire ae L code :
  grows registry_event (events (hass L)) (events (hass (retire_meter ae L code))).
Proof. unfold retire_meter. case_match; grows_solve. Qed.

Lemma grows_upsert cfg ae L item :
  grows registry_event (events (hass L))
    (events (hass (upsert_meter cfg ae L item))).
Proof. unfold upsert_meter. destruct item. case_match; grows_solve. Qed.

Lemma grows_fold {B} (f : Loop -> B -> Loop) (l : list B) (L : Loop) :
  (forall L b, grows registry_event (events (hass L)) (events (hass (f L b)))) ->
  grows registry_event (events (hass L)) (events (hass (fold_left f l L))).
Proof.
  intros Hstep.
  apply (fold_left_preorder
           (fun a b => grows registry_event (events (hass a)) (events (hass b))));
    eauto using grows_refl, grows_trans.
Qed.

Lemma grows_diff cfg ae meters L :
  grows registry_event (events (hass L))
    (events (hass (diff_meters cfg ae meters L))).
Proof.
  unfold diff_meters.
  eapply grows_trans; [|apply grows_fold; intros; apply grows_upsert].
  case_match; [|grows_solve].
  apply grows_fold; intros; apply grows_retire.
Qed.

Lemma registry_is_account_event cfg code e :
  registry_event e = true -> account_event cfg code e = true.
Proof. unfold account_event. now intros ->. Qed.

Ltac account_event_solve code :=
  simpl;
  repeat first
    [ apply grows_refl
    | apply grows_cons;
      [unfold account_event; simpl; rewrite ?(String.eqb_refl code);
       try reflexivity|] ].

Lemma grows_process_meters cfg ae code acct L :
  grows (account_event cfg code) (events (hass L))
    (events (hass (snd (process_meters cfg ae code acct L)))).
Proof.
  unfold process_meters.
  destruct (get_meters acct) as [meters|e].
  - destruct (apply_meter_filter cfg code meters) as [meters'|e]; simpl.
    + eapply grows_trans;
        [|eapply grows_weaken;
          [apply registry_is_account_event|apply grows_diff]].
      account_event_solve code.
    + destruct (is_MosenergosbytException e); account_event_solve code.
  - destruct (is_MosenergosbytException e); account_event_solve code.
Qed.

Lemma grows_store_invoice cfg ae inv L :
  grows registry_event (events (hass L))
    (events (hass (store_invoice cfg ae inv L))).
Proof. unfold store_invoice. repeat case_match; grows_solve. Qed.

Lemma grows_process_invoice cfg ae code acct L :
  grows (account_event cfg code) (events (hass L))
    (events (hass (snd (process_invoice cfg ae code acct L)))).
Proof.
  unfold process_invoice.
  destruct (skip_invoice cfg code) eqn:Hskip; [grows_solve|].
  destruct (get_last_invoice acct) as [[inv|]|e]; simpl.
  - eapply grows_trans;
      [|eapply grows_weaken;
        [apply registry_is_account_event|apply grows_store_invoice]].
    simpl. apply grows_cons; [|apply grows_refl].
    unfold account_event. simpl. now rewrite String.eqb_refl, Hskip.
  - apply grows_cons; [|apply grows_refl].
    unfold account_event. simpl. now rewrite String.eqb_refl, Hskip.
  - destruct (is_MosenergosbytException e); simpl;
      repeat (apply grows_cons; [|try apply grows_refl]);
      unfold account_event; simpl; now rewrite ?String.eqb_refl, ?Hskip.
Qed.

Lemma grows_account_entity cfg created code acct L :
  grows registry_event (events (hass L))
    (events (hass (snd (account_entity_for cfg created code acct L)))).
Proof. unfold account_entity_for. case_match; grows_solve. Qed.

Lemma grows_process_account cfg created L item :
  grows (account_event cfg (fst item)) (events (hass L))
    (events (hass (snd (process_account cfg created L item)))).
Proof.
  unfold process_account. destruct item as [code acct]. cbn [fst].
  pose proof (grows_account_entity cfg created code acct L) as H1.
  apply (grows_weaken _ _ _ _ (registry_is_account_event cfg code)) in H1.
  destruct (account_entity_for cfg created code acct L) as [ae L1]; simpl in H1.
  pose proof (grows_process_meters cfg ae code acct L1) as H2.
  destruct (process_meters cfg ae code acct L1) as [[[]|e] L2]; simpl in H2.
  - eapply grows_trans; [|apply grows_process_invoice].
    eapply grows_trans; eauto.
  - simpl. eapply grows_trans; eauto.
Qed.

Lemma grows_for_accounts_listed cfg created items L :
  grows (listed_event cfg (keys items)) (events (hass L))
    (events (hass (snd (for_accounts cfg created items L)))).
Proof.
  revert L. induction items as [|item items IH]; intros L; cbn [for_accounts].
  - apply grows_refl.
  - pose proof (grows_process_account cfg created L item) as H1.
    apply (grows_weaken _ (listed_event cfg (keys (item :: items)))) in H1.
    2:{ intros e He. unfold listed_event. simpl. now rewrite He. }
    destruct (process_account cfg created L item) as [[[]|e] L1];
      cbn [fst snd] in *; [|exact H1].
    eapply grows_trans; [exact H1|].
    eapply grows_weaken; [|apply IH].
    intros e He. unfold listed_event in *. simpl. rewrite He.
    apply orb_true_r.
Qed.

Lemma account_is_loop_event cfg code e :
  account_event cfg code e = true -> loop_event e = true.
Proof.
  unfold account_event, registry_event.
  destruct e; simpl; try done; repeat case_match; done.
Qed.

Lemma listed_is_loop_event cfg codes e :
  listed_event cfg codes e = true -> loop_event e = true.
Proof.
  unfold listed_event. intros (code & _ & He)%existsb_exists.
  eapply account_is_loop_event; eauto.
Qed.

Lemma grows_for_accounts cfg created items L :
  grows loop_event (events (hass L))
    (events (hass (snd (for_accounts cfg created items L)))).
Proof.
  eapply grows_weaken; [|apply grows_for_accounts_listed].
  apply listed_is_loop_event.
Qed.

Lemma grows_finish entry created L :
  grows finish_event (events (hass L))
    (events (snd (finish_update entry created L))).
Proof.
  unfold finish_update; simpl.
  destruct (is_empty (tasks L)), (is_empty (new_accounts L)),
    (is_empty (new_meters L)), (is_empty (new_invoices L)); grows_solve.
Qed.

Lemma grows_ensure_session cfg utcnow api h :
  grows session_event (events h) (events (snd (ensure_session cfg utcnow api h))).
Proof. unfold ensure_session. repeat case_match; grows_solve. Qed.

(** The three phases of [reconcile_accounts]. *)
Lemma reconcile_accounts_phases entry cfg accts h :
  exists mid,
    grows loop_event (events h) mid
    /\ grows finish_event mid (events (snd (reconcile_accounts entry cfg accts h))).
Proof.
  unfold reconcile_accounts.
  pose proof (frame_created_entities entry h) as (_ & _ & _ & _ & _ & _ & He).
  destruct (created_entities_for entry h) as [created h1]. simpl in He.
  set (L0 := {| hass := h1; new_accounts := []; new_meters := [];
                new_invoices := []; tasks := [] |}).
  pose proof (grows_for_accounts cfg created accts L0) as Hl.
  destruct (for_accounts cfg created accts L0) as [[[]|e] L]; simpl in Hl.
  - pose proof (grows_finish entry created L) as Hf.
    destruct (finish_update entry created L) as [res h']. simpl in Hf |- *.
    exists (events (hass L)). rewrite <- He. split; [exact Hl|exact Hf].
  - exists (events (hass L)). rewrite <- He. split; [exact Hl|constructor].
Qed.

(** X1.  A cycle only puts events in front of the host's event list, in
    three stretches: first the calls of the session and of the account
    listing with the log entries of their failures; then the work of the
    loop, which is the meter and invoice fetches, the log entries of their
    failures, forced state updates of account and meter sensors and
    removals of meter sensors; last the barrier and the batches of new
    sensors.  So a cycle submits and calculates nothing, fires no result
    event, registers no service and no timer, removes no account or
    invoice sensor and asks no invoice sensor for a state update. *)
Theorem cycle_trace_has_three_phases (entry : string) (cfg : UserCfg)
    (utcnow : Z) (h : Hass) :
  exists session loop finish,
    events (snd (_entity_updater entry cfg utcnow h))
    = (finish ++ loop ++ session ++ events h)%list
    /\ forallb session_event session = true
    /\ forallb loop_event loop = true
    /\ forallb finish_event finish = true.
Proof.
  assert (forall l, grows session_event (events h) l ->
            exists session loop finish,
              l = (finish ++ loop ++ session ++ events h)%list
              /\ forallb session_event session = true
              /\ forallb loop_event loop = true
              /\ forallb finish_event finish = true) as Hses.
  { intros l (new & -> & Hnew)%grows_prefix. now exists new, [], []. }
  unfold _entity_updater.
  destruct (get (data_api_objects h) entry) as [api|]; simpl.
  2:{ apply Hses. constructor. }
  pose proof (grows_ensure_session cfg utcnow api h) as Hs.
  destruct (ensure_session cfg utcnow api h) as [[[]|e] h1]; simpl in *.
  - destruct (get_accounts api) as [accts|e].
    + destruct (reconcile_accounts_phases entry cfg accts (emit ApiGetAccounts h1))
        as (mid & Hl & Hf).
      apply grows_prefix in Hf as (finish & -> & Hfin).
      apply grows_prefix in Hl as (loop & -> & Hloop).
      assert (grows session_event (events h) (events (emit ApiGetAccounts h1)))
        as (session & -> & Hsession)%grows_prefix by now constructor.
      now exists session, loop, finish.
    + destruct (is_MosenergosbytException e); simpl; apply Hses;
        repeat (constructor; [reflexivity|]); exact Hs.
  - destruct (is_MosenergosbytException e); simpl; apply Hses;
      repeat (constructor; [reflexivity|]); exact Hs.
Qed.

(** ** The session calls of a cycle *)

Lemma no_session_call_filter (l new : list Event) :
  forallb (fun e => negb (session_call e)) new = true ->
  List.filter session_call new = [].
Proof.
  induction new as [|e new IH]; simpl; [done|].
  intros [He Hnew]%andb_prop. apply negb_true_iff in He. rewrite He. auto.
Qed.

Lemma updater_after_session entry cfg utcnow h api :
  get (data_api_objects h) entry = Some api ->
  grows (fun e => negb (session_call e))
    (events (snd (ensure_session cfg utcnow api h)))
    (events (snd (_entity_updater entry cfg utcnow h))).
Proof.
  intros Hapi. unfold _entity_updater. rewrite Hapi.
  destruct (ensure_session cfg utcnow api h) as [[[]|e] h1]; simpl.
  - destruct (get_accounts api) as [accts|e].
    + destruct (reconcile_accounts_phases entry cfg accts (emit ApiGetAccounts h1))
        as (mid & Hl & Hf).
      eapply grows_trans; [|eapply grows_weaken; [|exact Hf]].
      * eapply grows_trans; [|eapply grows_weaken; [|exact Hl]].
        -- grows_solve.
        -- now intros [].
      * now intros [].
    + destruct (is_MosenergosbytException e); grows_solve.
  - destruct (is_MosenergosbytException e); grows_solve.
Qed.

(** X2.  The session calls of a cycle.  When no session is open the cycle
    logs in once.  When the open session has reached its timeout
    ([logged_in_at + login_timeout <= utcnow]) the cycle logs out and then
    logs in; if the logout fails it does not log in.  When the open
    session is younger the cycle makes no session call at all.  In every
    case these are the only session calls of the whole cycle. *)
Theorem session_calls_of_a_cycle (entry : string) (cfg : UserCfg) (utcnow : Z)
    (h : Hass) (api : API) :
  get (data_api_objects h) entry = Some api ->
  exists new,
    events (snd (_entity_updater entry cfg utcnow h)) = (new ++ events h)%list
    /\ List.filter session_call new =
       if negb (is_logged_in api) then [ApiLogin]
       else if (logged_in_at api + login_timeout cfg <=? utcnow)%Z then
         match logout api with
         | Ok _ => [ApiLogin; ApiLogout]
         | Raise _ => [ApiLogout]
         end
       else [].
Proof.
  intros Hapi.
  pose proof (updater_after_session entry cfg utcnow h api Hapi)
    as (rest & -> & Hrest)%grows_prefix.
  apply (no_session_call_filter (events h)) in Hrest.
  assert (forall ses, List.filter session_call (rest ++ ses) = List.filter session_call ses)
    as Hfilter.
  { intros ses. now rewrite List.filter_app, Hrest. }
  unfold ensure_session.
  destruct (negb (is_logged_in api)); simpl.
  { exists (rest ++ [ApiLogin])%list. rewrite <- app_assoc. split; [done|].
    now rewrite Hfilter. }
  destruct (logged_in_at api + login_timeout cfg <=? utcnow)%Z.
  - destruct (logout api); simpl.
    + exists (rest ++ [ApiLogin; ApiLogout])%list. rewrite <- app_assoc.
      split; [done|]. now rewrite Hfilter.
    + exists (rest ++ [ApiLogout])%list. rewrite <- app_assoc.
      split; [done|]. now rewrite Hfilter.
  - exists rest. split; [done|]. rewrite <- (app_nil_r rest) at 1.
    now rewrite Hfilter.
Qed.

Lemma session_calls_of_a_cycle_witness :
  get (data_api_objects Sample.hass_B_invoice) "entry"
  = Some (Sample.api_with (Ok Sample.listing_B_invoice))
  /\ exists new,
       events (snd (_entity_updater "entry" Sample.cfg 0 Sample.hass_B_invoice))
       = (new ++ events Sample.hass_B_invoice)%list
       /\ List.filter session_call new =
          if negb (is_logged_in (Sample.api_with (Ok Sample.listing_B_invoice)))
          then [ApiLogin]
          else if (logged_in_at (Sample.api_with (Ok Sample.listing_B_invoice))
                   + login_timeout Sample.cfg <=? 0)%Z then
            match logout (Sample.api_with (Ok Sample.listing_B_invoice)) with
            | Ok _ => [ApiLogin; ApiLogout]
            | Raise _ => [ApiLogout]
            end
          else [].
Proof.
  split; [vm_compute; reflexivity|].
  apply (session_calls_of_a_cycle "entry" Sample.cfg 0 Sample.hass_B_invoice
           (Sample.api_with (Ok Sample.listing_B_invoice)));
    vm_compute; reflexivity.
Defined.

(** ** Sensor objects created by a cycle *)

Lemma length_set_bounds {V} (d : dict V) k v :
  length d <= length (set d k v) <= S (length d).
Proof.
  induction d as [|[k' v'] d IH]; simpl; [lia|].
  destruct (String.eqb k' k); simpl; lia.
Qed.

Lemma values_set_In {V} (d : dict V) k v x :
  In x (values (set d k v)) -> x = v \/ In x (values d).
Proof.
  induction d as [|[k' v'] d IH]; simpl; [intuition|].
  destruct (String.eqb k' k); simpl; intuition.
Qed.

Lemma allocates_same len d : allocates len len d d.
Proof. unfold allocates. split_and!; auto. Qed.

Lemma allocates_new len d k : allocates len (S len) d (set d k len).
Proof.
  unfold allocates. pose proof (length_set_bounds d k len).
  split_and!; [lia..|].
  intros v [->|Hv]%values_set_In; [right; lia|now left].
Qed.

Lemma allocates_trans l1 l2 l3 d1 d2 d3 :
  allocates l1 l2 d1 d2 -> allocates l2 l3 d2 d3 -> allocates l1 l3 d1 d3.
Proof.
  unfold allocates. intros (A1 & A2 & A3) (B1 & B2 & B3).
  split_and!; [lia..|]. intros v Hv.
  destruct (B3 v Hv) as [Hv'|?]; [|right; lia].
  destruct (A3 v Hv') as [?|?]; [now left|right; lia].
Qed.

Lemma advances_refl L : advances L L.
Proof. unfold advances. auto using allocates_same. Qed.

Lemma advances_trans L1 L2 L3 : advances L1 L2 -> advances L2 L3 -> advances L1 L3.
Proof.
  unfold advances. intros (A1 & A2 & A3) (B1 & B2 & B3).
  split_and!; eapply allocates_trans; eauto.
Qed.

Ltac advances_solve :=
  unfold advances; simpl;
  rewrite ?length_alter, ?length_app; simpl; rewrite ?Nat.add_1_r;
  split_and!; auto using allocates_same, allocates_new.

Lemma advances_retire ae L code : advances L (retire_meter ae L code).
Proof. unfold retire_meter. case_match; advances_solve. Qed.

Lemma advances_upsert cfg ae L item : advances L (upsert_meter cfg ae L item).
Proof. unfold upsert_meter. destruct item. case_match; advances_solve. Qed.

Lemma advances_diff cfg ae meters L : advances L (diff_meters cfg ae meters L).
Proof.
  unfold diff_meters.
  eapply advances_trans;
    [|apply (fold_left_preorder advances);
      eauto using advances_refl, advances_trans, advances_upsert].
  case_match; [|advances_solve].
  apply (fold_left_preorder advances);
    eauto using advances_refl, advances_trans, advances_retire.
Qed.

Lemma advances_process_meters cfg ae code acct L :
  advances L (snd (process_meters cfg ae code acct L)).
Proof.
  unfold process_meters.
  destruct (get_meters acct) as [meters|e].
  - destruct (apply_meter_filter cfg code meters) as [meters'|e]; simpl.
    + eapply advances_trans; [|apply advances_diff]. advances_solve.
    + destruct (is_MosenergosbytException e); advances_solve.
  - destruct (is_MosenergosbytException e); advances_solve.
Qed.

Lemma advances_store_invoice cfg ae inv L : advances L (store_invoice cfg ae inv L).
Proof. unfold store_invoice. repeat case_match; advances_solve. Qed.

Lemma advances_process_invoice cfg ae code acct L :
  advances L (snd (process_invoice cfg ae code acct L)).
Proof.
  unfold process_invoice.
  destruct (skip_invoice cfg code); [apply advances_refl|].
  destruct (get_last_invoice acct) as [[inv|]|e]; simpl.
  - eapply advances_trans; [|apply advances_store_invoice]. advances_solve.
  - advances_solve.
  - destruct (is_MosenergosbytException e); advances_solve.
Qed.

Lemma advances_account_entity cfg created code acct L :
  advances L (snd (account_entity_for cfg created code acct L)).
Proof. unfold account_entity_for. case_match; advances_solve. Qed.

Lemma advances_process_account cfg created L item :
  advances L (snd (process_account cfg created L item)).
Proof.
  unfold process_account. destruct item as [code acct].
  pose proof (advances_account_entity cfg created code acct L) as H1.
  destruct (account_entity_for cfg created code acct L) as [ae L1]; simpl in H1.
  pose proof (advances_process_meters cfg ae code acct L1) as H2.
  destruct (process_meters cfg ae code acct L1) as [[[]|e] L2]; simpl in H2.
  - eapply advances_trans; [|apply advances_process_invoice].
    eapply advances_trans; eauto.
  - simpl. eapply advances_trans; eauto.
Qed.

Lemma advances_for_accounts cfg created items L :
  advances L (snd (for_accounts cfg created items L)).
Proof.
  revert L. induction items as [|item items IH]; intros L; simpl.
  - apply advances_refl.
  - pose proof (advances_process_account cfg created L item) as H1.
    destruct (process_account cfg created L item) as [[[]|e] L1]; simpl in *.
    + eapply advances_trans; eauto.
    + exact H1.
Qed.

Lemma announces_refl L : announces L L.
Proof. unfold announces. split_and!; auto. Qed.

Lemma announces_trans L1 L2 L3 :
  announces L1 L2 -> announces L2 L3 -> announces L1 L3.
Proof.
  unfold announces. intros (A0 & A1 & A2 & A3) (B0 & B1 & B2 & B3).
  split_and!; [auto|..]; intros v Hv.
  - destruct (B1 v Hv) as [Hv'|?]; [|now right].
    destruct (A1 v Hv') as [?|?]; auto.
  - destruct (B2 v Hv) as [Hv'|?]; [|now right].
    destruct (A2 v Hv') as [?|?]; auto.
  - destruct (B3 v Hv) as [Hv'|?]; [|now right].
    destruct (A3 v Hv') as [?|?]; auto.
Qed.

Ltac announces_solve :=
  unfold announces; simpl; split_and!; auto;
  intros v Hv;
  first [ now left
        | apply values_set_In in Hv as [->|Hv]; [right; now left|now left] ].

Lemma announces_retire ae L code : announces L (retire_meter ae L code).
Proof. unfold retire_meter. case_match; announces_solve. Qed.

Lemma announces_upsert cfg ae L item : announces L (upsert_meter cfg ae L item).
Proof. unfold upsert_meter. destruct item. case_match; announces_solve. Qed.

Lemma announces_diff cfg ae meters L : announces L (diff_meters cfg ae meters L).
Proof.
  unfold diff_meters.
  eapply announces_trans;
    [|apply (fold_left_preorder announces);
      eauto using announces_refl, announces_trans, announces_upsert].
  case_match; [|announces_solve].
  apply (fold_left_preorder announces);
    eauto using announces_refl, announces_trans, announces_retire.
Qed.

Lemma announces_process_meters cfg ae code acct L :
  announces L (snd (process_meters cfg ae code acct L)).
Proof.
  unfold process_meters.
  destruct (get_meters acct) as [meters|e].
  - destruct (apply_meter_filter cfg code meters) as [meters'|e]; simpl.
    + eapply announces_trans; [|apply announces_diff]. announces_solve.
    + destruct (is_MosenergosbytException e); announces_solve.
  - destruct (is_MosenergosbytException e); announces_solve.
Qed.

Lemma announces_store_invoice cfg ae inv L :
  announces L (store_invoice cfg ae inv L).
Proof. unfold store_invoice. repeat case_match; announces_solve. Qed.

Lemma announces_process_invoice cfg ae code acct L :
  announces L (snd (process_invoice cfg ae code acct L)).
Proof.
  unfold process_invoice.
  destruct (skip_invoice cfg code); [apply announces_refl|].
  destruct (get_last_invoice acct) as [[inv|]|e]; simpl.
  - eapply announces_trans; [|apply announces_store_invoice]. announces_solve.
  - announces_solve.
  - destruct (is_MosenergosbytException e); announces_solve.
Qed.

Lemma announces_account_entity cfg created code acct L :
  announces L (snd (account_entity_for cfg created code acct L)).
Proof. unfold account_entity_for. case_match; announces_solve. Qed.

Lemma announces_process_account cfg created L item :
  announces L (snd (process_account cfg created L item)).
Proof.
  unfold process_account. destruct item as [code acct].
  pose proof (announces_account_entity cfg created code acct L) as H1.
  destruct (account_entity_for cfg created code acct L) as [ae L1]; simpl in H1.
  pose proof (announces_process_meters cfg ae code acct L1) as H2.
  destruct (process_meters cfg ae code acct L1) as [[[]|e] L2]; simpl in H2.
  - eapply announces_trans; [|apply announces_process_invoice].
    eapply announces_trans; eauto.
  - simpl. eapply announces_trans; eauto.
Qed.

Lemma announces_for_accounts cfg created items L :
  announces L (snd (for_accounts cfg created items L)).
Proof.
  revert L. induction items as [|item items IH]; intros L; simpl.
  - apply announces_refl.
  - pose proof (announces_process_account cfg created L item) as H1.
    destruct (process_account cfg created L item) as [[[]|e] L1]; simpl in *.
    + eapply announces_trans; eauto.
    + exact H1.
Qed.

(** The batches of the end of a cycle. *)
Lemma finish_update_events entry created L :
  events (snd (finish_update entry created L))
  = (batches L ++ events (hass L))%list.
Proof.
  unfold finish_update, batches; simpl.
  now destruct (is_empty (tasks L)), (is_empty (new_accounts L)),
    (is_empty (new_meters L)), (is_empty (new_invoices L)).
Qed.

(** The reconciliation, as far as sensor objects go: the loop ends in a
    state [L] whose stores are those of the result. *)
Lemma reconcile_accounts_loop entry cfg accts h :
  exists L loop,
    advances {| hass := h; new_accounts := []; new_meters := [];
                new_invoices := []; tasks := [] |} L
    /\ announces {| hass := h; new_accounts := []; new_meters := [];
                    new_invoices := []; tasks := [] |} L
    /\ events (hass L) = (loop ++ events h)%list
    /\ forallb loop_event loop = true
    /\ account_sensors (snd (reconcile_accounts entry cfg accts h))
       = account_sensors (hass L)
    /\ meter_sensors (snd (reconcile_accounts entry cfg accts h))
       = meter_sensors (hass L)
    /\ invoice_sensors (snd (reconcile_accounts entry cfg accts h))
       = invoice_sensors (hass L)
    /\ match fst (reconcile_accounts entry cfg accts h) with
       | Ok res =>
           res = UpdaterCounts (length (new_accounts L)) (length (new_meters L))
                   (length (new_invoices L))
           /\ events (snd (reconcile_accounts entry cfg accts h))
              = (batches L ++ events (hass L))%list
       | Raise _ =>
           events (snd (reconcile_accounts entry cfg accts h)) = events (hass L)
       end.
Proof.
  unfold reconcile_accounts.
  pose proof (frame_created_entities entry h) as (_ & _ & _ & Ha & Hm & Hi & He).
  destruct (created_entities_for entry h) as [created h1]. simpl in Ha, Hm, Hi, He.
  set (L0 := {| hass := h1; new_accounts := []; new_meters := [];
                new_invoices := []; tasks := [] |}).
  pose proof (advances_for_accounts cfg created accts L0) as Hadv.
  pose proof (announces_for_accounts cfg created accts L0) as Hann.
  pose proof (grows_for_accounts cfg created accts L0) as Hl.
  apply grows_prefix in Hl as (loop & Hev & Hloop).
  destruct (for_accounts cfg created accts L0) as [[[]|e] L];
    simpl in Hadv, Hann, Hev; exists L, loop.
  - pose proof (frame_finish entry created L) as (_ & _ & _ & Ga & Gm & Gi & _).
    pose proof (finish_update_counts entry created L) as Hc.
    pose proof (finish_update_events entry created L) as He1.
    destruct (finish_update entry created L) as [res h']. simpl in *.
    unfold advances in *. simpl in *. rewrite Ha, Hm, Hi in Hadv.
    rewrite He in Hev. destruct Hadv as (?&?&?). split_and!; auto.
  - simpl. unfold advances in *. simpl in *. rewrite Ha, Hm, Hi in Hadv.
    rewrite He in Hev. destruct Hadv as (?&?&?). split_and!; auto.
Qed.

Lemma not_finish_in_loop (loop : list Event) es :
  forallb loop_event loop = true -> ~ In (AddEntities es) loop.
Proof.
  intros Hall Hin. rewrite forallb_forall in Hall. now apply Hall in Hin.
Qed.

Lemma not_finish_in_session (ses : list Event) es :
  forallb session_event ses = true -> ~ In (AddEntities es) ses.
Proof.
  intros Hall Hin. rewrite forallb_forall in Hall. now apply Hall in Hin.
Qed.

Lemma batches_split (L : Loop) :
  batches L
  = (added_batches L ++ if is_empty (tasks L) then [] else [Wait (tasks L)])%list.
Proof. unfold batches, added_batches. now rewrite <- !app_assoc. Qed.

Lemma added_batches_In (L : Loop) e :
  In e (added_batches L) ->
  e = AddEntities (AccountRef <$> values (new_accounts L))
  \/ e = AddEntities (MeterRef <$> values (new_meters L))
  \/ e = AddEntities (InvoiceRef <$> values (new_invoices L)).
Proof.
  unfold added_batches.
  destruct (is_empty (new_accounts L)), (is_empty (new_meters L)),
    (is_empty (new_invoices L)); simpl; intuition congruence.
Qed.

Lemma loop_is_not_finish (loop : list Event) :
  forallb loop_event loop = true ->
  forallb (fun e => negb (finish_event e)) loop = true.
Proof.
  rewrite !forallb_forall. intros H e He. specialize (H e He).
  destruct e; simpl in *; done.
Qed.

Lemma session_is_not_finish (ses : list Event) :
  forallb session_event ses = true ->
  forallb (fun e => negb (finish_event e)) ses = true.
Proof.
  rewrite !forallb_forall. intros H e He. specialize (H e He).
  destruct e; simpl in *; done.
Qed.

Lemma reconcile_accounts_added entry cfg accts h :
  exists adds ts rest,
    events (snd (reconcile_accounts entry cfg accts h))
    = (adds ++ (if is_empty ts then [] else [Wait ts]) ++ rest ++ events h)%list
    /\ forallb (fun e => negb (finish_event e)) rest = true
    /\ forall e, In e adds ->
         exists es,
           e = AddEntities es
           /\ forall ref, In ref es ->
                created_between h (snd (reconcile_accounts entry cfg accts h)) ref
                /\ In (AsyncUpdate ref) ts.
Proof.
  destruct (reconcile_accounts_loop entry cfg accts h)
    as (L & loop & (Aa & Am & Ai) & (_ & Na & Nm & Ni) & Hev & Hloop
        & Ha & Hm & Hi & Hres).
  simpl in Aa, Am, Ai, Na, Nm, Ni.
  destruct (fst (reconcile_accounts entry cfg accts h)) as [res|e].
  - destruct Hres as [_ Hres]. exists (added_batches L), (tasks L), loop.
    rewrite Hres, Hev, batches_split, <- !app_assoc.
    split_and!; [done|now apply loop_is_not_finish|].
    intros ev [->|[->| ->]]%added_batches_In; eexists; (split; [reflexivity|]);
      intros ref (r & <- & Hr)%in_map_iff; simpl.
    + rewrite Ha. destruct Aa as (_ & _ & Hv).
      destruct (Hv r Hr), (Na r Hr); done.
    + rewrite Hm. destruct Am as (_ & _ & Hv).
      destruct (Hv r Hr), (Nm r Hr); done.
    + rewrite Hi. destruct Ai as (_ & _ & Hv).
      destruct (Hv r Hr), (Ni r Hr); done.
  - exists [], [], loop. rewrite Hres, Hev. simpl.
    split_and!; [done|now apply loop_is_not_finish|intros ? []].
Qed.

(** X4.  What a cycle hands to the host.  The events of a cycle end with
    the barrier on the tasks of the cycle and, after it, the batches handed
    to [async_add_entities]; nothing before the barrier is a batch.  Every
    sensor of a batch is an object the cycle itself created, and its first
    update is among the tasks awaited at the barrier: the host is given no
    sensor that existed before the cycle, and none before its first update
    was awaited. *)
Theorem added_sensors_are_new_and_updated (entry : string) (cfg : UserCfg)
    (utcnow : Z) (h : Hass) :
  exists adds ts rest,
    events (snd (_entity_updater entry cfg utcnow h))
    = (adds ++ (if is_empty ts then [] else [Wait ts]) ++ rest ++ events h)%list
    /\ forallb (fun e => negb (finish_event e)) rest = true
    /\ forall e, In e adds ->
         exists es,
           e = AddEntities es
           /\ forall ref, In ref es ->
                created_between h (snd (_entity_updater entry cfg utcnow h)) ref
                /\ In (AsyncUpdate ref) ts.
Proof.
  assert (forall h' ses,
            events h' = (ses ++ events h)%list ->
            forallb (fun e => negb (finish_event e)) ses = true ->
            exists adds ts rest,
              events h'
              = (adds ++ (if is_empty ts then [] else [Wait ts]) ++ rest
                   ++ events h)%list
              /\ forallb (fun e => negb (finish_event e)) rest = true
              /\ forall e, In e adds ->
                   exists es,
                     e = AddEntities es
                     /\ forall ref, In ref es ->
                          created_between h h' ref /\ In (AsyncUpdate ref) ts)
    as Hquiet.
  { intros h' ses Hev Hses. exists [], [], ses. simpl.
    split_and!; [done|done|intros ? []]. }
  unfold _entity_updater.
  destruct (get (data_api_objects h) entry) as [api|];
    [|now apply (Hquiet h [])].
  pose proof (grows_ensure_session cfg utcnow api h)
    as (ses & Hev & Hses%session_is_not_finish)%grows_prefix.
  pose proof (frame_ensure_session cfg utcnow api h) as (_ & Ha & Hm & Hi).
  destruct (ensure_session cfg utcnow api h) as [[[]|e] h1]; simpl in *.
  - destruct (get_accounts api) as [accts|e].
    + destruct (reconcile_accounts_added entry cfg accts (emit ApiGetAccounts h1))
        as (adds & ts & rest & Hnew & Hrest & Hadds).
      exists adds, ts, (rest ++ ApiGetAccounts :: ses)%list.
      rewrite Hnew. simpl. rewrite Hev, <- !app_assoc. split_and!; [done| |].
      * rewrite forallb_app, Hrest. simpl. exact Hses.
      * intros ev He. destruct (Hadds ev He) as (es & -> & Hes).
        exists es. split; [done|]. intros ref Href.
        destruct (Hes ref Href) as [Hc Ht]. split; [|done].
        destruct ref; simpl in *; congruence.
    + destruct (is_MosenergosbytException e); cbn [snd].
      * apply (Hquiet _ (LogError (ErrorFetchingAccounts e) :: ApiGetAccounts :: ses));
          simpl; [now rewrite Hev|done].
      * apply (Hquiet _ (ApiGetAccounts :: ses)); simpl; [now rewrite Hev|done].
  - destruct (is_MosenergosbytException e); cbn [snd].
    + apply (Hquiet _ (LogError (AuthenticationError e) :: ses));
        simpl; [now rewrite Hev|done].
    + now apply (Hquiet _ ses).
Qed.

(** The account sensors of a cycle, one per listed account that had none,
    in the order of the listing. *)
Lemma process_account_new_accounts cfg created L code acct n0 :
  ~ In code (keys (new_accounts L)) ->
  values (new_accounts L) = seq n0 (length (new_accounts L)) ->
  length (account_sensors (hass L)) = n0 + length (new_accounts L) ->
  values (new_accounts (snd (process_account cfg created L (code, acct))))
  = seq n0 (length (new_accounts (snd (process_account cfg created L (code, acct)))))
  /\ length (account_sensors (hass (snd (process_account cfg created L (code, acct)))))
     = n0 + length (new_accounts (snd (process_account cfg created L (code, acct))))
  /\ forall k,
       In k (keys (new_accounts (snd (process_account cfg created L (code, acct))))) ->
       k = code \/ In k (keys (new_accounts L)).
Proof.
  intros Hk Hv Hl. unfold process_account.
  pose proof (account_entity_for_spec cfg created code acct L) as Hspec.
  destruct (account_entity_for cfg created code acct L) as [ae L1]. simpl in Hspec.
  assert (values (new_accounts L1) = seq n0 (length (new_accounts L1))
          /\ length (account_sensors (hass L1)) = n0 + length (new_accounts L1)
          /\ forall k, In k (keys (new_accounts L1)) ->
                       k = code \/ In k (keys (new_accounts L))) as (Hv1 & Hl1 & Hk1).
  { destruct Hspec as [(_ & Hs & Hn)|(_ & _ & Hs & Hn)]; rewrite Hs, Hn.
    - rewrite length_alter. auto.
    - apply get_None_keys in Hk.
      assert (length (set (new_accounts L) code (length (account_sensors (hass L))))
              = S (length (new_accounts L))) as Hlen.
      { rewrite <- (List.length_map fst). fold (keys (set (new_accounts L) code
          (length (account_sensors (hass L))))).
        rewrite keys_set_new by done. rewrite length_app. unfold keys.
        rewrite List.length_map. simpl. lia. }
      rewrite Hlen, values_set_new by done.
      rewrite seq_S, <- Hv, Hl, length_app. simpl.
      split_and!; [done|lia|].
      intros k. rewrite keys_set_new by done.
      intros [?|[<-|[]]]%in_app_or; auto. }
  pose proof (touches_only_process_meters cfg ae code acct L1) as (Tl & Tn & _).
  destruct (process_meters cfg ae code acct L1) as [[[]|e] L2]; simpl in *.
  - pose proof (touches_only_process_invoice cfg ae code acct L2) as (Ul & Un & _).
    rewrite Un, Ul, Tn, Tl. auto.
  - rewrite Tn, Tl. auto.
Qed.

Lemma for_accounts_new_accounts cfg created items n0 : forall L,
  List.NoDup (keys items) ->
  (forall k, In k (keys items) -> ~ In k (keys (new_accounts L))) ->
  values (new_accounts L) = seq n0 (length (new_accounts L)) ->
  length (account_sensors (hass L)) = n0 + length (new_accounts L) ->
  values (new_accounts (snd (for_accounts cfg created items L)))
  = seq n0 (length (new_accounts (snd (for_accounts cfg created items L))))
  /\ length (account_sensors (hass (snd (for_accounts cfg created items L))))
     = n0 + length (new_accounts (snd (for_accounts cfg created items L))).
Proof.
  induction items as [|[code acct] items IH]; intros L Hnd Hk Hv Hl;
    cbn [for_accounts]; [done|].
  simpl in Hnd, Hk. inversion Hnd as [|? ? Hcode Hnd']; subst.
  destruct (process_account_new_accounts cfg created L code acct n0
              (Hk code (or_introl eq_refl)) Hv Hl) as (Hv1 & Hl1 & Hk1).
  destruct (process_account cfg created L (code, acct)) as [[[]|e] L1];
    cbn [fst snd] in *; [|auto].
  apply IH; auto.
  intros k Hin Hin1. destruct (Hk1 k Hin1) as [->|Hin2]; [done|].
  apply (Hk k); auto.
Qed.

Opaque finish_update.

(** X3.  The counts a cycle returns against the sensor objects it created.
    The listing is a mapping, so its account codes are distinct.  The first
    count is the number of account sensors created, and these are handed to
    the host in one batch, in the order of creation.  The second and third
    counts are at most the numbers of meter and invoice sensors created
    (the mappings [new_meters] and [new_invoices] are keyed by meter code
    and invoice id over all accounts). *)
Theorem counts_are_created_sensors (entry : string) (cfg : UserCfg)
    (utcnow : Z) (h : Hass) (api : API) (accts : dict Account)
    (n_accounts n_meters n_invoices : nat) :
  get (data_api_objects h) entry = Some api ->
  get_accounts api = Ok accts ->
  List.NoDup (keys accts) ->
  fst (_entity_updater entry cfg utcnow h)
  = Ok (UpdaterCounts n_accounts n_meters n_invoices) ->
  length (account_sensors (snd (_entity_updater entry cfg utcnow h)))
  = length (account_sensors h) + n_accounts
  /\ length (meter_sensors h) + n_meters
     <= length (meter_sensors (snd (_entity_updater entry cfg utcnow h)))
  /\ length (invoice_sensors h) + n_invoices
     <= length (invoice_sensors (snd (_entity_updater entry cfg utcnow h)))
  /\ (n_accounts <> 0 ->
      In (AddEntities (AccountRef <$> seq (length (account_sensors h)) n_accounts))
        (events (snd (_entity_updater entry cfg utcnow h)))).
Proof.
  intros Hapi Hacc Hnd. unfold _entity_updater. rewrite Hapi.
  pose proof (frame_ensure_session cfg utcnow api h) as (_ & Ha & Hm & Hi).
  destruct (ensure_session cfg utcnow api h) as [[[]|e] h1]; simpl in *;
    [|destruct (is_MosenergosbytException e); done].
  rewrite Hacc. rewrite <- Ha, <- Hm, <- Hi.
  set (h2 := emit ApiGetAccounts h1).
  change (account_sensors h1) with (account_sensors h2).
  change (meter_sensors h1) with (meter_sensors h2).
  change (invoice_sensors h1) with (invoice_sensors h2).
  clearbody h2. clear Ha Hm Hi Hapi Hacc.
  unfold reconcile_accounts.
  pose proof (frame_created_entities entry h2) as (_ & _ & _ & Ha & Hm & Hi & _).
  destruct (created_entities_for entry h2) as [created h3]. simpl in Ha, Hm, Hi.
  set (L0 := {| hass := h3; new_accounts := []; new_meters := [];
                new_invoices := []; tasks := [] |}).
  pose proof (advances_for_accounts cfg created accts L0) as (_ & Am & Ai).
  destruct (for_accounts_new_accounts cfg created accts
              (length (account_sensors h2)) L0) as (Hv & Hl); auto.
  { simpl. now rewrite Ha. }
  destruct (for_accounts cfg created accts L0) as [[[]|e] L]; simpl in *; [|done].
  pose proof (frame_finish entry created L) as (_ & _ & _ & Ga & Gm & Gi & _).
  pose proof (finish_update_counts entry created L) as Hc.
  pose proof (finish_update_events entry created L) as He.
  destruct (finish_update entry created L) as [res h']. simpl in *.
  intros [= ->]. injection Hc as -> -> ->.
  rewrite Ga, Gm, Gi, He. rewrite Hm in Am. rewrite Hi in Ai.
  destruct Am as (_ & Am & _). destruct Ai as (_ & Ai & _). simpl in Am, Ai.
  split_and!; [done|lia|lia|].
  intros Hne. apply in_or_app. left. unfold batches.
  apply in_or_app. right. apply in_or_app. right. apply in_or_app. left.
  assert (is_empty (new_accounts L) = false) as ->
    by now destruct (new_accounts L).
  left. now rewrite Hv.
Qed.

Transparent finish_update.

Lemma counts_are_created_sensors_witness :
  (get (data_api_objects Sample.hass_A1_down) "entry"
   = Some (Sample.api_with (Ok Sample.listing_A1_down))
   /\ fst (_entity_updater "entry" Sample.cfg 0 Sample.hass_A1_down)
      = Ok (UpdaterCounts 2 1 1))
  /\ (length (account_sensors
                (snd (_entity_updater "entry" Sample.cfg 0 Sample.hass_A1_down)))
      = length (account_sensors Sample.hass_A1_down) + 2
      /\ length (meter_sensors Sample.hass_A1_down) + 1
         <= length (meter_sensors
                      (snd (_entity_updater "entry" Sample.cfg 0
                              Sample.hass_A1_down)))
      /\ length (invoice_sensors Sample.hass_A1_down) + 1
         <= length (invoice_sensors
                      (snd (_entity_updater "entry" Sample.cfg 0
                              Sample.hass_A1_down)))
      /\ (2 <> 0 ->
          In (AddEntities
                (AccountRef <$> seq (length (account_sensors Sample.hass_A1_down)) 2))
            (events (snd (_entity_updater "entry" Sample.cfg 0
                            Sample.hass_A1_down))))).
Proof.
  split; [split; vm_compute; reflexivity|].
  apply (counts_are_created_sensors "entry" Sample.cfg 0 Sample.hass_A1_down
           (Sample.api_with (Ok Sample.listing_A1_down)) Sample.listing_A1_down
           2 1 1).
  - vm_compute; reflexivity.
  - vm_compute; reflexivity.
  - apply List.NoDup_cons; [simpl; intros [H|[]]; discriminate H|].
    apply List.NoDup_cons; [simpl; tauto|apply List.NoDup_nil].
  - vm_compute; reflexivity.
Defined.

(** Two accounts that report a meter under the same code: both get a meter
    sensor, the count is one, and only the later sensor is handed to the
    host. *)
Example same_code_in_two_accounts :
  let listing :=
    [("A1", Sample.account_with "A1" [("B", Sample.meterB)] None);
     ("A2", Sample.account_with "A2" [("B", Sample.meterB')] None)] in
  let run :=
    _entity_updater "entry" Sample.cfg 0
      (Sample.hass_with_api (Sample.api_with (Ok listing))) in
  fst run = Ok (UpdaterCounts 2 1 0)
  /\ length (meter_sensors (snd run)) = 2
  /\ events (snd run)
     = [AddEntities [MeterRef 1]; AddEntities [AccountRef 0; AccountRef 1];
        Wait [AsyncUpdate (MeterRef 1); AsyncUpdate (AccountRef 1);
              AsyncUpdate (MeterRef 0); AsyncUpdate (AccountRef 0)];
        ApiGetLastInvoice "A2"; ApiGetMeters "A2";
        ApiGetLastInvoice "A1"; ApiGetMeters "A1"; ApiGetAccounts; ApiLogin].
Proof. repeat split; reflexivity. Qed.

(** ** The fetches of a cycle *)

Lemma listed_meter_fetch cfg codes code :
  listed_event cfg codes (ApiGetMeters code) = true -> In code codes.
Proof.
  unfold listed_event. intros (c & Hin & He)%existsb_exists.
  unfold account_event in He. simpl in He. apply String.eqb_eq in He.
  now subst.
Qed.

Lemma listed_invoice_fetch cfg codes code :
  listed_event cfg codes (ApiGetLastInvoice code) = true ->
  In code codes /\ skip_invoice cfg code = false.
Proof.
  unfold listed_event. intros (c & Hin & He)%existsb_exists.
  unfold account_event in He. simpl in He.
  apply andb_prop in He as [->%String.eqb_eq Hs%negb_true_iff]. auto.
Qed.

Lemma reconcile_accounts_listed entry cfg accts h :
  exists finish loop,
    events (snd (reconcile_accounts entry cfg accts h))
    = (finish ++ loop ++ events h)%list
    /\ forallb (listed_event cfg (keys accts)) loop = true
    /\ forallb finish_event finish = true.
Proof.
  unfold reconcile_accounts.
  pose proof (frame_created_entities entry h) as (_ & _ & _ & _ & _ & _ & He).
  destruct (created_entities_for entry h) as [created h1]. simpl in He.
  set (L0 := {| hass := h1; new_accounts := []; new_meters := [];
                new_invoices := []; tasks := [] |}).
  pose proof (grows_for_accounts_listed cfg created accts L0)
    as (loop & Hl & Hloop)%grows_prefix.
  destruct (for_accounts cfg created accts L0) as [[[]|e] L]; simpl in Hl.
  - pose proof (grows_finish entry created L)
      as (finish & Hf & Hfinish)%grows_prefix.
    destruct (finish_update entry created L) as [res h']. simpl in Hf |- *.
    exists finish, loop. rewrite Hf, Hl, He. auto.
  - exists [], loop. simpl. rewrite Hl, He. auto.
Qed.

(** X5.  The fetches of a cycle are for the listed accounts.  Every meter
    fetch and every invoice fetch a cycle makes is for an account of the
    listing the cycle fetched, and an invoice is fetched for no account
    that the invoice allow-list passes over. *)
Theorem fetches_are_for_listed_accounts (entry : string) (cfg : UserCfg)
    (utcnow : Z) (h : Hass) :
  exists new,
    events (snd (_entity_updater entry cfg utcnow h)) = (new ++ events h)%list
    /\ forall code,
         (In (ApiGetMeters code) new \/ In (ApiGetLastInvoice code) new ->
          exists api accts,
            get (data_api_objects h) entry = Some api
            /\ get_accounts api = Ok accts
            /\ In code (keys accts))
         /\ (In (ApiGetLastInvoice code) new -> skip_invoice cfg code = false).
Proof.
  assert (forall ses code,
            forallb session_event ses = true ->
            ~ In (ApiGetMeters code) ses /\ ~ In (ApiGetLastInvoice code) ses)
    as Hnone.
  { intros ses code Hses. rewrite forallb_forall in Hses.
    split; intros Hin; now apply Hses in Hin. }
  unfold _entity_updater.
  destruct (get (data_api_objects h) entry) as [api|] eqn:Hapi.
  2:{ exists []. split; [done|]. intros code. split; [intros [[]|[]]|intros []]. }
  pose proof (grows_ensure_session cfg utcnow api h)
    as (ses & Hev & Hses)%grows_prefix.
  destruct (ensure_session cfg utcnow api h) as [[[]|e] h1]; simpl in *.
  - destruct (get_accounts api) as [accts|e] eqn:Hacc.
    + destruct (reconcile_accounts_listed entry cfg accts (emit ApiGetAccounts h1))
        as (finish & loop & Hnew & Hloop & Hfin).
      exists (finish ++ loop ++ ApiGetAccounts :: ses)%list.
      rewrite Hnew. simpl. rewrite Hev, <- !app_assoc. split; [done|].
      rewrite forallb_forall in Hloop, Hfin.
      assert (forall e, In e (finish ++ loop ++ ApiGetAccounts :: ses)%list ->
                (exists c, e = ApiGetMeters c \/ e = ApiGetLastInvoice c) ->
                In e loop) as Hin.
      { intros e [Hf|[Hl|[He|Hs]]%in_app_or]%in_app_or (c & Hc); [|done| |].
        - apply Hfin in Hf. now destruct Hc as [-> | ->].
        - now destruct Hc as [-> | ->].
        - destruct (Hnone ses c Hses). now destruct Hc as [-> | ->]. }
      intros code. split.
      * intros [Hm|Hi]; exists api, accts; split_and!; try done.
        -- apply Hin in Hm; [|eauto]. apply Hloop in Hm.
           now apply listed_meter_fetch in Hm.
        -- apply Hin in Hi; [|eauto]. apply Hloop in Hi.
           now apply listed_invoice_fetch in Hi.
      * intros Hi. apply Hin in Hi; [|eauto]. apply Hloop in Hi.
        now apply listed_invoice_fetch in Hi.
    + destruct (is_MosenergosbytException e); simpl; rewrite Hev.
      * exists (LogError (ErrorFetchingAccounts e) :: ApiGetAccounts :: ses).
        split; [done|]. intros code. destruct (Hnone ses code Hses).
        split; [intros [[?|[?|?]]|[?|[?|?]]]|intros [?|[?|?]]]; done.
      * exists (ApiGetAccounts :: ses).
        split; [done|]. intros code. destruct (Hnone ses code Hses).
        split; [intros [[?|?]|[?|?]]|intros [?|?]]; done.
  - destruct (is_MosenergosbytException e); simpl; rewrite Hev.
    + exists (LogError (AuthenticationError e) :: ses).
      split; [done|]. intros code. destruct (Hnone ses code Hses).
      split; [intros [[?|?]|[?|?]]|intros [?|?]]; done.
    + exists ses. split; [done|]. intros code. destruct (Hnone ses code Hses).
      split; [intros [?|?]|]; done.
Qed.

(** ** The registry of an entry over a cycle *)

Lemma get_update_None {V} (n : dict V) : forall (c : dict V) k,
  get n k = None -> get (update c n) k = get c k.
Proof.
  unfold update. induction n as [|[k0 v0] n IH]; intros c k; simpl; [done|].
  destruct (String.eqb_spec k0 k) as [->|Hne]; [done|].
  intros Hn. rewrite IH by done. now apply get_set_ne.
Qed.

Lemma process_account_shadows_nothing cfg created L item :
  (forall k r, get created k = Some r -> get (new_accounts L) k = None) ->
  forall k r, get created k = Some r ->
              get (new_accounts (snd (process_account cfg created L item))) k = None.
Proof.
  intros Hinv. unfold process_account. destruct item as [code acct].
  pose proof (account_entity_for_spec cfg created code acct L) as Hspec.
  destruct (account_entity_for cfg created code acct L) as [ae L1]. simpl in Hspec.
  assert (forall k r, get created k = Some r -> get (new_accounts L1) k = None)
    as Hinv1.
  { intros k r Hk.
    destruct Hspec as [(_ & _ & ->)|(Hnone & _ & _ & ->)]; [eauto|].
    rewrite get_set_ne; [eauto|]. intros ->. congruence. }
  pose proof (touches_only_process_meters cfg ae code acct L1) as (_ & Tn & _).
  destruct (process_meters cfg ae code acct L1) as [[[]|e] L2]; simpl in *.
  - pose proof (touches_only_process_invoice cfg ae code acct L2) as (_ & Un & _).
    rewrite Un, Tn. exact Hinv1.
  - rewrite Tn. exact Hinv1.
Qed.

Lemma for_accounts_shadows_nothing cfg created items : forall L,
  (forall k r, get created k = Some r -> get (new_accounts L) k = None) ->
  forall k r, get created k = Some r ->
              get (new_accounts (snd (for_accounts cfg created items L))) k = None.
Proof.
  induction items as [|item items IH]; intros L Hinv; cbn [for_accounts];
    [exact Hinv|].
  pose proof (process_account_shadows_nothing cfg created L item Hinv) as H1.
  destruct (process_account cfg created L item) as [[[]|e] L1];
    cbn [fst snd] in *; [|exact H1].
  now apply IH.
Qed.

Opaque finish_update.

Lemma reconcile_accounts_registry entry cfg accts h e registry code r :
  get (data_entities h) e = Some registry ->
  get registry code = Some r ->
  exists registry',
    get (data_entities (snd (reconcile_accounts entry cfg accts h))) e
    = Some registry'
    /\ get registry' code = Some r.
Proof.
  intros He Hr. unfold reconcile_accounts.
  pose proof (created_entities_for_spec entry h) as (Hc & Hg & Hsame).
  destruct (created_entities_for entry h) as [created h1] eqn:Hcf.
  simpl in Hc, Hg, Hsame.
  assert (get (data_entities h1) e = Some registry) as He1.
  { destruct (get (data_entities h) entry) as [d|] eqn:Hd.
    - now rewrite (Hsame d eq_refl).
    - unfold created_entities_for in Hcf. rewrite Hd in Hcf.
      injection Hcf as <- <-. simpl. rewrite get_set_ne; [done|].
      intros <-. congruence. }
  set (L0 := {| hass := h1; new_accounts := []; new_meters := [];
                new_invoices := []; tasks := [] |}).
  pose proof (frame_for_accounts cfg created accts L0) as (_ & Fd & _).
  pose proof (for_accounts_shadows_nothing cfg created accts L0) as Hsh.
  destruct (for_accounts cfg created accts L0) as [[[]|x] L];
    cbn [fst snd] in *.
  - pose proof (finish_update_data_entities entry created L) as Hfin.
    destruct (finish_update entry created L) as [res h']. cbn [fst snd] in *.
    rewrite Hfin, Fd. subst L0. cbn [hass] in *.
    destruct (String.eqb_spec entry e) as [<-|Hne].
    + rewrite get_set_eq. eexists. split; [reflexivity|].
      rewrite get_update_None.
      * rewrite Hc, He. exact Hr.
      * apply (Hsh (fun _ _ _ => eq_refl) code r). rewrite Hc, He. exact Hr.
    + rewrite get_set_ne by done. eauto.
  - rewrite Fd. subst L0. cbn [hass]. eauto.
Qed.

Transparent finish_update.

(** X6.  The registries only grow.  Whichever way a cycle ends, every
    account sensor that was registered before it, under any entry, is
    registered after it under the same entry and account code and is the
    same object: a cycle never drops or replaces a registered account
    sensor, also when the listing no longer reports the account. *)
Theorem registry_only_grows (entry : string) (cfg : UserCfg) (utcnow : Z)
    (h : Hass) (e : string) (registry : dict nat) (code : string) (r : nat) :
  get (data_entities h) e = Some registry ->
  get registry code = Some r ->
  exists registry',
    get (data_entities (snd (_entity_updater entry cfg utcnow h))) e
    = Some registry'
    /\ get registry' code = Some r.
Proof.
  intros He Hr. unfold _entity_updater.
  destruct (get (data_api_objects h) entry) as [api|]; [|eauto].
  pose proof (frame_ensure_session cfg utcnow api h) as ((_ & Hd & _) & _).
  destruct (ensure_session cfg utcnow api h) as [[[]|x] h1]; simpl in *.
  - destruct (get_accounts api) as [accts|x].
    + apply (reconcile_accounts_registry _ _ _ _ _ registry); [|done].
      simpl. now rewrite Hd.
    + destruct (is_MosenergosbytException x); simpl; rewrite Hd; eauto.
  - destruct (is_MosenergosbytException x); simpl; rewrite Hd; eauto.
Qed.

Lemma registry_only_grows_witness :
  (get (data_entities Sample.hass_AB) "entry" = Some [("A1", 0)]
   /\ get [("A1", 0)] "A1" = Some 0)
  /\ exists registry',
       get (data_entities
              (snd (_entity_updater "entry" Sample.cfg 0
                      (with_data_api_objects
                         [("entry", Sample.api_with (Ok []))] Sample.hass_AB))))
         "entry"
       = Some registry'
       /\ get registry' "A1" = Some 0.
Proof.
  split; [split; vm_compute; reflexivity|].
  apply (registry_only_grows "entry" Sample.cfg 0
           (with_data_api_objects [("entry", Sample.api_with (Ok []))]
              Sample.hass_AB) "entry" [("A1", 0)] "A1" 0);
    vm_compute; reflexivity.
Defined.

(** ** The account behind an account sensor *)

(** The meter and invoice steps leave the [account] of every account
    sensor alone. *)
Lemma account_alter (f : MESAccountSensor -> MESAccountSensor) ae
    (l : list MESAccountSensor) r :
  (forall s, account (f s) = account s) ->
  account <$> alter f ae l !! r = account <$> l !! r.
Proof.
  intros Hf. destruct (decide (ae = r)) as [<-|Hne].
  - rewrite list_lookup_alter_eq. destruct (l !! ae); simpl; [|done].
    now rewrite Hf.
  - now rewrite list_lookup_alter_ne.
Qed.

Lemma keeps_accounts_retire ae L code r :
  account <$> account_sensors (hass (retire_meter ae L code)) !! r
  = account <$> account_sensors (hass L) !! r.
Proof.
  unfold retire_meter. case_match; [|done]. simpl. now apply account_alter.
Qed.

Lemma keeps_accounts_upsert cfg ae L item r :
  account <$> account_sensors (hass (upsert_meter cfg ae L item)) !! r
  = account <$> account_sensors (hass L) !! r.
Proof.
  unfold upsert_meter. destruct item. case_match; [done|]. simpl.
  now apply account_alter.
Qed.

Lemma keeps_accounts_fold {B} (f : Loop -> B -> Loop) (l : list B) (L : Loop) r :
  (forall L b, account <$> account_sensors (hass (f L b)) !! r
               = account <$> account_sensors (hass L) !! r) ->
  account <$> account_sensors (hass (fold_left f l L)) !! r
  = account <$> account_sensors (hass L) !! r.
Proof.
  intros Hstep. revert L. induction l as [|b l IH]; intros L; simpl; [done|].
  now rewrite IH, Hstep.
Qed.

Lemma keeps_accounts_diff cfg ae meters L r :
  account <$> account_sensors (hass (diff_meters cfg ae meters L)) !! r
  = account <$> account_sensors (hass L) !! r.
Proof.
  unfold diff_meters.
  rewrite keeps_accounts_fold by (intros; apply keeps_accounts_upsert).
  case_match.
  - apply keeps_accounts_fold. intros; apply keeps_accounts_retire.
  - simpl. now apply account_alter.
Qed.

Lemma keeps_accounts_process_meters cfg ae code acct L r :
  account <$> account_sensors (hass (snd (process_meters cfg ae code acct L))) !! r
  = account <$> account_sensors (hass L) !! r.
Proof.
  unfold process_meters.
  destruct (get_meters acct) as [meters|e].
  - destruct (apply_meter_filter cfg code meters) as [meters'|e]; simpl.
    + now rewrite keeps_accounts_diff.
    + now destruct (is_MosenergosbytException e).
  - now destruct (is_MosenergosbytException e).
Qed.

Lemma keeps_accounts_store_invoice cfg ae inv L r :
  account <$> account_sensors (hass (store_invoice cfg ae inv L)) !! r
  = account <$> account_sensors (hass L) !! r.
Proof.
  unfold store_invoice. repeat case_match; try done. simpl.
  now apply account_alter.
Qed.

Lemma keeps_accounts_process_invoice cfg ae code acct L r :
  account <$> account_sensors (hass (snd (process_invoice cfg ae code acct L))) !! r
  = account <$> account_sensors (hass L) !! r.
Proof.
  unfold process_invoice.
  destruct (skip_invoice cfg code); [done|].
  destruct (get_last_invoice acct) as [[inv|]|e]; simpl.
  - now rewrite keeps_accounts_store_invoice.
  - done.
  - now destruct (is_MosenergosbytException e).
Qed.

Lemma process_account_refreshes cfg created seen L code acct L' :
  registry_wf created seen L ->
  ~ In code (keys seen) ->
  (forall item, In item seen ->
     refreshed_in (update created (new_accounts L)) (hass L) item) ->
  process_account cfg created L (code, acct) = (Ok tt, L') ->
  forall item, In item ((code, acct) :: seen) ->
    refreshed_in (update created (new_accounts L')) (hass L') item.
Proof.
  intros (W1 & W2 & W3 & W4 & W5 & W6) Hfresh Hseen Hp.
  assert (get (new_accounts L) code = None) as Hnew.
  { apply get_None_keys. intros Hin. apply Hfresh. now apply W6. }
  unfold process_account in Hp.
  pose proof (account_entity_for_spec cfg created code acct L) as S.
  destruct (account_entity_for cfg created code acct L) as [ae L1].
  simpl in S.
  pose proof (touches_only_process_meters cfg ae code acct L1) as (Tl & Tn & Tr).
  pose proof (keeps_accounts_process_meters cfg ae code acct L1) as Ta.
  destruct (process_meters cfg ae code acct L1) as [[[]|e] L2]; [|done].
  simpl in Tl, Tn, Tr, Ta.
  pose proof (touches_only_process_invoice cfg ae code acct L2) as (Ul & Un & Ur).
  pose proof (keeps_accounts_process_invoice cfg ae code acct L2) as Ua.
  rewrite Hp in Ul, Un, Ur, Ua. simpl in Ul, Un, Ur, Ua.
  assert (forall r, r <> ae ->
            account_sensors (hass L') !! r = account_sensors (hass L1) !! r)
    as Hother.
  { intros r Hr. now rewrite Ur, Tr. }
  assert (forall r, account <$> account_sensors (hass L') !! r
                    = account <$> account_sensors (hass L1) !! r) as Hacc.
  { intros r. now rewrite Ua, Ta. }
  assert (new_accounts L' = new_accounts L1) as Hn by congruence.
  assert (List.NoDup (keys (new_accounts L1))) as Hnd1.
  { destruct S as [(_ & _ & ->)|(_ & _ & _ & ->)]; [done|].
    now apply keys_set_NoDup. }
  (* the sensor of the account *)
  assert (get (update created (new_accounts L1)) code = Some ae
          /\ account <$> account_sensors (hass L1) !! ae = Some acct
          /\ forall r s, r <> ae -> account_sensors (hass L) !! r = Some s ->
                         account_sensors (hass L1) !! r = Some s)
    as (Hreg & Hae & Hrest).
  { destruct S as [(Hg & Hs & Hn1)|(Hg & Hr & Hs & Hn1)]; rewrite Hs, Hn1.
    - split_and!.
      + now rewrite get_update_None.
      + rewrite list_lookup_alter_eq.
        destruct (lookup_lt_is_Some_2 (account_sensors (hass L)) ae) as [s0 ->];
          [|done].
        apply W2. eapply get_Some_values; eauto.
      + intros r s Hr Hl. now rewrite list_lookup_alter_ne.
    - split_and!.
      + rewrite get_update by (rewrite <- Hn1; exact Hnd1).
        rewrite get_set_eq. now rewrite Hr.
      + rewrite Hr, lookup_app_r by lia. now rewrite Nat.sub_diag.
      + intros r s _ Hl. rewrite lookup_app_l; [done|].
        eapply lookup_lt_Some; eauto. }
  intros item [<-|Hin].
  - unfold refreshed_in. rewrite Hn. specialize (Hacc ae). rewrite Hae in Hacc.
    destruct (account_sensors (hass L') !! ae) as [s|] eqn:Hs; [|done].
    exists ae, s. simpl in *. split_and!; [done|done|congruence].
  - destruct (Hseen item Hin) as (r & s & Hg & Hs & Ha).
    assert (fst item <> code) as Hcode.
    { intros Heq. apply Hfresh. rewrite <- Heq. now apply (in_map fst) in Hin. }
    assert (r <> ae) as Hne.
    { rewrite get_update in Hg by done.
      destruct S as [(Hga & _)|(_ & Hr & _)].
      - destruct (get (new_accounts L) (fst item)) as [r'|] eqn:Hgn.
        + injection Hg as ->. intros ->.
          apply get_Some_values in Hgn, Hga.
          destruct (W5 ae Hgn) as [_ Hnot]. done.
        + intros ->. apply Hcode. eapply (get_inj created); eauto.
      - rewrite Hr.
        destruct (get (new_accounts L) (fst item)) as [r'|] eqn:Hgn.
        + injection Hg as ->. apply get_Some_values in Hgn.
          destruct (W5 r Hgn) as [Hlt _]. lia.
        + apply get_Some_values in Hg. specialize (W2 r Hg). lia. }
    exists r, s. split_and!; [|now rewrite Hother; auto|done].
    rewrite Hn. rewrite get_update in Hg |- * by done.
    destruct S as [(_ & _ & ->)|(_ & _ & _ & ->)]; [done|].
    now rewrite get_set_ne by done.
Qed.

Opaque process_account.

Lemma for_accounts_refreshes cfg created items : forall seen L L',
  registry_wf created seen L ->
  List.NoDup (keys items) ->
  (forall k, In k (keys items) -> ~ In k (keys seen)) ->
  (forall item, In item seen ->
     settled cfg (update created (new_accounts L)) (hass L) item) ->
  (forall item, In item seen ->
     refreshed_in (update created (new_accounts L)) (hass L) item) ->
  for_accounts cfg created items L = (Ok tt, L') ->
  forall item, In item items \/ In item seen ->
    refreshed_in (update created (new_accounts L')) (hass L') item.
Proof.
  induction items as [|[code acct] items IH];
    intros seen L L' Hwf Hnd Hdisj Hset Hseen; simpl.
  { intros [= <-] item [[]|Hin]. auto. }
  destruct (process_account cfg created L (code, acct)) as [[[]|e] L1] eqn:Hp;
    [|discriminate].
  intros Hrest. inversion Hnd as [|? ? Hcode Hnd']; subst.
  assert (~ In code (keys seen)) as Hfresh by (apply Hdisj; now left).
  destruct (process_account_invariant cfg created seen L code acct L1 Hwf Hfresh
              Hset Hp) as [Hwf1 Hset1].
  pose proof (process_account_refreshes cfg created seen L code acct L1 Hwf Hfresh
                Hseen Hp) as Hseen1.
  assert (forall k, In k (keys items) -> ~ In k (keys ((code, acct) :: seen)))
    as Hdisj1.
  { intros k Hk [<-|Hin]; [done|]. apply (Hdisj k); [now right|done]. }
  pose proof (IH ((code, acct) :: seen) L1 L' Hwf1 Hnd' Hdisj1 Hset1 Hseen1 Hrest)
    as Hall.
  intros item [[<-|Hin]|Hin]; apply Hall.
  - right. now left.
  - now left.
  - right. now right.
Qed.

Transparent process_account.

Opaque finish_update for_accounts.

Lemma reconcile_accounts_refreshes entry cfg accts h res h' :
  List.NoDup (keys accts) ->
  List.NoDup (values (default [] (get (data_entities h) entry))) ->
  (forall r, In r (values (default [] (get (data_entities h) entry))) ->
             r < length (account_sensors h)) ->
  reconcile_accounts entry cfg accts h = (Ok res, h') ->
  exists registry,
    get (data_entities h') entry = Some registry
    /\ forall item, In item accts -> refreshed_in registry h' item.
Proof.
  intros Hnd W1 W2 Hrun. unfold reconcile_accounts in Hrun.
  pose proof (created_entities_for_spec entry h) as (C1 & _).
  pose proof (frame_created_entities entry h) as (_ & _ & _ & C3 & _).
  destruct (created_entities_for entry h) as [created h0]. simpl in *.
  set (L0 := {| hass := h0; new_accounts := []; new_meters := [];
                new_invoices := []; tasks := [] |}) in *.
  pose proof (for_accounts_refreshes cfg created accts [] L0) as Href.
  destruct (for_accounts cfg created accts L0) as [[[]|e] L] eqn:Hloop;
    [|discriminate].
  assert (registry_wf created [] L0) as Hwf.
  { unfold registry_wf. simpl. rewrite C3, C1.
    split_and!; auto using List.NoDup_nil; done. }
  specialize (Href L Hwf Hnd (fun k _ (H : In k []) => H)
                (fun item (H : In item []) => match H with end)
                (fun item (H : In item []) => match H with end) eq_refl).
  pose proof (finish_update_data_entities entry created L) as D1.
  pose proof (frame_finish entry created L) as (_ & _ & _ & S1 & _).
  destruct (finish_update entry created L) as [res1 hf]. simpl in *.
  injection Hrun as _ <-.
  exists (update created (new_accounts L)). split.
  - rewrite D1. apply get_set_eq.
  - intros item Hin. destruct (Href item (or_introl Hin)) as (r & s & ? & ? & ?).
    exists r, s. rewrite S1. auto.
Qed.

Transparent finish_update for_accounts.

(** X7.  The listed accounts are refreshed.  In a cycle that returns its
    counts, on a host whose registry for the entry names distinct account
    sensors of the store, every account of the listing ends with a sensor
    in the registry of the entry, under its code, and that sensor holds the
    account object the listing delivered in this cycle. *)
Theorem listed_accounts_are_refreshed (entry : string) (cfg : UserCfg)
    (utcnow : Z) (h : Hass) (api : API) (accts : dict Account)
    (n_accounts n_meters n_invoices : nat) (code : string) (acct : Account) :
  get (data_api_objects h) entry = Some api ->
  get_accounts api = Ok accts ->
  List.NoDup (keys accts) ->
  List.NoDup (values (default [] (get (data_entities h) entry))) ->
  (forall r, In r (values (default [] (get (data_entities h) entry))) ->
             r < length (account_sensors h)) ->
  fst (_entity_updater entry cfg utcnow h)
  = Ok (UpdaterCounts n_accounts n_meters n_invoices) ->
  In (code, acct) accts ->
  exists registry r s,
    get (data_entities (snd (_entity_updater entry cfg utcnow h))) entry
    = Some registry
    /\ get registry code = Some r
    /\ account_sensors (snd (_entity_updater entry cfg utcnow h)) !! r = Some s
    /\ account s = acct.
Proof.
  intros Hapi Hl Hnd W1 W2 Hrun Hin.
  destruct (_entity_updater entry cfg utcnow h) as [res h1] eqn:Hup.
  simpl in Hrun. subst res.
  apply (updater_counts_reached _ _ _ _ api accts) in Hup; [|done|done].
  pose proof (frame_ensure_session cfg utcnow api h) as ((_ & D & _) & A & _).
  apply reconcile_accounts_refreshes in Hup as (registry & Hreg & Hall);
    [|done|simpl; now rewrite D|simpl; rewrite D, A; exact W2].
  destruct (Hall _ Hin) as (r & s & ? & ? & ?).
  exists registry, r, s. auto.
Qed.

Lemma listed_accounts_are_refreshed_witness :
  (get (data_api_objects
          (with_data_api_objects
             [("entry", Sample.api_with (Ok [("A1", Sample.account_A1_BC)]))]
             Sample.hass_AB)) "entry"
   = Some (Sample.api_with (Ok [("A1", Sample.account_A1_BC)]))
   /\ fst (_entity_updater "entry" Sample.cfg 0
             (with_data_api_objects
                [("entry", Sample.api_with (Ok [("A1", Sample.account_A1_BC)]))]
                Sample.hass_AB))
      = Ok (UpdaterCounts 0 1 0))
  /\ exists registry r s,
       get (data_entities
              (snd (_entity_updater "entry" Sample.cfg 0
                      (with_data_api_objects
                         [("entry",
                           Sample.api_with (Ok [("A1", Sample.account_A1_BC)]))]
                         Sample.hass_AB)))) "entry"
       = Some registry
       /\ get registry "A1" = Some r
       /\ account_sensors
            (snd (_entity_updater "entry" Sample.cfg 0
                    (with_data_api_objects
                       [("entry",
                         Sample.api_with (Ok [("A1", Sample.account_A1_BC)]))]
                       Sample.hass_AB))) !! r
          = Some s
       /\ account s = Sample.account_A1_BC.
Proof.
  split; [split; vm_compute; reflexivity|].
  apply (listed_accounts_are_refreshed "entry" Sample.cfg 0
           (with_data_api_objects
              [("entry", Sample.api_with (Ok [("A1", Sample.account_A1_BC)]))]
              Sample.hass_AB)
           (Sample.api_with (Ok [("A1", Sample.account_A1_BC)]))
           [("A1", Sample.account_A1_BC)] 0 1 0 "A1" Sample.account_A1_BC).
  - vm_compute; reflexivity.
  - vm_compute; reflexivity.
  - apply List.NoDup_cons; [simpl; tauto|apply List.NoDup_nil].
  - apply List.NoDup_cons; [simpl; tauto|apply List.NoDup_nil].
  - simpl. intros r [<-|[]]. lia.
  - vm_compute; reflexivity.
  - now left.
Defined.

(** ** The registry stays well formed *)

Lemma values_update_new {V} (n : dict V) : forall (c : dict V),
  List.NoDup (keys n) ->
  (forall k, In k (keys n) -> get c k = None) ->
  values (update c n) = (values c ++ values n)%list.
Proof.
  unfold update. induction n as [|[k v] n IH]; intros c Hnd Hnew; simpl.
  { now rewrite app_nil_r. }
  inversion Hnd as [|? ? Hk Hnd']; subst.
  rewrite IH; [|done|].
  - rewrite values_set_new by (apply Hnew; now left).
    now rewrite <- app_assoc.
  - intros k' Hk'. rewrite get_set_ne.
    + apply Hnew. now right.
    + intros ->. done.
Qed.

Opaque process_account.

Lemma for_accounts_wf cfg created items : forall seen L L',
  registry_wf created seen L ->
  List.NoDup (keys items) ->
  (forall k, In k (keys items) -> ~ In k (keys seen)) ->
  (forall item, In item seen ->
     settled cfg (update created (new_accounts L)) (hass L) item) ->
  for_accounts cfg created items L = (Ok tt, L') ->
  exists seen', registry_wf created seen' L'.
Proof.
  induction items as [|[code acct] items IH];
    intros seen L L' Hwf Hnd Hdisj Hset; simpl.
  { intros [= <-]. eauto. }
  destruct (process_account cfg created L (code, acct)) as [[[]|e] L1] eqn:Hp;
    [|discriminate].
  intros Hrest. inversion Hnd as [|? ? Hcode Hnd']; subst.
  assert (~ In code (keys seen)) as Hfresh by (apply Hdisj; now left).
  destruct (process_account_invariant cfg created seen L code acct L1 Hwf Hfresh
              Hset Hp) as [Hwf1 Hset1].
  apply (IH ((code, acct) :: seen) L1 L' Hwf1 Hnd'); [|done|done].
  intros k Hk [<-|Hin]; [done|]. apply (Hdisj k); [now right|done].
Qed.

Transparent process_account.

Opaque finish_update for_accounts.

Lemma reconcile_accounts_wf entry cfg accts h res h' :
  List.NoDup (keys accts) ->
  List.NoDup (values (default [] (get (data_entities h) entry))) ->
  (forall r, In r (values (default [] (get (data_entities h) entry))) ->
             r < length (account_sensors h)) ->
  reconcile_accounts entry cfg accts h = (Ok res, h') ->
  List.NoDup (values (default [] (get (data_entities h') entry)))
  /\ forall r, In r (values (default [] (get (data_entities h') entry))) ->
               r < length (account_sensors h').
Proof.
  intros Hnd W1 W2 Hrun. unfold reconcile_accounts in Hrun.
  pose proof (created_entities_for_spec entry h) as (C1 & _).
  pose proof (frame_created_entities entry h) as (_ & _ & _ & C3 & _).
  destruct (created_entities_for entry h) as [created h0]. simpl in *.
  set (L0 := {| hass := h0; new_accounts := []; new_meters := [];
                new_invoices := []; tasks := [] |}) in *.
  pose proof (for_accounts_wf cfg created accts [] L0) as Hwf'.
  pose proof (advances_for_accounts cfg created accts L0) as ((Hlen & _) & _).
  destruct (for_accounts cfg created accts L0) as [[[]|e] L] eqn:Hloop;
    [|discriminate].
  assert (registry_wf created [] L0) as Hwf.
  { unfold registry_wf. simpl. rewrite C3, C1.
    split_and!; auto using List.NoDup_nil; done. }
  destruct (Hwf' L Hwf Hnd (fun k _ (H : In k []) => H)
              (fun item (H : In item []) => match H with end) eq_refl)
    as (seen' & V1 & V2 & V3 & V4 & V5 & V6).
  pose proof (finish_update_data_entities entry created L) as D1.
  pose proof (frame_finish entry created L) as (_ & _ & _ & S1 & _).
  destruct (finish_update entry created L) as [res1 hf]. simpl in *.
  injection Hrun as _ <-.
  rewrite D1, get_set_eq, S1. simpl.
  rewrite values_update_new; [|done|intros k Hk; now apply V6].
  split.
  - apply List.NoDup_app; [done|done|].
    intros r Hr Hr'. now destruct (V5 r Hr').
  - intros r [Hr|Hr]%in_app_or; [|now apply V5].
    specialize (V2 r Hr). lia.
Qed.

Transparent finish_update for_accounts.

(** X8.  The registry of an entry stays well formed.  When the registry
    of the entry names distinct account sensors of the store before a
    cycle (as the empty registry of a new entry does), it does so after
    every cycle that returns its counts: no two account codes share a
    sensor object and every registered sensor exists. *)
Theorem registry_stays_well_formed (entry : string) (cfg : UserCfg)
    (utcnow : Z) (h : Hass) (api : API) (accts : dict Account)
    (n_accounts n_meters n_invoices : nat) :
  get (data_api_objects h) entry = Some api ->
  get_accounts api = Ok accts ->
  List.NoDup (keys accts) ->
  List.NoDup (values (default [] (get (data_entities h) entry))) ->
  (forall r, In r (values (default [] (get (data_entities h) entry))) ->
             r < length (account_sensors h)) ->
  fst (_entity_updater entry cfg utcnow h)
  = Ok (UpdaterCounts n_accounts n_meters n_invoices) ->
  List.NoDup
    (values
       (default []
          (get (data_entities (snd (_entity_updater entry cfg utcnow h))) entry)))
  /\ forall r,
       In r (values
               (default []
                  (get (data_entities (snd (_entity_updater entry cfg utcnow h)))
                     entry))) ->
       r < length (account_sensors (snd (_entity_updater entry cfg utcnow h))).
Proof.
  intros Hapi Hl Hnd W1 W2 Hrun.
  destruct (_entity_updater entry cfg utcnow h) as [res h1] eqn:Hup.
  simpl in Hrun. subst res.
  apply (updater_counts_reached _ _ _ _ api accts) in Hup; [|done|done].
  pose proof (frame_ensure_session cfg utcnow api h) as ((_ & D & _) & A & _).
  apply reconcile_accounts_wf in Hup;
    [done|done|simpl; now rewrite D|simpl; rewrite D, A; exact W2].
Qed.

Lemma registry_stays_well_formed_witness :
  (get (data_api_objects Sample.hass_A1_down) "entry"
   = Some (Sample.api_with (Ok Sample.listing_A1_down))
   /\ fst (_entity_updater "entry" Sample.cfg 0 Sample.hass_A1_down)
      = Ok (UpdaterCounts 2 1 1))
  /\ (List.NoDup
        (values
           (default []
              (get (data_entities
                      (snd (_entity_updater "entry" Sample.cfg 0
                              Sample.hass_A1_down))) "entry")))
      /\ forall r,
           In r (values
                   (default []
                      (get (data_entities
                              (snd (_entity_updater "entry" Sample.cfg 0
                                      Sample.hass_A1_down))) "entry"))) ->
           r < length (account_sensors
                         (snd (_entity_updater "entry" Sample.cfg 0
                                 Sample.hass_A1_down)))).
Proof.
  split; [split; vm_compute; reflexivity|].
  apply (registry_stays_well_formed "entry" Sample.cfg 0 Sample.hass_A1_down
           (Sample.api_with (Ok Sample.listing_A1_down)) Sample.listing_A1_down
           2 1 1).
  - vm_compute; reflexivity.
  - vm_compute; reflexivity.
  - apply List.NoDup_cons; [simpl; intros [H|[]]; discriminate H|].
    apply List.NoDup_cons; [simpl; tauto|apply List.NoDup_nil].
  - apply List.NoDup_nil.
  - simpl. intros r [].
  - vm_compute; reflexivity.
Defined.

(** ** The invoice and the meters of one account *)

(** X9.  The invoice sensor shows the fetched invoice.  When the invoice
    of an account is tracked and fetched, the account sensor ends with an
    invoice sensor whose invoice has the id of the fetched one: the sensor
    it had, kept or given the new invoice, or a new sensor around the
    fetched invoice when it had none. *)
Theorem fetched_invoice_id_is_shown (cfg : UserCfg) (ae : nat) (code : string)
    (acct : Account) (L : Loop) (s : MESAccountSensor) (inv : Invoice) :
  account_sensors (hass L) !! ae = Some s ->
  (forall i, invoice_entity s = Some i ->
             i < length (invoice_sensors (hass L))) ->
  skip_invoice cfg code = false ->
  get_last_invoice acct = Ok (Some inv) ->
  fst (process_invoice cfg ae code acct L) = Ok tt
  /\ exists s' i shown,
       account_sensors (hass (snd (process_invoice cfg ae code acct L))) !! ae
       = Some s'
       /\ invoice_entity s' = Some i
       /\ invoice_sensors (hass (snd (process_invoice cfg ae code acct L))) !! i
          = Some shown
       /\ invoice_id (invoice shown) = invoice_id inv
       /\ match invoice_entity s with
          | Some i0 => i = i0
          | None => i = length (invoice_sensors (hass L)) /\ invoice shown = inv
          end.
Proof.
  intros Hs Hvalid Hskip Hinv. unfold process_invoice. rewrite Hskip, Hinv.
  split; [done|]. cbn [snd].
  set (L1 := on_hass (emit (ApiGetLastInvoice code)) L).
  assert (account_sensors (hass L1) !! ae = Some s) as Hs1 by exact Hs.
  assert (invoice_sensors (hass L1) = invoice_sensors (hass L)) as Hstore
    by reflexivity.
  rewrite <- Hstore in *. clearbody L1. clear Hstore Hs.
  unfold store_invoice. rewrite Hs1. cbn [mbind option_bind].
  destruct (invoice_entity s) as [i|] eqn:Hi.
  - destruct (lookup_lt_is_Some_2 (invoice_sensors (hass L1)) i (Hvalid i eq_refl))
      as [old Hold].
    rewrite Hold.
    destruct (String.eqb_spec (invoice_id (invoice old)) (invoice_id inv))
      as [Heq|Hne].
    + exists s, i, old. rewrite Hs1, Hold. split_and!; auto.
    + exists s, i, (set_invoice inv old). simpl.
      rewrite Hs1, list_lookup_alter_eq, Hold. split_and!; auto.
  - exists (set_invoice_entity (Some (length (invoice_sensors (hass L1)))) s),
      (length (invoice_sensors (hass L1))),
      {| invoice := inv; invoice_name_format := invoice_name cfg |}.
    simpl. rewrite list_lookup_alter_eq, Hs1.
    rewrite lookup_app_r by lia. rewrite Nat.sub_diag. split_and!; auto.
Qed.

Lemma fetched_invoice_id_is_shown_witness :
  (account_sensors Sample.hass_AB !! 0 = Some Sample.sensor_A1
   /\ skip_invoice Sample.cfg "A1" = false)
  /\ fst (process_invoice Sample.cfg 0 "A1"
            (Sample.account_with "A1" [] (Some Sample.invoice1))
            (Sample.loop_of Sample.hass_AB)) = Ok tt
     /\ exists s' i shown,
          account_sensors
            (hass (snd (process_invoice Sample.cfg 0 "A1"
                          (Sample.account_with "A1" [] (Some Sample.invoice1))
                          (Sample.loop_of Sample.hass_AB)))) !! 0
          = Some s'
          /\ invoice_entity s' = Some i
          /\ invoice_sensors
               (hass (snd (process_invoice Sample.cfg 0 "A1"
                             (Sample.account_with "A1" [] (Some Sample.invoice1))
                             (Sample.loop_of Sample.hass_AB)))) !! i
             = Some shown
          /\ invoice_id (invoice shown) = invoice_id Sample.invoice1
          /\ match invoice_entity Sample.sensor_A1 with
             | Some i0 => i = i0
             | None =>
                 i = length (invoice_sensors (hass (Sample.loop_of Sample.hass_AB)))
                 /\ invoice shown = Sample.invoice1
             end.
Proof.
  split; [split; reflexivity|].
  apply (fetched_invoice_id_is_shown Sample.cfg 0 "A1"
           (Sample.account_with "A1" [] (Some Sample.invoice1))
           (Sample.loop_of Sample.hass_AB) Sample.sensor_A1 Sample.invoice1).
  - reflexivity.
  - intros i H. discriminate H.
  - reflexivity.
  - reflexivity.
Defined.

Lemma keeps_meters_refl L : keeps_meters L L.
Proof. unfold keeps_meters. split_and!; eauto. Qed.

Lemma keeps_meters_trans L1 L2 L3 :
  keeps_meters L1 L2 -> keeps_meters L2 L3 -> keeps_meters L1 L3.
Proof.
  unfold keeps_meters. intros (A1 & A2 & A3 & A4) (B1 & B2 & B3 & B4).
  split_and!; [congruence|congruence| |auto].
  intros r s Hs. destruct (A3 r s Hs) as (s' & Hs' & E1).
  destruct (B3 r s' Hs') as (s'' & Hs'' & E2). exists s''. split; congruence.
Qed.

Lemma keeps_meters_emit e L : keeps_meters L (on_hass (emit e) L).
Proof. unfold keeps_meters. simpl. split_and!; eauto. Qed.

Lemma keeps_meters_alter (f : MESAccountSensor -> MESAccountSensor) ae
    (l : list MESAccountSensor) r s :
  (forall x, meter_entities (f x) = meter_entities x) ->
  l !! r = Some s ->
  exists s', alter f ae l !! r = Some s' /\ meter_entities s' = meter_entities s.
Proof.
  intros Hf Hs. destruct (decide (ae = r)) as [->|Hne].
  - rewrite list_lookup_alter_eq, Hs. simpl. eauto.
  - rewrite list_lookup_alter_ne by done. eauto.
Qed.

Lemma keeps_meters_store_invoice cfg ae inv L :
  keeps_meters L (store_invoice cfg ae inv L).
Proof.
  unfold store_invoice. repeat case_match; try apply keeps_meters_refl.
  - unfold keeps_meters. simpl. split_and!; eauto.
  - unfold keeps_meters. simpl. split_and!; [done|done| |].
    + intros r s Hs. now apply keeps_meters_alter.
    + intros t [<-|Ht]; [done|auto].
Qed.

Lemma keeps_meters_process_invoice cfg ae code acct L :
  keeps_meters L (snd (process_invoice cfg ae code acct L)).
Proof.
  unfold process_invoice.
  destruct (skip_invoice cfg code); [apply keeps_meters_refl|].
  destruct (get_last_invoice acct) as [[inv|]|e]; simpl.
  - eapply keeps_meters_trans; [|apply keeps_meters_store_invoice].
    apply keeps_meters_emit.
  - apply keeps_meters_emit.
  - destruct (is_MosenergosbytException e); simpl.
    + eapply keeps_meters_trans; apply keeps_meters_emit.
    + apply keeps_meters_emit.
Qed.

Lemma keeps_meters_account_entity cfg created code acct L :
  keeps_meters L (snd (account_entity_for cfg created code acct L)).
Proof.
  unfold account_entity_for. case_match; unfold keeps_meters; simpl.
  - split_and!; [done|done| |auto].
    intros r s Hs. now apply keeps_meters_alter.
  - split_and!; [done|done| |].
    + intros r s Hs. exists s. split; [|done].
      rewrite lookup_app_l; [done|]. eapply lookup_lt_Some; eauto.
    + intros t [<-|Ht]; [done|auto].
Qed.

(** X10.  A failed meter fetch touches no meter sensor.  When the meter
    fetch of an account raises, processing the account changes no meter
    sensor, counts no new meter sensor, leaves the meter map of every
    account sensor as it was and requests no removal: the meter sensors of
    the account stay registered with the data they had. *)
Theorem failed_meter_fetch_keeps_meter_sensors (cfg : UserCfg)
    (created : dict nat) (L : Loop) (code : string) (acct : Account)
    (e : PyExn) :
  get_meters acct = Raise e ->
  keeps_meters L (snd (process_account cfg created L (code, acct))).
Proof.
  intros Hm. unfold process_account.
  pose proof (keeps_meters_account_entity cfg created code acct L) as H1.
  destruct (account_entity_for cfg created code acct L) as [ae L1]. simpl in H1.
  assert (keeps_meters L1 (snd (process_meters cfg ae code acct L1))) as H2.
  { unfold process_meters. rewrite Hm.
    destruct (is_MosenergosbytException e); simpl.
    - eapply keeps_meters_trans; apply keeps_meters_emit.
    - apply keeps_meters_emit. }
  destruct (process_meters cfg ae code acct L1) as [[[]|e'] L2]; simpl in H2.
  - eapply keeps_meters_trans; [|apply keeps_meters_process_invoice].
    eapply keeps_meters_trans; eauto.
  - simpl. eapply keeps_meters_trans; eauto.
Qed.

Lemma failed_meter_fetch_keeps_meter_sensors_witness :
  get_meters (Sample.account_meters_down "A1") = Raise Sample.provider_down
  /\ keeps_meters (Sample.loop_of Sample.hass_AB)
       (snd (process_account Sample.cfg [("A1", 0)]
               (Sample.loop_of Sample.hass_AB)
               ("A1", Sample.account_meters_down "A1"))).
Proof.
  split; [reflexivity|].
  apply (failed_meter_fetch_keeps_meter_sensors Sample.cfg [("A1", 0)]
           (Sample.loop_of Sample.hass_AB) "A1"
           (Sample.account_meters_down "A1") Sample.provider_down).
  reflexivity.
Defined.

(** ** Meter resolution, found and not found *)

Lemma checker_of_true ident s :
  checker_of ident s = Ok true <-> identified_by ident s.
Proof.
  destruct ident as [id|code]; simpl;
    unfold _check_entity_id, _check_meter_code.
  - destruct (meter_truthy (meter s)); [|split; [done|intros [? _]; done]].
    destruct (entity_id s) as [x|]; simpl.
    + destruct (String.eqb_spec x id) as [->|Hne]; split; try done.
      * intros [_ [= ->]]. done.
    + split; [done|intros [_ ?]; done].
  - destruct (meter s) as [m|x] eqn:Hm; simpl.
    + destruct (String.eqb_spec (meter_code m) code) as [<-|Hne]; split.
      * eauto.
      * done.
      * done.
      * intros (m' & [= <-] & ?). done.
    + destruct (negb (x =? "")); (split; [done|intros (m' & ? & _); done]).
Qed.

Lemma find_in_meters_some checker h refs r s :
  find_in_meters checker h refs = Ok (Some (r, s)) ->
  In r refs /\ meter_sensors h !! r = Some s /\ checker s = Ok true.
Proof.
  induction refs as [|r0 refs IH]; simpl; [done|].
  destruct (meter_sensors h !! r0) as [s0|] eqn:Hs0.
  - destruct (checker s0) as [[|]|e] eqn:Hc; [| |done].
    + intros [= <- <-]. auto.
    + intros H. apply IH in H as (? & ? & ?). auto.
  - intros H. apply IH in H as (? & ? & ?). auto.
Qed.

Lemma find_in_accounts_some checker h refs r s :
  find_in_accounts checker h refs = Ok (Some (r, s)) ->
  exists ar account_sensor d,
    In ar refs
    /\ account_sensors h !! ar = Some account_sensor
    /\ meter_entities account_sensor = Some d
    /\ In r (values d)
    /\ meter_sensors h !! r = Some s
    /\ checker s = Ok true.
Proof.
  induction refs as [|ar refs IH]; simpl; [done|].
  assert (find_in_accounts checker h refs = Ok (Some (r, s)) ->
          exists ar0 account_sensor d,
            (ar = ar0 \/ In ar0 refs)
            /\ account_sensors h !! ar0 = Some account_sensor
            /\ meter_entities account_sensor = Some d
            /\ In r (values d)
            /\ meter_sensors h !! r = Some s
            /\ checker s = Ok true) as Hrest.
  { intros H. apply IH in H as (ar0 & a & d & ? & ? & ? & ? & ? & ?).
    exists ar0, a, d. split_and!; auto. }
  destruct (account_sensors h !! ar) as [a|] eqn:Ha; [|exact Hrest].
  destruct (meter_entities a) as [d|] eqn:Hd; [|done].
  destruct (find_in_meters checker h (values d)) as [[[r0 s0]|]|e] eqn:Hf;
    [|exact Hrest|done].
  intros [= <- <-]. apply find_in_meters_some in Hf as (? & ? & ?).
  exists ar, a, d. split_and!; auto.
Qed.

Lemma find_in_entries_some checker h entries entry_id r s :
  find_in_entries checker h entries = Ok (Some (entry_id, (r, s))) ->
  exists registry account_code ar account_sensor d,
    In (entry_id, registry) entries
    /\ In (account_code, ar) registry
    /\ account_sensors h !! ar = Some account_sensor
    /\ meter_entities account_sensor = Some d
    /\ In r (values d)
    /\ meter_sensors h !! r = Some s
    /\ checker s = Ok true.
Proof.
  induction entries as [|[e registry] entries IH]; simpl; [done|].
  destruct (find_in_accounts checker h (values registry)) as [[[r0 s0]|]|x] eqn:Hf;
    [| | done].
  - intros [= <- <- <-].
    apply find_in_accounts_some in Hf as (ar & a & d & Hin & ? & ? & ? & ? & ?).
    apply in_map_iff in Hin as ([code ar'] & <- & Hin).
    exists registry, code, ar', a, d. split_and!; auto.
  - intros H. apply IH in H as (reg & code & ar & a & d & ? & ? & ? & ? & ? & ? & ?).
    exists reg, code, ar, a, d. split_and!; auto.
Qed.

Lemma find_in_meters_none_inv checker h refs :
  find_in_meters checker h refs = Ok None ->
  forall r s, In r refs -> meter_sensors h !! r = Some s -> checker s = Ok false.
Proof.
  induction refs as [|r0 refs IH]; simpl; [done|].
  destruct (meter_sensors h !! r0) as [s0|] eqn:Hs0.
  - destruct (checker s0) as [[|]|e] eqn:Hc; [done| |done].
    intros H r s [<-|Hin] Hs; [congruence|eauto].
  - intros H r s [<-|Hin] Hs; [congruence|eauto].
Qed.

Lemma find_in_accounts_none_inv checker h refs :
  find_in_accounts checker h refs = Ok None ->
  forall ar a d r s,
    In ar refs -> account_sensors h !! ar = Some a ->
    meter_entities a = Some d -> In r (values d) ->
    meter_sensors h !! r = Some s -> checker s = Ok false.
Proof.
  induction refs as [|ar0 refs IH]; simpl; [done|].
  destruct (account_sensors h !! ar0) as [a0|] eqn:Ha0.
  - destruct (meter_entities a0) as [d0|] eqn:Hd0; [|done].
    destruct (find_in_meters checker h (values d0)) as [[found|]|e] eqn:Hf;
      [done| |done].
    intros H ar a d r s [<-|Hin] Ha Hd Hr Hs; [|eauto].
    assert (a = a0) as -> by congruence. assert (d = d0) as -> by congruence.
    eapply find_in_meters_none_inv; eauto.
  - intros H ar a d r s [<-|Hin] Ha; [congruence|eauto].
Qed.

Lemma find_in_entries_none_inv checker h entries :
  find_in_entries checker h entries = Ok None ->
  forall entry_id registry code ar a d r s,
    In (entry_id, registry) entries -> In (code, ar) registry ->
    account_sensors h !! ar = Some a ->
    meter_entities a = Some d -> In r (values d) ->
    meter_sensors h !! r = Some s -> checker s = Ok false.
Proof.
  induction entries as [|[e0 reg0] entries IH]; simpl; [done|].
  destruct (find_in_accounts checker h (values reg0)) as [[found|]|x] eqn:Hf;
    [done| |done].
  intros H entry_id registry code ar a d r s [[= <- <-]|Hin] Hreg; [|eauto].
  apply (find_in_accounts_none_inv checker h (values reg0) Hf ar).
  now apply (in_map snd) in Hreg.
Qed.

(** X11.  Resolution is sound and, when it names no sensor, complete.  If
    the scan answers an entry and a meter sensor, the sensor is registered
    under that entry and the identifier of the call names it.  If the scan
    answers no sensor, it answers the name of the identifying attribute
    and the identifier names no registered meter sensor of any entry. *)
Theorem resolution_is_sound_and_complete (ident : MeterIdent) (h : Hass) :
  match _find_meter_entity ident h with
  | Ok (entry_id, Some (r, s)) =>
      registered_meter h entry_id r s /\ identified_by ident s
  | Ok (attr, None) =>
      attr = attr_of ident
      /\ forall entry_id r s,
           registered_meter h entry_id r s -> ~ identified_by ident s
  | Raise e => True
  end.
Proof.
  unfold _find_meter_entity.
  destruct (find_in_entries (checker_of ident) h (data_entities h))
    as [[[entry_id [r s]]|]|e] eqn:Hf; [| |done].
  - apply find_in_entries_some in Hf
      as (reg & code & ar & a & d & H1 & H2 & H3 & H4 & H5 & H6 & H7).
    split; [|now apply checker_of_true].
    exists reg, code, ar, a, d. split_and!; auto.
  - split; [done|].
    intros entry_id r s (reg & code & ar & a & d & H1 & H2 & H3 & H4 & H5 & H6).
    intros Hid%checker_of_true.
    pose proof (find_in_entries_none_inv _ h _ Hf entry_id reg code ar a d r s
                  H1 H2 H3 H4 H5 H6) as Hc.
    congruence.
Qed.

(** ** The service handlers *)

Lemma checker_raises_attribute_error ident s e :
  checker_of ident s = Raise e -> exists msg, e = AttributeError msg.
Proof.
  destruct ident; simpl; unfold _check_entity_id, _check_meter_code;
    repeat case_match; try done. intros [= <-]. eauto.
Qed.

Lemma find_in_meters_raises ident h refs e :
  find_in_meters (checker_of ident) h refs = Raise e ->
  exists msg, e = AttributeError msg.
Proof.
  induction refs as [|r refs IH]; simpl; [done|].
  destruct (meter_sensors h !! r) as [s|]; [|done].
  destruct (checker_of ident s) as [[|]|e'] eqn:Hc; [done|done|].
  intros [= <-]. eapply checker_raises_attribute_error; eauto.
Qed.

Lemma find_in_accounts_raises ident h refs e :
  find_in_accounts (checker_of ident) h refs = Raise e ->
  exists msg, e = AttributeError msg.
Proof.
  induction refs as [|r refs IH]; simpl; [done|].
  destruct (account_sensors h !! r) as [a|]; [|done].
  destruct (meter_entities a) as [d|]; [|intros [= <-]; eauto].
  destruct (find_in_meters (checker_of ident) h (values d)) as [[found|]|e'] eqn:Hf;
    [done|done|].
  intros [= <-]. eapply find_in_meters_raises; eauto.
Qed.

Lemma find_in_entries_raises ident h entries e :
  find_in_entries (checker_of ident) h entries = Raise e ->
  exists msg, e = AttributeError msg.
Proof.
  induction entries as [|[entry_id registry] entries IH]; simpl; [done|].
  destruct (find_in_accounts (checker_of ident) h (values registry))
    as [[found|]|e'] eqn:Hf; [done|done|].
  intros [= <-]. eapply find_in_accounts_raises; eauto.
Qed.

(** The scan raises nothing but [AttributeError]. *)
Lemma scan_raises_attribute_error ident h e :
  _find_meter_entity ident h = Raise e -> exists msg, e = AttributeError msg.
Proof.
  unfold _find_meter_entity.
  destruct (find_in_entries (checker_of ident) h (data_entities h))
    as [[[entry_id found]|]|e'] eqn:Hf; [done|done|].
  intros [= <-]. eapply find_in_entries_raises; eauto.
Qed.

Lemma service_except_outcome e h e' :
  fst (service_except e h) = Raise e' -> is_MosenergosbytException e' = false.
Proof.
  unfold service_except.
  destruct (is_IndicationsCountException e); [done|].
  destruct (is_MosenergosbytException e) eqn:E; [done|].
  now intros [= <-].
Qed.

Lemma real_indications_raise ms call e :
  _get_real_indications ms call = Raise e -> is_MosenergosbytException e = false.
Proof.
  unfold _get_real_indications. repeat case_match; try done. now intros [= <-].
Qed.

(** X12.  No provider failure leaves a service handler: an exception that
    leaves the push handler or the calculation handler is not a
    [MosenergosbytException]. *)
Theorem handlers_let_no_provider_failure_out (call : ServiceCall) (h : Hass)
    (e : PyExn) :
  fst (async_push_indications call h) = Raise e
  \/ fst (async_calculate_indications call h) = Raise e ->
  is_MosenergosbytException e = false.
Proof.
  unfold async_push_indications, async_calculate_indications.
  destruct (_find_meter_entity (attr_ident call) h)
    as [[entry_id [[r ms]|]]|e'] eqn:Hf; simpl.
  - destruct (meter ms) as [m|x]; [|intros [[= <-]|[= <-]]; done].
    destruct (_get_real_indications ms call) as [values|e'] eqn:Hv.
    + destruct (save_indications m) as [save|],
        (get_charge_indications m) as [calculate|]; simpl;
        repeat match goal with
               | |- context [save ?a ?b ?c] => destruct (save a b c) eqn:?
               | |- context [calculate ?a ?b ?c] => destruct (calculate a b c) eqn:?
               end; simpl;
        intros [H|H]; try discriminate H;
        eapply service_except_outcome; eauto.
    + apply real_indications_raise in Hv.
      destruct (save_indications m), (get_charge_indications m); simpl;
        intros [[= <-]|[= <-]]; done.
  - intros [?|?]; done.
  - apply scan_raises_attribute_error in Hf as [msg ->].
    intros [[= <-]|[= <-]]; done.
Qed.

Lemma handlers_let_no_provider_failure_out_witness :
  (fst (async_push_indications (Sample.call (ByMeterCode "M1") [1%Z] false)
          Sample.hass_after_failed_fetch) = Raise (AttributeError "values")
   \/ fst (async_calculate_indications
             (Sample.call (ByMeterCode "M1") [1%Z] false)
             Sample.hass_after_failed_fetch) = Raise (AttributeError "values"))
  /\ is_MosenergosbytException (AttributeError "values") = false.
Proof.
  split; [left; vm_compute; reflexivity|].
  apply (handlers_let_no_provider_failure_out
           (Sample.call (ByMeterCode "M1") [1%Z] false)
           Sample.hass_after_failed_fetch (AttributeError "values")).
  left. vm_compute. reflexivity.
Defined.

Lemma push_event_eta (ev : PushEvent) eid code values comment :
  push_entity_id ev = eid -> push_meter_code ev = code ->
  push_indications ev = values -> push_comment ev = comment ->
  ev = {| push_entity_id := eid; push_meter_code := code;
          push_indications := values; push_comment := comment |}.
Proof. destruct ev; simpl; congruence. Qed.

Lemma calculation_event_eta (ev : CalculationEvent) eid code values res :
  calc_entity_id ev = eid -> calc_meter_code ev = code ->
  calc_indications ev = values -> calc_result ev = res ->
  ev = {| calc_entity_id := eid; calc_meter_code := code;
          calc_indications := values; calc_result := res |}.
Proof. destruct ev; simpl; congruence. Qed.

Lemma service_except_events e h :
  events (snd (service_except e h)) = events h
  \/ exists m, events (snd (service_except e h)) = LogError m :: events h.
Proof.
  unfold service_except.
  destruct (is_IndicationsCountException e); simpl; [eauto|].
  destruct (is_MosenergosbytException e); simpl; eauto.
Qed.

(** The push handler when the provider accepts the indications. *)
Lemma push_accepted_run call h entry_id ev :
  push_accepted call h entry_id ev ->
  async_push_indications call h
  = (Ok tt,
     let h3 :=
       notify (push_meter_code ev) call
         (emit (FirePushResult ev)
            (emit (ApiSaveIndications (push_meter_code ev) (push_indications ev)
                     (attr_ignore_period call) false) h)) in
     if mem entry_id (data_updaters h3)
     then emit (CreateTask (RunUpdater entry_id)) h3 else h3).
Proof.
  intros (r & ms & m & save & Hf & Hm & Hs & Hv & Hok & He & Hc).
  unfold async_push_indications. rewrite Hf, Hm, Hs, Hv, Hok, <- He, <- Hc.
  simpl. now destruct ev.
Qed.

(** The push handler when the provider does not accept. *)
Lemma push_refused_run call h :
  (forall entry_id ev, ~ push_accepted call h entry_id ev) ->
  exists new,
    events (snd (async_push_indications call h)) = (new ++ events h)%list
    /\ forall e, In e new ->
         match e with
         | LogError _ | ApiSaveIndications _ _ _ _ => True
         | _ => False
         end.
Proof.
  intros Hno. unfold async_push_indications.
  destruct (_find_meter_entity (attr_ident call) h)
    as [[entry_id [[r ms]|]]|e'] eqn:Hf; simpl.
  - destruct (meter ms) as [m|x] eqn:Hm; [|now exists []].
    destruct (save_indications m) as [save|] eqn:Hs; simpl.
    2:{ eexists [_]. split; [reflexivity|]. now intros e [<-|[]]. }
    destruct (_get_real_indications ms call) as [values|e'] eqn:Hv;
      [|now exists []].
    destruct (save values (attr_ignore_period call) false) as [comment|e'] eqn:Hok.
    + exfalso.
      apply (Hno entry_id
               {| push_entity_id := entity_id ms; push_meter_code := meter_code m;
                  push_indications := values; push_comment := comment |}).
      exists r, ms, m, save. simpl. split_and!; auto.
    + destruct (service_except_events e'
                  (emit (ApiSaveIndications (meter_code m) values
                           (attr_ignore_period call) false) h)) as [->|[msg ->]];
        simpl.
      * eexists [_]. split; [reflexivity|]. now intros e [<-|[]].
      * eexists [_; _]. split; [reflexivity|]. now intros e [<-|[<-|[]]].
  - eexists [_]. split; [reflexivity|]. now intros e [<-|[]].
  - now exists [].
Qed.

Lemma push_accepted_unique call h entry_id ev entry_id' ev' :
  push_accepted call h entry_id ev -> push_accepted call h entry_id' ev' ->
  entry_id' = entry_id /\ ev' = ev.
Proof.
  intros (r & ms & m & save & Hf & Hm & Hs & Hv & Hok & He & Hc)
         (r' & ms' & m' & save' & Hf' & Hm' & Hs' & Hv' & Hok' & He' & Hc').
  rewrite Hf in Hf'. injection Hf' as <- <- <-.
  rewrite Hm in Hm'. injection Hm' as <-.
  rewrite Hs in Hs'. injection Hs' as <-.
  rewrite Hv in Hv'. injection Hv' as Hv'. rewrite <- Hv' in Hok'.
  rewrite Hok in Hok'. injection Hok' as Hok'.
  split; [done|]. destruct ev, ev'; simpl in *; congruence.
Qed.

Lemma push_accepted_dec call h :
  (exists entry_id ev, push_accepted call h entry_id ev)
  \/ (forall entry_id ev, ~ push_accepted call h entry_id ev).
Proof.
  destruct (_find_meter_entity (attr_ident call) h)
    as [[entry_id [[r ms]|]]|e'] eqn:Hf.
  2,3: right; intros ? ? (? & ? & ? & ? & Hf' & _); congruence.
  destruct (meter ms) as [m|x] eqn:Hm.
  2: right; intros ? ? (? & ? & ? & ? & Hf' & Hm' & _); congruence.
  destruct (save_indications m) as [save|] eqn:Hs.
  2: right; intros ? ? (? & ? & ? & ? & Hf' & Hm' & Hs' & _); congruence.
  destruct (_get_real_indications ms call) as [values|e'] eqn:Hv.
  2: right; intros ? ? (? & ? & ? & ? & Hf' & Hm' & Hs' & Hv' & _); congruence.
  destruct (save values (attr_ignore_period call) false) as [comment|e'] eqn:Hok.
  - left. exists entry_id,
      {| push_entity_id := entity_id ms; push_meter_code := meter_code m;
         push_indications := values; push_comment := comment |},
      r, ms, m, save.
    simpl. split_and!; auto.
  - right. intros ? ? (? & ? & ? & ? & Hf' & Hm' & Hs' & Hv' & Hok' & _).
    rewrite Hf in Hf'. injection Hf' as <- <- <-.
    rewrite Hm in Hm'. injection Hm' as <-.
    rewrite Hs in Hs'. injection Hs' as <-.
    rewrite Hv in Hv'. injection Hv' as Hv'. rewrite <- Hv' in Hok'. congruence.
Qed.

(** X13.  What a push leaves behind.  The push-result event is fired
    exactly when the provider accepted the effective indications of the
    resolved meter, and carries the entity id, the meter code, these
    indications and the provider's comment.  When the call asks for a
    notification by a boolean, the notification is created exactly when the
    push was accepted and the boolean is true, and a cycle of the entry is
    scheduled exactly when the push was accepted and the entry has an
    updater registered. *)
Theorem push_result_iff_accepted (call : ServiceCall) (h : Hass) :
  exists new,
    events (snd (async_push_indications call h)) = (new ++ events h)%list
    /\ (forall ev,
          In (FirePushResult ev) new
          <-> exists entry_id, push_accepted call h entry_id ev)
    /\ forall b,
         attr_notification call = NotifyBool b ->
         (forall code content,
            In (CreateTask (CreateNotification code content)) new
            <-> b = true /\ content = NotifyBool true
                /\ exists entry_id ev,
                     push_accepted call h entry_id ev
                     /\ push_meter_code ev = code)
         /\ (forall entry_id,
               In (CreateTask (RunUpdater entry_id)) new
               <-> (exists ev, push_accepted call h entry_id ev)
                   /\ mem entry_id (data_updaters h) = true).
Proof.
  destruct (push_accepted_dec call h) as [(entry_id & ev & Hacc)|Hno].
  - rewrite (push_accepted_run call h entry_id ev Hacc). simpl.
    assert (forall entry_id' ev',
              push_accepted call h entry_id' ev' ->
              entry_id' = entry_id /\ ev' = ev) as Huniq.
    { intros. eapply push_accepted_unique; eauto. }
    set (updater := if mem entry_id (data_updaters h)
                    then [CreateTask (RunUpdater entry_id)] else []).
    set (note := if notification_truthy (attr_notification call)
                 then [CreateTask (CreateNotification (push_meter_code ev)
                                     (attr_notification call))]
                 else []).
    exists (updater ++ note
            ++ [FirePushResult ev;
                ApiSaveIndications (push_meter_code ev) (push_indications ev)
                  (attr_ignore_period call) false])%list.
    split_and!.
    + unfold notify, updater, note.
      destruct (notification_truthy (attr_notification call)); simpl;
        destruct (mem entry_id (data_updaters h)); reflexivity.
    + intros ev'. split.
      * intros Hin. exists entry_id.
        assert (ev' = ev) as ->; [|done].
        unfold updater, note in Hin.
        destruct (mem entry_id (data_updaters h)),
          (notification_truthy (attr_notification call)); simpl in Hin;
          intuition congruence.
      * intros (entry_id' & Hacc'). destruct (Huniq _ _ Hacc') as [-> ->].
        apply in_or_app. right. apply in_or_app. right. now left.
    + intros b Hb. unfold updater, note. rewrite Hb. simpl. split.
      * intros code content. split.
        -- intros Hin.
           destruct (mem entry_id (data_updaters h)), b; simpl in Hin;
             try (exfalso; intuition congruence).
           ++ destruct Hin as [?|[[= <- <-]|[?|[?|[]]]]]; try done.
              split_and!; eauto.
           ++ destruct Hin as [[= <- <-]|[?|[?|[]]]]; try done.
              split_and!; eauto.
        -- intros (-> & -> & entry_id' & ev' & Hacc' & <-).
           destruct (Huniq _ _ Hacc') as [-> ->].
           apply in_or_app. right. now left.
      * intros entry_id'. split.
        -- intros Hin.
           destruct (mem entry_id (data_updaters h)) eqn:Hmem, b; simpl in Hin;
             try (exfalso; intuition congruence).
           ++ destruct Hin as [[= <-]|[?|[?|[?|[]]]]]; try done. eauto.
           ++ destruct Hin as [[= <-]|[?|[?|[]]]]; try done. eauto.
        -- intros ((ev' & Hacc') & Hmem).
           destruct (Huniq _ _ Hacc') as [-> ->]. rewrite Hmem. now left.
  - destruct (push_refused_run call h Hno) as (new & Hev & Hnew).
    exists new. split; [done|]. split.
    + intros ev. split.
      * intros Hin. now apply Hnew in Hin.
      * intros (entry_id & Hacc). now apply Hno in Hacc.
    + intros b Hb. split.
      * intros code content. split.
        -- intros Hin. now apply Hnew in Hin.
        -- intros (_ & _ & entry_id & ev & Hacc & _). now apply Hno in Hacc.
      * intros entry_id. split.
        -- intros Hin. now apply Hnew in Hin.
        -- intros ((ev & Hacc) & _). now apply Hno in Hacc.
Qed.

(** The calculation handler when the provider answers. *)
Lemma calculation_answered_run call h ev :
  calculation_answered call h ev ->
  async_calculate_indications call h
  = (Ok tt,
     notify (calc_meter_code ev) call
       (emit (FireCalculationResult ev)
          (emit (ApiGetChargeIndications (calc_meter_code ev)
                   (calc_indications ev) (attr_ignore_period call) false) h))).
Proof.
  intros (entry_id & r & ms & m & calculate & Hf & Hm & Hs & Hv & Hok & He & Hc).
  unfold async_calculate_indications.
  rewrite Hf, Hm, Hs, Hv, Hok, <- He, <- Hc. simpl. now destruct ev.
Qed.

(** The calculation handler when the provider does not answer. *)
Lemma calculation_refused_run call h :
  (forall ev, ~ calculation_answered call h ev) ->
  exists new,
    events (snd (async_calculate_indications call h)) = (new ++ events h)%list
    /\ forall e, In e new ->
         match e with
         | LogError (NoMatchingMeter _) | LogError (NoCalculationSupport _)
         | LogError (IndicationsError _) | LogError (ApiReturnedError _)
         | ApiGetChargeIndications _ _ _ _ => True
         | _ => False
         end.
Proof.
  intros Hno. unfold async_calculate_indications.
  destruct (_find_meter_entity (attr_ident call) h)
    as [[entry_id [[r ms]|]]|e'] eqn:Hf; simpl.
  - destruct (meter ms) as [m|x] eqn:Hm; [|now exists []].
    destruct (get_charge_indications m) as [calculate|] eqn:Hs; simpl.
    2:{ eexists [_]. split; [reflexivity|]. now intros e [<-|[]]. }
    destruct (_get_real_indications ms call) as [values|e'] eqn:Hv;
      [|now exists []].
    destruct (calculate values (attr_ignore_period call) false)
      as [calculation|e'] eqn:Hok.
    + exfalso.
      apply (Hno {| calc_entity_id := entity_id ms;
                    calc_meter_code := meter_code m;
                    calc_indications := values; calc_result := calculation |}).
      exists entry_id, r, ms, m, calculate. simpl. split_and!; auto.
    + unfold service_except.
      destruct (is_IndicationsCountException e'); simpl.
      { eexists [_; _]. split; [reflexivity|]. now intros e [<-|[<-|[]]]. }
      destruct (is_MosenergosbytException e'); simpl.
      * eexists [_; _]. split; [reflexivity|]. now intros e [<-|[<-|[]]].
      * eexists [_]. split; [reflexivity|]. now intros e [<-|[]].
  - eexists [_]. split; [reflexivity|]. now intros e [<-|[]].
  - now exists [].
Qed.

Lemma calculation_answered_unique call h ev ev' :
  calculation_answered call h ev -> calculation_answered call h ev' -> ev' = ev.
Proof.
  intros (entry_id & r & ms & m & calc & Hf & Hm & Hs & Hv & Hok & He & Hc)
         (entry_id' & r' & ms' & m' & calc' & Hf' & Hm' & Hs' & Hv' & Hok' & He' & Hc').
  rewrite Hf in Hf'. injection Hf' as <- <- <-.
  rewrite Hm in Hm'. injection Hm' as <-.
  rewrite Hs in Hs'. injection Hs' as <-.
  rewrite Hv in Hv'. injection Hv' as Hv'. rewrite <- Hv' in Hok'.
  rewrite Hok in Hok'. injection Hok' as Hok'.
  destruct ev, ev'; simpl in *; congruence.
Qed.

Lemma calculation_answered_dec call h :
  (exists ev, calculation_answered call h ev)
  \/ (forall ev, ~ calculation_answered call h ev).
Proof.
  destruct (_find_meter_entity (attr_ident call) h)
    as [[entry_id [[r ms]|]]|e'] eqn:Hf.
  2,3: right; intros ? (? & ? & ? & ? & ? & Hf' & _); congruence.
  destruct (meter ms) as [m|x] eqn:Hm.
  2: right; intros ? (? & ? & ? & ? & ? & Hf' & Hm' & _); congruence.
  destruct (get_charge_indications m) as [calculate|] eqn:Hs.
  2: right; intros ? (? & ? & ? & ? & ? & Hf' & Hm' & Hs' & _); congruence.
  destruct (_get_real_indications ms call) as [values|e'] eqn:Hv.
  2: right; intros ? (? & ? & ? & ? & ? & Hf' & Hm' & Hs' & Hv' & _); congruence.
  destruct (calculate values (attr_ignore_period call) false)
    as [calculation|e'] eqn:Hok.
  - left. exists
      {| calc_entity_id := entity_id ms; calc_meter_code := meter_code m;
         calc_indications := values; calc_result := calculation |},
      entry_id, r, ms, m, calculate.
    simpl. split_and!; auto.
  - right. intros ? (? & ? & ? & ? & ? & Hf' & Hm' & Hs' & Hv' & Hok' & _).
    rewrite Hf in Hf'. injection Hf' as <- <- <-.
    rewrite Hm in Hm'. injection Hm' as <-.
    rewrite Hs in Hs'. injection Hs' as <-.
    rewrite Hv in Hv'. injection Hv' as Hv'. rewrite <- Hv' in Hok'. congruence.
Qed.

(** X14.  What a calculation leaves behind.  The calculation-result event
    is fired exactly when the provider answered the calculation for the
    effective indications of the resolved meter, and carries the entity id,
    the meter code, these indications and the answer.  When the call asks
    for a notification by a boolean, the notification is created exactly
    when the calculation was answered and the boolean is true.  Whatever
    happens, the handler leaves nothing but its own events: it never saves
    indications, never fires a push result and never schedules a cycle. *)
Theorem calculation_result_iff_answered (call : ServiceCall) (h : Hass) :
  exists new,
    events (snd (async_calculate_indications call h)) = (new ++ events h)%list
    /\ forallb calculation_event new = true
    /\ (forall ev,
          In (FireCalculationResult ev) new <-> calculation_answered call h ev)
    /\ forall b,
         attr_notification call = NotifyBool b ->
         forall code content,
           In (CreateTask (CreateNotification code content)) new
           <-> b = true /\ content = NotifyBool true
               /\ exists ev, calculation_answered call h ev
                             /\ calc_meter_code ev = code.
Proof.
  destruct (calculation_answered_dec call h) as [(ev & Hacc)|Hno].
  - rewrite (calculation_answered_run call h ev Hacc). simpl.
    assert (forall ev', calculation_answered call h ev' -> ev' = ev) as Huniq.
    { intros. eapply calculation_answered_unique; eauto. }
    set (note := if notification_truthy (attr_notification call)
                 then [CreateTask (CreateNotification (calc_meter_code ev)
                                     (attr_notification call))]
                 else []).
    exists (note
            ++ [FireCalculationResult ev;
                ApiGetChargeIndications (calc_meter_code ev) (calc_indications ev)
                  (attr_ignore_period call) false])%list.
    split_and!.
    + unfold notify, note.
      destruct (notification_truthy (attr_notification call)); reflexivity.
    + unfold note.
      destruct (notification_truthy (attr_notification call)); reflexivity.
    + intros ev'. split.
      * intros Hin. assert (ev' = ev) as ->; [|done].
        unfold note in Hin.
        destruct (notification_truthy (attr_notification call)); simpl in Hin;
          intuition congruence.
      * intros ->%Huniq. apply in_or_app. right. now left.
    + intros b Hb code content. unfold note. rewrite Hb. simpl. split.
      * intros Hin. destruct b; simpl in Hin;
          try (exfalso; intuition congruence).
        destruct Hin as [[= <- <-]|[?|[?|[]]]]; try done.
        split_and!; eauto.
      * intros (-> & -> & ev' & ->%Huniq & <-). now left.
  - destruct (calculation_refused_run call h Hno) as (new & Hev & Hnew).
    exists new. split; [done|]. split_and!.
    + apply forallb_forall. intros e Hin. apply Hnew in Hin.
      destruct e as [[]| | | | | | | | | | | | | | | |]; done.
    + intros ev. split.
      * intros Hin. now apply Hnew in Hin.
      * intros Hacc. now apply Hno in Hacc.
    + intros b Hb code content. split.
      * intros Hin. now apply Hnew in Hin.
      * intros (_ & _ & ev & Hacc & _). now apply Hno in Hacc.
Qed.

Lemma only_events_refl h : only_events h h.
Proof. unfold only_events. split_and!; reflexivity. Qed.

Lemma only_events_emit e h h' : only_events h h' -> only_events h (emit e h').
Proof. unfold only_events. simpl. auto. Qed.

Lemma only_events_notify code call h h' :
  only_events h h' -> only_events h (notify code call h').
Proof.
  unfold notify. destruct (notification_truthy _); auto using only_events_emit.
Qed.

Lemma only_events_service_except e h h' :
  only_events h h' -> only_events h (snd (service_except e h')).
Proof.
  unfold service_except. repeat case_match; simpl; auto using only_events_emit.
Qed.

Lemma only_events_push call h :
  only_events h (snd (async_push_indications call h)).
Proof.
  unfold async_push_indications.
  repeat case_match; simpl;
    auto using only_events_refl, only_events_emit, only_events_notify,
      only_events_service_except.
Qed.

Lemma only_events_calculate call h :
  only_events h (snd (async_calculate_indications call h)).
Proof.
  unfold async_calculate_indications.
  repeat case_match; simpl;
    auto using only_events_refl, only_events_emit, only_events_notify,
      only_events_service_except.
Qed.

(** The events of a handler that reaches the provider, for either
    outcome of the call. *)
Lemma push_trace call h :
  exists new,
    events (snd (async_push_indications call h)) = (new ++ events h)%list
    /\ forallb push_event new = true
    /\ length (List.filter provider_call new) <= 1
    /\ forall e, In e new -> provider_call e = true ->
         exists code values,
           e = ApiSaveIndications code values (attr_ignore_period call) false.
Proof.
  destruct (push_accepted_dec call h) as [(entry_id & ev & Hacc)|Hno].
  - rewrite (push_accepted_run call h entry_id ev Hacc). simpl.
    unfold notify.
    destruct (notification_truthy (attr_notification call)); simpl;
      destruct (mem entry_id (data_updaters h)); simpl;
      [eexists [_; _; _; _] | eexists [_; _; _] | eexists [_; _; _]
       | eexists [_; _]];
      (split; [reflexivity|]); (split; [reflexivity|]);
      (split; [simpl; lia|]);
      intros e He Hp; simpl in He;
      repeat (destruct He as [<-|He]; [try discriminate Hp; eauto|]);
      destruct He.
  - unfold async_push_indications.
    destruct (_find_meter_entity (attr_ident call) h)
      as [[entry_id [[r ms]|]]|e'] eqn:Hf; simpl.
    + destruct (meter ms) as [m|x] eqn:Hm; [|exists []; split_and!; [reflexivity|reflexivity|simpl; lia|intros ? []]].
      destruct (save_indications m) as [save|] eqn:Hs; simpl.
      2:{ eexists [_]. split_and!; [reflexivity|reflexivity|simpl; lia|].
          now intros e [<-|[]]. }
      destruct (_get_real_indications ms call) as [values|e'] eqn:Hv;
        [|exists []; split_and!; [reflexivity|reflexivity|simpl; lia|intros ? []]].
      destruct (save values (attr_ignore_period call) false) as [comment|e'] eqn:Hok.
      * exfalso.
        apply (Hno entry_id
                 {| push_entity_id := entity_id ms; push_meter_code := meter_code m;
                    push_indications := values; push_comment := comment |}).
        exists r, ms, m, save. simpl. split_and!; auto.
      * unfold service_except.
        destruct (is_IndicationsCountException e'); simpl;
          [|destruct (is_MosenergosbytException e'); simpl];
          [eexists [_; _] | eexists [_; _] | eexists [_]];
          (split; [reflexivity|]); (split; [reflexivity|]);
          (split; [simpl; lia|]);
          intros e He Hp; simpl in He;
          repeat (destruct He as [<-|He]; [try discriminate Hp; eauto|]);
          destruct He.
    + eexists [_]. split_and!; [reflexivity|reflexivity|simpl; lia|].
      now intros e [<-|[]].
    + exists []; split_and!; [reflexivity|reflexivity|simpl; lia|intros ? []].
Qed.

Lemma calculate_trace call h :
  exists new,
    events (snd (async_calculate_indications call h)) = (new ++ events h)%list
    /\ length (List.filter provider_call new) <= 1
    /\ forall e, In e new -> provider_call e = true ->
         exists code values,
           e = ApiGetChargeIndications code values (attr_ignore_period call) false.
Proof.
  destruct (calculation_answered_dec call h) as [(ev & Hacc)|Hno].
  - rewrite (calculation_answered_run call h ev Hacc). simpl.
    unfold notify.
    destruct (notification_truthy (attr_notification call)); simpl;
      [eexists [_; _; _] | eexists [_; _]];
      (split; [reflexivity|]); (split; [simpl; lia|]);
      intros e He Hp; simpl in He;
      repeat (destruct He as [<-|He]; [try discriminate Hp; eauto|]);
      destruct He.
  - unfold async_calculate_indications.
    destruct (_find_meter_entity (attr_ident call) h)
      as [[entry_id [[r ms]|]]|e'] eqn:Hf; simpl.
    + destruct (meter ms) as [m|x] eqn:Hm; [|exists []; split_and!; [reflexivity|simpl; lia|intros ? []]].
      destruct (get_charge_indications m) as [calculate|] eqn:Hs; simpl.
      2:{ eexists [_]. split_and!; [reflexivity|simpl; lia|].
          now intros e [<-|[]]. }
      destruct (_get_real_indications ms call) as [values|e'] eqn:Hv;
        [|exists []; split_and!; [reflexivity|simpl; lia|intros ? []]].
      destruct (calculate values (attr_ignore_period call) false)
        as [calculation|e'] eqn:Hok.
      * exfalso.
        apply (Hno {| calc_entity_id := entity_id ms;
                      calc_meter_code := meter_code m;
                      calc_indications := values; calc_result := calculation |}).
        exists entry_id, r, ms, m, calculate. simpl. split_and!; auto.
      * unfold service_except.
        destruct (is_IndicationsCountException e'); simpl;
          [|destruct (is_MosenergosbytException e'); simpl];
          [eexists [_; _] | eexists [_; _] | eexists [_]];
          (split; [reflexivity|]); (split; [simpl; lia|]);
          intros e He Hp; simpl in He;
          repeat (destruct He as [<-|He]; [try discriminate Hp; eauto|]);
          destruct He.
    + eexists [_]. split_and!; [reflexivity|simpl; lia|].
      now intros e [<-|[]].
    + exists []; split_and!; [reflexivity|simpl; lia|intros ? []].
Qed.

(** X15.  The handlers and the host.  Both handlers leave the registries,
    the services and every sensor object as they were, and only put events
    in front of the event list.  Each makes at most one call to the
    provider, passes it the [ignore_period] of the caller and never asks
    it to skip the check of the indications.  The push handler leaves
    nothing but its log entries, its provider call, the push result, a
    notification and the scheduling of a cycle. *)
Theorem handlers_only_add_events (call : ServiceCall) (h : Hass) :
  (only_events h (snd (async_push_indications call h))
   /\ exists new,
        events (snd (async_push_indications call h)) = (new ++ events h)%list
        /\ forallb push_event new = true
        /\ length (List.filter provider_call new) <= 1
        /\ forall e, In e new -> provider_call e = true ->
             exists code values,
               e = ApiSaveIndications code values (attr_ignore_period call) false)
  /\ (only_events h (snd (async_calculate_indications call h))
      /\ exists new,
           events (snd (async_calculate_indications call h))
           = (new ++ events h)%list
           /\ length (List.filter provider_call new) <= 1
           /\ forall e, In e new -> provider_call e = true ->
                exists code values,
                  e = ApiGetChargeIndications code values
                        (attr_ignore_period call) false).
Proof.
  split; split;
    auto using only_events_push, only_events_calculate, push_trace,
      calculate_trace.
Qed.

(** ** Setup, once more *)

Lemma updater_lets_no_provider_failure_out entry cfg utcnow h e :
  fst (_entity_updater entry cfg utcnow h) = Raise e ->
  is_MosenergosbytException e = false.
Proof.
  unfold _entity_updater.
  destruct (get (data_api_objects h) entry) as [api|]; [|done].
  destruct (ensure_session cfg utcnow api h) as [[[]|e'] h1]; simpl.
  - destruct (get_accounts api) as [accts|e'].
    + pose proof (reconcile_accounts_frame entry cfg accts (emit ApiGetAccounts h1))
        as (_ & _ & _ & _ & Hr).
      intros H. rewrite H in Hr. exact Hr.
    + destruct (is_MosenergosbytException e') eqn:E; simpl; [done|].
      now intros [= <-].
  - destruct (is_MosenergosbytException e') eqn:E; simpl; [done|].
    now intros [= <-].
Qed.

(** X16.  The outcomes of setup against the outcomes of its cycle.  Setup
    returns false exactly when the cycle returned the failed result, and
    true exactly when the cycle returned its counts.  An exception that
    leaves setup is the exception that left the cycle, unchanged, and is
    no provider failure: since no provider failure leaves the cycle, the
    handler of lines 474-475 never runs and setup never turns a failure
    into [PlatformNotReady]. *)
Theorem setup_follows_the_cycle (entry : string) (cfg : UserCfg) (utcnow : Z)
    (h : Hass) :
  match fst (async_setup_entry entry cfg utcnow h) with
  | Ok false => fst (_entity_updater entry cfg utcnow h) = Ok UpdaterFalse
  | Ok true =>
      exists n_accounts n_meters n_invoices,
        fst (_entity_updater entry cfg utcnow h)
        = Ok (UpdaterCounts n_accounts n_meters n_invoices)
  | Raise e =>
      fst (_entity_updater entry cfg utcnow h) = Raise e
      /\ is_MosenergosbytException e = false
  end.
Proof.
  unfold async_setup_entry.
  pose proof (updater_lets_no_provider_failure_out entry cfg utcnow h) as Hout.
  destruct (_entity_updater entry cfg utcnow h) as [[[|na nm ni]|e] h'];
    simpl in *.
  - done.
  - destruct (Nat.eqb (na + nm + ni) 0); simpl; eauto.
  - rewrite (Hout e eq_refl). simpl. auto.
Qed.

Lemma str_in_cons x y l : str_in x (y :: l) = String.eqb x y || str_in x l.
Proof. reflexivity. Qed.

(** X17.  The services are registered once.  Registering is idempotent and
    drops no service; it does nothing when the push service is registered,
    and otherwise registers the push and the calculation service. *)
Theorem services_are_registered_once (h : Hass) :
  async_register_services (async_register_services h)
  = async_register_services h
  /\ (forall name, str_in name (services h) = true ->
                   str_in name (services (async_register_services h)) = true)
  /\ if str_in SERVICE_PUSH_INDICATIONS (services h)
     then async_register_services h = h
     else services (async_register_services h)
          = SERVICE_CALCULATE_INDICATIONS :: SERVICE_PUSH_INDICATIONS
              :: services h.
Proof.
  unfold async_register_services.
  destruct (str_in SERVICE_PUSH_INDICATIONS (services h)) eqn:Hp.
  - rewrite Hp. auto.
  - split_and!; [reflexivity| |reflexivity].
    intros name Hn. cbn [services with_services emit].
    now rewrite !str_in_cons, Hn, !orb_true_r.
Qed.

(** X18.  A setup whose cycle discovers something.  When the cycle
    returns counts that are not all zero, setup returns true, the push
    service is registered, the calculation service too unless the push
    service was registered without it, the periodic trigger is installed
    and the entry has its updater in the table, next to the updaters of
    the other entries. *)
Theorem successful_setup_installs_updater (entry : string) (cfg : UserCfg)
    (utcnow : Z) (h : Hass) (n_accounts n_meters n_invoices : nat) :
  fst (_entity_updater entry cfg utcnow h)
  = Ok (UpdaterCounts n_accounts n_meters n_invoices) ->
  n_accounts + n_meters + n_invoices <> 0 ->
  fst (async_setup_entry entry cfg utcnow h) = Ok true
  /\ mem entry (data_updaters (snd (async_setup_entry entry cfg utcnow h))) = true
  /\ (forall other, other <> entry ->
        get (data_updaters (snd (async_setup_entry entry cfg utcnow h))) other
        = get (data_updaters h) other)
  /\ str_in SERVICE_PUSH_INDICATIONS
       (services (snd (async_setup_entry entry cfg utcnow h))) = true
  /\ (str_in SERVICE_PUSH_INDICATIONS (services h) = false ->
      str_in SERVICE_CALCULATE_INDICATIONS
        (services (snd (async_setup_entry entry cfg utcnow h))) = true)
  /\ In (TrackTimeInterval entry)
       (events (snd (async_setup_entry entry cfg utcnow h))).
Proof.
  intros Hrun Hne. unfold async_setup_entry.
  pose proof (updater_keeps_registrations entry cfg utcnow h) as [Hs Hu].
  destruct (_entity_updater entry cfg utcnow h) as [res h']. simpl in *.
  subst res. apply Nat.eqb_neq in Hne. rewrite Hne. simpl.
  assert (data_updaters (async_register_services h') = data_updaters h) as Hu'.
  { unfold async_register_services. now destruct (str_in _ _). }
  rewrite Hu'. unfold mem. rewrite get_set_eq.
  split_and!; auto.
  - intros other Hother. now apply get_set_ne.
  - unfold async_register_services. rewrite Hs.
    destruct (str_in SERVICE_PUSH_INDICATIONS (services h)) eqn:Hp; simpl.
    + now rewrite Hs.
    + reflexivity.
  - intros Hp. unfold async_register_services. rewrite Hs, Hp. reflexivity.
Qed.

Lemma successful_setup_installs_updater_witness :
  (fst (_entity_updater "entry" Sample.cfg 0 Sample.hass_A1_down)
   = Ok (UpdaterCounts 2 1 1)
   /\ 2 + 1 + 1 <> 0)
  /\ (fst (async_setup_entry "entry" Sample.cfg 0 Sample.hass_A1_down) = Ok true
      /\ mem "entry"
           (data_updaters
              (snd (async_setup_entry "entry" Sample.cfg 0 Sample.hass_A1_down)))
         = true
      /\ (forall other, other <> "entry" ->
            get (data_updaters
                   (snd (async_setup_entry "entry" Sample.cfg 0
                           Sample.hass_A1_down))) other
            = get (data_updaters Sample.hass_A1_down) other)
      /\ str_in SERVICE_PUSH_INDICATIONS
           (services
              (snd (async_setup_entry "entry" Sample.cfg 0 Sample.hass_A1_down)))
         = true
      /\ (str_in SERVICE_PUSH_INDICATIONS (services Sample.hass_A1_down) = false ->
          str_in SERVICE_CALCULATE_INDICATIONS
            (services
               (snd (async_setup_entry "entry" Sample.cfg 0
                       Sample.hass_A1_down))) = true)
      /\ In (TrackTimeInterval "entry")
           (events
              (snd (async_setup_entry "entry" Sample.cfg 0 Sample.hass_A1_down)))).
Proof.
  split; [split; [vm_compute; reflexivity|discriminate]|].
  apply (successful_setup_installs_updater "entry" Sample.cfg 0
           Sample.hass_A1_down 2 1 1);
    [vm_compute; reflexivity|discriminate].
Defined.

(** ** The update of an account sensor *)

(** X19.  The update of an account sensor is all or nothing.  It either
    completes and returns [None], or leaves the icon, state, unit and
    attributes of the sensor exactly as they were.  It returns [False]
    exactly when it logged a failure, and what it logs is a provider
    failure of one of its three fetches.  The icon is never changed. *)
Theorem account_update_is_all_or_nothing (account_code : string)
    (account : AccountInfo) (self : MESEntity) :
  let run := MESAccountSensor_async_update account_code account self in
  _icon (snd (fst run)) = _icon self
  /\ (fst (fst run) = Ok None \/ snd (fst run) = self)
  /\ (fst (fst run) = Ok (Some false)
      <-> exists e rest, snd run = LogRetrievingFailed e :: rest)
  /\ forall e,
       In (LogRetrievingFailed e) (snd run) ->
       is_MosenergosbytException e = true
       /\ (get_last_payment account = Raise e
           \/ get_current_balance account = Raise e
           \/ get_remaining_days account = Raise e).
Proof.
  unfold MESAccountSensor_async_update, account_update_failed.
  destruct (is_locked account); simpl.
  { split_and!; auto; [split; [done|intros (? & ? & ?); done]|intros ? []]. }
  destruct (get_last_payment account) as [last_payment|e1] eqn:H1.
  2:{ destruct (is_MosenergosbytException e1) eqn:E1; simpl.
      - split_and!; auto; [split; eauto|].
        intros e [[= <-]|[?|[]]]; [auto|done].
      - split_and!; auto; [split; [done|intros (? & ? & ?); done]|].
        intros e [?|[]]; done. }
  destruct (get_current_balance account) as [balance|e2] eqn:H2.
  2:{ destruct (is_MosenergosbytException e2) eqn:E2; simpl.
      - split_and!; auto; [split; eauto|].
        intros e [[= <-]|[?|[?|[]]]]; [auto|done|done].
      - split_and!; auto; [split; [done|intros (? & ? & ?); done]|].
        intros e [?|[?|[]]]; done. }
  destruct (is_electricity (service_type account)).
  - destruct (get_remaining_days account) as [remaining|e3] eqn:H3.
    2:{ destruct (is_MosenergosbytException e3) eqn:E3; simpl.
        - split_and!; auto; [split; eauto|].
          intros e [[= <-]|[?|[?|[?|[]]]]]; [auto|done..].
        - split_and!; auto; [split; [done|intros (? & ? & ?); done]|].
          intros e [?|[?|[?|[]]]]; done. }
    unfold subscript.
    destruct (get last_payment "date"), (get last_payment "amount"),
      (get last_payment "status"); simpl;
      (split_and!; auto; [split; [done|intros (? & ? & ?); done]|];
       intros e [?|[?|[?|[]]]]; done).
  - unfold subscript.
    destruct (get last_payment "date"), (get last_payment "amount"),
      (get last_payment "status"); simpl;
      (split_and!; auto; [split; [done|intros (? & ? & ?); done]|];
       intros e [?|[?|[]]]; done).
Qed.

(** X20.  The fetches of an account update.  A locked account is never
    queried.  For an account that is not locked the last payment is
    fetched; the balance is fetched only after the last payment was
    delivered; and the remaining days are fetched only for an electricity
    account, after the other two were delivered. *)
Theorem account_fetches_are_ordered (account_code : string)
    (account : AccountInfo) (self : MESEntity) :
  let calls := snd (MESAccountSensor_async_update account_code account self) in
  (if is_locked account then calls = [] else In GetLastPayment calls)
  /\ (In GetCurrentBalance calls ->
      exists last_payment, get_last_payment account = Ok last_payment)
  /\ (In GetRemainingDays calls ->
      service_type account = ELECTRICITY
      /\ (exists last_payment, get_last_payment account = Ok last_payment)
      /\ exists balance, get_current_balance account = Ok balance).
Proof.
  unfold MESAccountSensor_async_update, account_update_failed, subscript.
  destruct (is_locked account); simpl.
  { split_and!; [done|intros []|intros []]. }
  destruct (get_last_payment account) as [last_payment|e1].
  2:{ destruct (is_MosenergosbytException e1); simpl;
        (split_and!; [auto|intuition discriminate|intuition discriminate]). }
  destruct (get_current_balance account) as [balance|e2].
  2:{ destruct (is_MosenergosbytException e2); simpl;
        (split_and!; [auto|eauto|intuition discriminate]). }
  destruct (service_type account) as [|name]; simpl.
  - destruct (get_remaining_days account) as [remaining|e3].
    2:{ destruct (is_MosenergosbytException e3); simpl;
          (split_and!; [auto|eauto|intros _; split_and!; eauto]). }
    destruct (get last_payment "date"), (get last_payment "amount"),
      (get last_payment "status"); simpl;
      (split_and!; [auto|eauto|intros _; split_and!; eauto]).
  - destruct (get last_payment "date"), (get last_payment "amount"),
      (get last_payment "status"); simpl;
      (split_and!; [auto|eauto|intuition discriminate]).
Qed.

(** X21.  The attributes of an account sensor after a completed update,
    in the order the host is given them.  A locked account shows its code,
    address, service type, the status [locked] and the reason; an account
    that is not locked shows its code, address, service type, the date,
    amount and status of the last payment, the status [ok] and, when the
    remaining days were fetched and are not [None], the remaining days.
    The attribution comes last.  The state is the balance, or [unknown]
    for a locked account. *)
Theorem account_attributes_shown (account_code : string)
    (account : AccountInfo) (self : MESEntity) :
  fst (fst (MESAccountSensor_async_update account_code account self)) = Ok None ->
  keys (device_state_attributes
          (snd (fst (MESAccountSensor_async_update account_code account self))))
  = ((if is_locked account
      then ["account_code"; "address"; "service_type"; "status"; "reason"]
      else (["account_code"; "address"; "service_type"; "last_payment_date";
             "last_payment_amount"; "last_payment_status"; "status"]
            ++ match (if is_electricity (service_type account)
                      then get_remaining_days account else Ok VNone) with
               | Ok VNone | Raise _ => []
               | Ok _ => ["remaining_days"]
               end)%list)
     ++ [ATTR_ATTRIBUTION])%list
  /\ get (device_state_attributes
            (snd (fst (MESAccountSensor_async_update account_code account self))))
       "status"
     = Some (VStr (if is_locked account then STATE_LOCKED else STATE_OK))
  /\ Ok (_state (snd (fst (MESAccountSensor_async_update account_code account
                              self))))
     = if is_locked account then Ok (VStr STATE_UNKNOWN)
       else get_current_balance account.
Proof.
  unfold MESAccountSensor_async_update, account_update_failed, subscript.
  destruct (is_locked account); simpl; [done|].
  destruct (get_last_payment account) as [last_payment|e1].
  2:{ destruct (is_MosenergosbytException e1); done. }
  destruct (get_current_balance account) as [balance|e2].
  2:{ destruct (is_MosenergosbytException e2); done. }
  destruct (is_electricity (service_type account)).
  - destruct (get_remaining_days account) as [remaining|e3].
    2:{ destruct (is_MosenergosbytException e3); done. }
    destruct (get last_payment "date"), (get last_payment "amount"),
      (get last_payment "status"); try done.
    destruct remaining; done.
  - destruct (get last_payment "date"), (get last_payment "amount"),
      (get last_payment "status"); done.
Qed.

(** ** The update of a meter sensor *)

Lemma to_uint_nonnil (n : nat) : Nat.to_uint n <> Decimal.Nil.
Proof.
  rewrite <- (Unsigned.of_to n) at 1. rewrite Unsigned.to_of.
  apply DecimalFacts.unorm_nonnil.
Qed.

Lemma decimal_inj (i j : nat) : decimal i = decimal j -> i = j.
Proof.
  unfold decimal. intros H.
  apply (f_equal NilZero.uint_of_string) in H.
  rewrite !NilZero.usu in H by apply to_uint_nonnil.
  injection H as H. now apply Unsigned.to_uint_inj.
Qed.

Lemma append_inj_r (p a b : string) : (p ++ a = p ++ b)%string -> a = b.
Proof. induction p as [|c p IH]; simpl; [done|]. intros [= H]. auto. Qed.

Lemma prefix_append (p x : string) : String.prefix p (p ++ x) = true.
Proof.
  induction p as [|c p IH]; simpl; [now destruct x|].
  destruct (Ascii.ascii_dec c c); [exact IH|done].
Qed.

(** The loop over the values of one kind only writes keys that begin with
    its prefix and end in the number of a position. *)
Lemma get_tariff_values_other prefix values : forall start attributes k,
  (forall j, start <= j < start + length values -> k <> (prefix ++ decimal j)%string) ->
  get (fold_left
         (fun acc iv => set acc (prefix ++ decimal (fst iv)) (value_of (snd iv)))
         (enumerate start values) attributes) k
  = get attributes k.
Proof.
  induction values as [|v values IH]; intros start attributes k Hk; simpl; [done|].
  rewrite IH.
  - apply get_set_ne. intros Heq. apply (Hk start); [simpl; lia|done].
  - intros j Hj. apply Hk. simpl. lia.
Qed.

Lemma get_tariff_values_at prefix values : forall start attributes i v,
  values !! i = Some v ->
  get (fold_left
         (fun acc iv => set acc (prefix ++ decimal (fst iv)) (value_of (snd iv)))
         (enumerate start values) attributes) (prefix ++ decimal (start + i))
  = Some (value_of v).
Proof.
  induction values as [|v0 values IH]; intros start attributes i v; [done|].
  destruct i as [|i]; simpl.
  - intros [= ->]. rewrite Nat.add_0_r, get_tariff_values_other.
    + apply get_set_eq.
    + intros j Hj Heq. apply append_inj_r, decimal_inj in Heq. lia.
  - intros Hv. rewrite <- Nat.add_succ_comm. now apply IH.
Qed.

Lemma get_set_tariff_values_at prefix values attributes i v :
  values !! i = Some v ->
  get (set_tariff_values prefix values attributes) (prefix ++ decimal (S i))
  = Some (value_of v).
Proof. apply (get_tariff_values_at prefix values 1). Qed.

Lemma get_set_tariff_values_beyond prefix values attributes i :
  i = 0 \/ length values < i ->
  get (set_tariff_values prefix values attributes) (prefix ++ decimal i)
  = get attributes (prefix ++ decimal i).
Proof.
  intros Hi. apply get_tariff_values_other.
  intros j Hj Heq. apply append_inj_r, decimal_inj in Heq. lia.
Qed.

Lemma get_set_tariff_values_prefix prefix values attributes k :
  String.prefix prefix k = false ->
  get (set_tariff_values prefix values attributes) k = get attributes k.
Proof.
  intros Hk. apply get_tariff_values_other.
  intros j _ ->. now rewrite prefix_append in Hk.
Qed.

(** X22.  The attributes of an electricity meter.  The update of the
    sensor of an electricity meter raises nothing, leaves icon and unit
    alone, sets the state to the status of the meter, or to [ok] when the
    meter has none, and shows the last, submitted and today's indications
    of the tariffs under keys numbered from 1 in the order of the
    tariffs: position [i] of the last indications is [last_value_t<i+1>],
    and there is no key for position 0 or for a position beyond the
    tariffs of the meter. *)
Theorem tariff_attributes_are_numbered_from_one (ATTRS : InvoiceATTRS)
    (m : Meter) (info : MeterInfo) (e : ElectricityInfo) (self : MESEntity) :
  meter_kind info = MESElectricityMeter e ->
  exists attributes,
    MESMeterSensor_async_update ATTRS (MeterV m) info self
    = (Ok tt,
       {| _icon := _icon self;
          _state := state_of_status (current_status info);
          _unit := _unit self;
          _attributes := Some attributes |})
    /\ (forall i v,
          last_indications m !! i = Some v ->
          get attributes ("last_value_t" ++ decimal (S i))
          = Some (value_of v))
    /\ (forall i v,
          submitted_indications m !! i = Some v ->
          get attributes ("submitted_value_t" ++ decimal (S i))
          = Some (value_of v))
    /\ (forall i v,
          today_indications e !! i = Some v ->
          get attributes ("today_value_t" ++ decimal (S i))
          = Some (value_of v))
    /\ (forall i,
          i = 0 \/ length (last_indications m) < i ->
          get attributes ("last_value_t" ++ decimal i) = None)
    /\ get attributes "meter_code" = Some (VStr (meter_code m)).
Proof.
  intros Hk. unfold MESMeterSensor_async_update. rewrite Hk.
  set (fixed :=
         set (set (set [("meter_code", VStr (meter_code m));
                        ("account_code", VStr (meter_account_code info));
                        ("remaining_days", remaining_submit_days info)]
                     "install_date" (VStr (install_date e)))
                "submit_period_start" (VStr (period_start_date e)))
           "submit_period_end" (VStr (period_end_date e))).
  exists (set_tariff_values "today_value_t" (today_indications e)
            (set_tariff_values "submitted_value_t" (submitted_indications m)
               (set_tariff_values "last_value_t" (last_indications m) fixed))).
  split; [reflexivity|].
  split_and!.
  - intros i v Hv.
    rewrite !get_set_tariff_values_prefix by reflexivity.
    now apply get_set_tariff_values_at.
  - intros i v Hv.
    rewrite get_set_tariff_values_prefix by reflexivity.
    now apply get_set_tariff_values_at.
  - intros i v Hv. now apply get_set_tariff_values_at.
  - intros i Hi.
    rewrite !get_set_tariff_values_prefix by reflexivity.
    rewrite get_set_tariff_values_beyond by done.
    reflexivity.
  - now rewrite !get_set_tariff_values_prefix by reflexivity.
Qed.

(** ** Unique ids *)

(** X23.  The unique ids of the sensors.  The ids of an account sensor, a
    meter sensor and an invoice sensor never coincide, and within a kind
    two ids are equal exactly when the service ids, the meter codes or the
    account codes are: the meters of two accounts that carry the same code
    have the same unique id. *)
Theorem unique_ids_by_kind (account account' : AccountInfo)
    (meter_code meter_code' account_code account_code' : string) :
  MESAccountSensor_unique_id account <> MESMeterSensor_unique_id meter_code
  /\ MESAccountSensor_unique_id account
     <> MESInvoiceSensor_unique_id account_code
  /\ MESMeterSensor_unique_id meter_code
     <> MESInvoiceSensor_unique_id account_code
  /\ (MESAccountSensor_unique_id account = MESAccountSensor_unique_id account'
      <-> service_id account = service_id account')
  /\ (MESMeterSensor_unique_id meter_code = MESMeterSensor_unique_id meter_code'
      <-> meter_code = meter_code')
  /\ (MESInvoiceSensor_unique_id account_code
      = MESInvoiceSensor_unique_id account_code'
      <-> account_code = account_code').
Proof.
  unfold MESAccountSensor_unique_id, MESMeterSensor_unique_id,
    MESInvoiceSensor_unique_id.
  split_and!; try discriminate;
    (split; [apply append_inj_r|now intros ->]).
Qed.

(** ** The entities on sample data *)

Lemma account_attributes_shown_witness :
  fst (fst (MESAccountSensor_async_update "A1"
              SampleEntities.electricity_account
              (SampleEntities.created "mdi:flash-circle"))) = Ok None
  /\ (keys (device_state_attributes
              (snd (fst (MESAccountSensor_async_update "A1"
                           SampleEntities.electricity_account
                           (SampleEntities.created "mdi:flash-circle")))))
      = ((if is_locked SampleEntities.electricity_account
          then ["account_code"; "address"; "service_type"; "status"; "reason"]
          else (["account_code"; "address"; "service_type"; "last_payment_date";
                 "last_payment_amount"; "last_payment_status"; "status"]
                ++ match (if is_electricity
                               (service_type SampleEntities.electricity_account)
                          then get_remaining_days
                                 SampleEntities.electricity_account
                          else Ok VNone) with
                   | Ok VNone | Raise _ => []
                   | Ok _ => ["remaining_days"]
                   end)%list)
         ++ [ATTR_ATTRIBUTION])%list
      /\ get (device_state_attributes
                (snd (fst (MESAccountSensor_async_update "A1"
                             SampleEntities.electricity_account
                             (SampleEntities.created "mdi:flash-circle")))))
           "status"
         = Some (VStr (if is_locked SampleEntities.electricity_account
                       then STATE_LOCKED else STATE_OK))
      /\ Ok (_state (snd (fst (MESAccountSensor_async_update "A1"
                                  SampleEntities.electricity_account
                                  (SampleEntities.created "mdi:flash-circle")))))
         = if is_locked SampleEntities.electricity_account
           then Ok (VStr STATE_UNKNOWN)
           else get_current_balance SampleEntities.electricity_account).
Proof.
  split; [reflexivity|].
  apply (account_attributes_shown "A1" SampleEntities.electricity_account
           (SampleEntities.created "mdi:flash-circle")).
  reflexivity.
Defined.

Lemma tariff_attributes_are_numbered_from_one_witness :
  meter_kind SampleEntities.two_tariffs_info
  = MESElectricityMeter SampleEntities.electricity_info
  /\ exists attributes,
       MESMeterSensor_async_update SampleEntities.attrs
         (MeterV SampleEntities.two_tariffs) SampleEntities.two_tariffs_info
         (SampleEntities.created "mdi:counter")
       = (Ok tt,
          {| _icon := _icon (SampleEntities.created "mdi:counter");
             _state :=
               state_of_status (current_status SampleEntities.two_tariffs_info);
             _unit := _unit (SampleEntities.created "mdi:counter");
             _attributes := Some attributes |})
       /\ (forall i v,
             last_indications SampleEntities.two_tariffs !! i = Some v ->
             get attributes ("last_value_t" ++ decimal (S i))
             = Some (value_of v))
       /\ (forall i v,
             submitted_indications SampleEntities.two_tariffs !! i = Some v ->
             get attributes ("submitted_value_t" ++ decimal (S i))
             = Some (value_of v))
       /\ (forall i v,
             today_indications SampleEntities.electricity_info !! i = Some v ->
             get attributes ("today_value_t" ++ decimal (S i))
             = Some (value_of v))
       /\ (forall i,
             i = 0 \/ length (last_indications SampleEntities.two_tariffs) < i ->
             get attributes ("last_value_t" ++ decimal i) = None)
       /\ get attributes "meter_code"
          = Some (VStr (meter_code SampleEntities.two_tariffs)).
Proof.
  split; [reflexivity|].
  apply (tariff_attributes_are_numbered_from_one SampleEntities.attrs
           SampleEntities.two_tariffs SampleEntities.two_tariffs_info
           SampleEntities.electricity_info (SampleEntities.created "mdi:counter")).
  reflexivity.
Defined.

(** An account update that completes, one whose balance fetch fails on a
    sensor that was shown before, and the update of a meter with two
    tariffs. *)
Example entity_updates :
  MESAccountSensor_async_update "A1" SampleEntities.electricity_account
    (SampleEntities.created "mdi:flash-circle")
  = (Ok None,
     {| _icon := Some "mdi:flash-circle";
        _state := VNum 350;
        _unit := Some "руб.";
        _attributes :=
          Some [("account_code", VStr "A1"); ("address", VStr "Moscow");
                ("service_type", VStr "electricity");
                ("last_payment_date", VStr "2020-05-01");
                ("last_payment_amount", VNum 1200);
                ("last_payment_status", VStr "accepted");
                ("status", VStr "ok"); ("remaining_days", VNum 5)] |},
     [GetRemainingDays; GetCurrentBalance; GetLastPayment])
  /\ MESAccountSensor_async_update "A1" SampleEntities.balance_down
       SampleEntities.shown
     = (Ok (Some false), SampleEntities.shown,
        [LogRetrievingFailed (MosenergosbytException "unavailable");
         GetCurrentBalance; GetLastPayment])
  /\ MESMeterSensor_async_update SampleEntities.attrs
       (MeterV SampleEntities.two_tariffs) SampleEntities.two_tariffs_info
       (SampleEntities.created "mdi:counter")
     = (Ok tt,
        {| _icon := Some "mdi:counter";
           _state := VStr "ok";
           _unit := None;
           _attributes :=
             Some [("meter_code", VStr "M1"); ("account_code", VStr "A1");
                   ("remaining_days", VNum 3);
                   ("install_date", VStr "2015-01-01");
                   ("submit_period_start", VStr "2020-05-15");
                   ("submit_period_end", VStr "2020-05-26");
                   ("last_value_t1", VNum 100); ("last_value_t2", VNum 50);
                   ("submitted_value_t1", VNum 120);
                   ("submitted_value_t2", VNone)] |}).
Proof. repeat split; reflexivity. Qed.
